(* Shallow embedding of the self-learning RAG core of full-stack-school:
   src/lib/ai/graphs/rag-workflow.ts, src/lib/ai/utils/vector-store.ts,
   src/lib/ai/utils/document-processing.ts, src/lib/ai/utils/answer-generation.ts,
   query-refinement.ts and self-evaluation.ts.

   JS numbers are modelled as rationals (Q) in the workflow and the scoring
   heuristics, as reals (R) in the vector store, and as IEEE doubles
   (primitive floats) where rounding is the point.  External services
   (OpenAI, Prisma) are oracles that may throw. *)

From Stdlib Require Import String Ascii List Bool Arith Lia ZArith.
From Stdlib Require Import QArith Qminmax.
From Stdlib Require Import Reals Lra.
From Stdlib Require Lqa.
From Stdlib Require Import Sorted Permutation.
From Stdlib Require Floats.
Import ListNotations.
Close Scope Q_scope.

(* ------------------------------------------------------------------------ *)
(** * JavaScript exceptions as an error monad *)

Module JS.

(** A thrown value; every throw site of the code throws an [Error]. *)
Inductive thrown : Type := JSError (message : string).

Definition message (e : thrown) : string := match e with JSError m => m end.

Definition M (A : Type) : Type := (thrown + A)%type.

Definition ret {A} (a : A) : M A := inr a.
Definition throw {A} (e : thrown) : M A := inl e.
Definition bind {A B} (m : M A) (k : A -> M B) : M B :=
  match m with inl e => inl e | inr a => k a end.

(** [try { m } catch (e) { h(e) }] *)
Definition try_catch {A} (m : M A) (h : thrown -> M A) : M A :=
  match m with inl e => h e | inr a => inr a end.

Notation "x <- m ;; k" := (bind m (fun x => k))
  (at level 61, m at next level, right associativity).

(** JS truthiness of an optional string ([undefined] and [""] are falsy). *)
Definition truthy_str (o : option string) : bool :=
  match o with Some s => negb (String.eqb s "") | None => false end.

(** [a || b] on optional strings. *)
Definition or_str (a : option string) (b : string) : string :=
  match a with Some s => if String.eqb s "" then b else s | None => b end.

Definition Qltb (x y : Q) : bool := negb (Qle_bool y x).

End JS.

Import JS.

(* ------------------------------------------------------------------------ *)
(** * rag-workflow.ts *)

Module RAGWorkflow.

Inductive Role := Teacher | Student.

Record Doc := mkDoc {
  doc_id : string;
  doc_content : string;
  doc_title : option string;
  doc_score : Q
}.

Inductive Message :=
| HumanMessage (s : string)
| SystemMessage (s : string)
| AIMessage (s : string).

(** Result of [generateAnswer]. *)
Record GenResult := mkGenResult {
  gr_answer : string;
  gr_confidence : Q;
  gr_sources : list string;
  gr_tokenUsage : nat
}.

(** Result of [evaluateAnswer] (the fields the workflow reads). *)
Record Evaluation := mkEvaluation {
  ev_score : Q;
  ev_feedback : string
}.

(** [RAGState]; the pass-through identifiers (userId, conversationId,
    startTime) are only used for logging and are left out. *)
Record RAGState := mkRAGState {
  originalQuery : string;
  refinedQuery : option string;
  userRole : Role;
  mode : string;
  subject : option string;
  gradeLevel : option Z;
  retrievedDocuments : list Doc;
  relevanceScores : option (list Q);
  generatedAnswer : option string;
  confidence : option Q;
  sources : option (list string);
  needsRefinement : bool;
  refinementAttempts : nat;
  evaluationScore : option Q;
  feedback : option string;
  messages : list Message;
  tokenUsage : nat;
  error : option string
}.

(** A node returns [Partial<RAGState>]: the keys it sets.  Every channel
    is a last-value channel, so a set key overwrites the old value. *)
Inductive Update :=
| U_refinedQuery (q : string)
| U_refinementAttempts (n : nat)
| U_messages (m : list Message)
| U_retrievedDocuments (d : list Doc)
| U_relevanceScores (r : list Q)
| U_error (e : string)
| U_generatedAnswer (a : string)
| U_confidence (c : Q)
| U_sources (l : list string)
| U_tokenUsage (n : nat)
| U_evaluationScore (x : Q)
| U_needsRefinement (b : bool)
| U_feedback (f : string).

Definition apply_update (s : RAGState) (u : Update) : RAGState :=
  let '(mkRAGState oq rq ro mo su gl rd rs ga co so nr ra es fb ms tu er) := s in
  match u with
  | U_refinedQuery q => mkRAGState oq (Some q) ro mo su gl rd rs ga co so nr ra es fb ms tu er
  | U_refinementAttempts n => mkRAGState oq rq ro mo su gl rd rs ga co so nr n es fb ms tu er
  | U_messages m => mkRAGState oq rq ro mo su gl rd rs ga co so nr ra es fb m tu er
  | U_retrievedDocuments d => mkRAGState oq rq ro mo su gl d rs ga co so nr ra es fb ms tu er
  | U_relevanceScores r => mkRAGState oq rq ro mo su gl rd (Some r) ga co so nr ra es fb ms tu er
  | U_error e => mkRAGState oq rq ro mo su gl rd rs ga co so nr ra es fb ms tu (Some e)
  | U_generatedAnswer a => mkRAGState oq rq ro mo su gl rd rs (Some a) co so nr ra es fb ms tu er
  | U_confidence c => mkRAGState oq rq ro mo su gl rd rs ga (Some c) so nr ra es fb ms tu er
  | U_sources l => mkRAGState oq rq ro mo su gl rd rs ga co (Some l) nr ra es fb ms tu er
  | U_tokenUsage n => mkRAGState oq rq ro mo su gl rd rs ga co so nr ra es fb ms n er
  | U_evaluationScore x => mkRAGState oq rq ro mo su gl rd rs ga co so nr ra (Some x) fb ms tu er
  | U_needsRefinement b => mkRAGState oq rq ro mo su gl rd rs ga co so b ra es fb ms tu er
  | U_feedback f => mkRAGState oq rq ro mo su gl rd rs ga co so nr ra es (Some f) ms tu er
  end.

Definition apply_updates (s : RAGState) (us : list Update) : RAGState :=
  fold_left apply_update us s.

Inductive LogSite := LogRetrieval | LogGeneration | LogComplete | LogError.

(** The external collaborators, as oracles.  A call made during the cycle
    whose attempt counter is [k] receives [k]; any outcome, including a
    throw, is possible, and different cycles may see different outcomes. *)
Record Env := mkEnv {
  env_refine : nat -> M string;            (* refineQuery *)
  env_retrieve : nat -> string -> M (list Doc); (* retrieveDocuments *)
  env_generate : nat -> M GenResult;       (* generateAnswer *)
  env_evaluate : nat -> M Evaluation;      (* evaluateAnswer *)
  env_log : LogSite -> nat -> M unit;      (* prisma.aIAnalytics.create *)
  env_build : M unit                       (* buildRAGWorkflow / compile *)
}.

Section Nodes.
Variable env : Env.

(** [logAnalytics]: catches its own failure ("Don't throw errors for
    analytics failures"). *)
Definition logAnalytics (site : LogSite) (k : nat) : M unit :=
  try_catch (env_log env site k) (fun _ => ret tt).

Definition queryRefinementNode (s : RAGState) : M (list Update) :=
  try_catch
    (q <- env_refine env (refinementAttempts s) ;;
     ret [U_refinedQuery q;
          U_refinementAttempts (refinementAttempts s + 1);
          U_messages (messages s ++ [SystemMessage (String.append "Query refined: " q)])])
    (fun _ => ret [U_refinedQuery (originalQuery s);
                   U_refinementAttempts (refinementAttempts s + 1)]).

Definition documentRetrievalNode (s : RAGState) : M (list Update) :=
  let queryToUse := or_str (refinedQuery s) (originalQuery s) in
  try_catch
    (docs <- env_retrieve env (refinementAttempts s) queryToUse ;;
     let scores := map doc_score docs in
     _ <- logAnalytics LogRetrieval (refinementAttempts s) ;;
     ret [U_retrievedDocuments docs;
          U_relevanceScores scores;
          U_messages (messages s ++ [SystemMessage "Retrieved documents"])])
    (fun e => ret [U_retrievedDocuments []; U_error (message e)]).

Definition generation_apology : string :=
  "I apologize, but I encountered an error generating an answer. Please try again.".

Definition answerGenerationNode (s : RAGState) : M (list Update) :=
  try_catch
    (r <- env_generate env (refinementAttempts s) ;;
     _ <- logAnalytics LogGeneration (refinementAttempts s) ;;
     ret [U_generatedAnswer (gr_answer r);
          U_confidence (gr_confidence r);
          U_sources (gr_sources r);
          U_tokenUsage (tokenUsage s + gr_tokenUsage r);
          U_messages (messages s ++ [AIMessage (gr_answer r)])])
    (fun e => ret [U_error (message e); U_generatedAnswer generation_apology]).

Definition selfEvaluationNode (s : RAGState) : M (list Update) :=
  try_catch
    (if negb (truthy_str (generatedAnswer s)) then
       ret [U_evaluationScore 0; U_needsRefinement true]
     else
       ev <- env_evaluate env (refinementAttempts s) ;;
       let needs :=
         Qltb (ev_score ev) (7 # 10) &&
         (refinementAttempts s <? 3) &&
         (0 <? length (retrievedDocuments s)) in
       ret [U_evaluationScore (ev_score ev);
            U_needsRefinement needs;
            U_feedback (ev_feedback ev);
            U_messages (messages s ++ [SystemMessage "Self-evaluation score"])])
    (fun _ => ret [U_evaluationScore (1 # 2); U_needsRefinement false]).

(** Conditional edge [shouldRefine]. *)
Definition shouldRefine (s : RAGState) : bool :=
  needsRefinement s && (refinementAttempts s <? 3).

Inductive Node := QueryRefinement | DocumentRetrieval | AnswerGeneration | SelfEvaluation.
Inductive Next := Goto (n : Node) | End.

(** The edges of [buildRAGWorkflow]. *)
Definition next_of (n : Node) (s : RAGState) : Next :=
  match n with
  | QueryRefinement => Goto DocumentRetrieval
  | DocumentRetrieval => Goto AnswerGeneration
  | AnswerGeneration => Goto SelfEvaluation
  | SelfEvaluation => if shouldRefine s then Goto QueryRefinement else End
  end.

Definition node_fn (n : Node) : RAGState -> M (list Update) :=
  match n with
  | QueryRefinement => queryRefinementNode
  | DocumentRetrieval => documentRetrievalNode
  | AnswerGeneration => answerGenerationNode
  | SelfEvaluation => selfEvaluationNode
  end.

Definition exec_node (n : Node) (s : RAGState) : M RAGState :=
  us <- node_fn n s ;; ret (apply_updates s us).

(** LangGraph's default recursion limit. *)
Definition recursion_limit : nat := 25.

Definition recursion_error : thrown :=
  JSError "Recursion limit of 25 reached without hitting a stop condition.".

(** [workflow.invoke]: one node per super-step, failing with a recursion
    error when the step budget runs out. *)
Fixpoint run (limit : nat) (n : Node) (s : RAGState) : M RAGState :=
  match limit with
  | O => throw recursion_error
  | S l =>
      s' <- exec_node n s ;;
      match next_of n s' with
      | Goto n' => run l n' s'
      | End => ret s'
      end
  end.

Definition invoke (s : RAGState) : M RAGState := run recursion_limit QueryRefinement s.

End Nodes.

Definition createInitialState (query : string) (role : Role) (md : string)
    (subj : option string) (grade : option Z) : RAGState :=
  {| originalQuery := query; refinedQuery := None; userRole := role; mode := md;
     subject := subj; gradeLevel := grade; retrievedDocuments := [];
     relevanceScores := None; generatedAnswer := None; confidence := None;
     sources := None; needsRefinement := false; refinementAttempts := 0;
     evaluationScore := None; feedback := None; messages := [HumanMessage query];
     tokenUsage := 0; error := None |}.

(** The record returned by [executeRAGWorkflow]. *)
Record WorkflowResult := mkWorkflowResult {
  wr_success : bool;
  wr_error : option string;
  wr_answer : option string;
  wr_confidence : option Q;
  wr_sources : option (list string);
  wr_documents : option (list Doc);
  wr_refinementAttempts : option nat;
  wr_evaluationScore : option Q;
  wr_tokenUsage : option nat
}.

Definition workflow_apology : string :=
  "I apologize, but I encountered an error processing your request. Please try again.".

Definition executeRAGWorkflow (env : Env) (query : string) (role : Role) (md : string)
    (subj : option string) (grade : option Z) : M WorkflowResult :=
  try_catch
    (let initialState := createInitialState query role md subj grade in
     _ <- env_build env ;;
     result <- invoke env initialState ;;
     _ <- logAnalytics env LogComplete (refinementAttempts result) ;;
     ret {| wr_success := negb (truthy_str (error result));
            wr_error := None;
            wr_answer := generatedAnswer result;
            wr_confidence := confidence result;
            wr_sources := sources result;
            wr_documents := Some (retrievedDocuments result);
            wr_refinementAttempts := Some (refinementAttempts result);
            wr_evaluationScore := evaluationScore result;
            wr_tokenUsage := Some (tokenUsage result) |})
    (fun e =>
       _ <- logAnalytics env LogError 0 ;;
       ret {| wr_success := false;
              wr_error := Some (message e);
              wr_answer := Some workflow_apology;
              wr_confidence := None; wr_sources := None; wr_documents := None;
              wr_refinementAttempts := None; wr_evaluationScore := None;
              wr_tokenUsage := None |}).

End RAGWorkflow.

(* ------------------------------------------------------------------------ *)
(** * vector-store.ts *)

Module VectorStore.

Local Open Scope R_scope.

(** The loop of [cosineSimilarity]: [dotProduct += a[i]*b[i]],
    [normA += a[i]*a[i]], [normB += b[i]*b[i]]. *)
Fixpoint cos_loop (a b : list R) (dotProduct normA normB : R) : R * R * R :=
  match a, b with
  | x :: a', y :: b' =>
      cos_loop a' b' (dotProduct + x * y) (normA + x * x) (normB + y * y)
  | _, _ => (dotProduct, normA, normB)
  end.

Definition length_error : thrown := JSError "Vectors must have same length".

Definition cosineSimilarity (vecA vecB : list R) : M R :=
  if negb (Nat.eqb (length vecA) (length vecB)) then throw length_error
  else
    let '(dotProduct, normA2, normB2) := cos_loop vecA vecB 0 0 0 in
    let normA := sqrt normA2 in
    let normB := sqrt normB2 in
    if Req_dec_T normA 0 then ret 0
    else if Req_dec_T normB 0 then ret 0
    else ret (dotProduct / (normA * normB)).

(** A value of the nullable Prisma [Json] column [metadata] as the client
    returns it ([null] for a missing value); an object is its own
    properties in order. *)
#[warnings="-register-all"]
Inductive Json :=
| JsonNull
| JsonBool (b : bool)
| JsonNumber (r : R)
| JsonString (s : string)
| JsonArray (l : list Json)
| JsonObject (props : list (string * Json)).

(** The decimal form of an array index, the key under which a spread
    copies an element. *)
Fixpoint uint_digits (d : Decimal.uint) : string :=
  match d with
  | Decimal.Nil => EmptyString
  | Decimal.D0 d' => String "0" (uint_digits d')
  | Decimal.D1 d' => String "1" (uint_digits d')
  | Decimal.D2 d' => String "2" (uint_digits d')
  | Decimal.D3 d' => String "3" (uint_digits d')
  | Decimal.D4 d' => String "4" (uint_digits d')
  | Decimal.D5 d' => String "5" (uint_digits d')
  | Decimal.D6 d' => String "6" (uint_digits d')
  | Decimal.D7 d' => String "7" (uint_digits d')
  | Decimal.D8 d' => String "8" (uint_digits d')
  | Decimal.D9 d' => String "9" (uint_digits d')
  end.

Definition index_key (n : nat) : string := uint_digits (Nat.to_uint n).

(** The own enumerable properties that a spread [...v] copies into an
    object literal: the indices of a string or an array, the properties of
    an object, nothing for [null], a boolean or a number. *)
Definition spread_props (v : Json) : list (string * Json) :=
  match v with
  | JsonString s =>
      map (fun '(i, ch) => (index_key i, JsonString (String ch EmptyString)))
          (combine (seq 0 (String.length s)) (list_ascii_of_string s))
  | JsonArray l => combine (map index_key (seq 0 (length l))) l
  | JsonObject props => props
  | _ => []
  end.

(** A property definition in an object literal: a key already present keeps
    its place and takes the new value, a new key is added last. *)
Fixpoint define_prop (k : string) (v : Json) (o : list (string * Json)) : list (string * Json) :=
  match o with
  | [] => [(k, v)]
  | (k', v') :: o' => if String.eqb k' k then (k', v) :: o' else (k', v') :: define_prop k v o'
  end.

(** Chunks of the store, with the document fields the query selects. *)
Record DocumentMeta := mkDocumentMeta {
  dm_id : string;
  dm_title : string;
  dm_subject : option string;
  dm_gradeLevel : option Z;
  dm_fileUrl : string;
  dm_isPublic : bool
}.

Record Chunk := mkChunk {
  ch_id : string;
  ch_content : string;
  ch_embedding : option (list R);   (* [JSON.parse(chunk.embedding)] *)
  ch_document : DocumentMeta;
  ch_chunkIndex : nat;
  ch_metadata : Json
}.

(** The properties the [metadata] literal of a result writes before the
    spread: the document fields and the chunk index. *)
Definition base_metadata (c : Chunk) : list (string * Json) :=
  let d := ch_document c in
  [("documentId"%string, JsonString (dm_id d));
   ("documentTitle"%string, JsonString (dm_title d));
   ("subject"%string, match dm_subject d with Some s => JsonString s | None => JsonNull end);
   ("gradeLevel"%string, match dm_gradeLevel d with Some g => JsonNumber (IZR g) | None => JsonNull end);
   ("fileUrl"%string, JsonString (dm_fileUrl d));
   ("chunkIndex"%string, JsonNumber (INR (ch_chunkIndex c)))].

(** The [metadata] object of a result: [base_metadata], then
    [...chunk.metadata]. *)
Definition chunk_metadata (c : Chunk) : list (string * Json) :=
  fold_left (fun o kv => define_prop (fst kv) (snd kv) o) (spread_props (ch_metadata c))
    (base_metadata c).

(** Reading a property of an object. *)
Fixpoint prop_get (k : string) (o : list (string * Json)) : option Json :=
  match o with
  | [] => None
  | (k', v) :: o' => if String.eqb k' k then Some v else prop_get k o'
  end.

(** The value a list of property definitions leaves under [k]: the last one. *)
Fixpoint last_prop (k : string) (l : list (string * Json)) : option Json :=
  match l with
  | [] => None
  | (k', v) :: l' =>
      match last_prop k l' with
      | Some v' => Some v'
      | None => if String.eqb k' k then Some v else None
      end
  end.

Record Scored := mkScored {
  sc_id : string;
  sc_content : string;
  sc_score : R;
  sc_metadata : list (string * Json)
}.

(** The Prisma [whereClause]: [if (subject)], [if (gradeLevel)] and the
    student restriction to public documents. *)
Definition where_matches (subj : option string) (grade : option Z)
    (role : RAGWorkflow.Role) (c : Chunk) : bool :=
  let d := ch_document c in
  (if truthy_str subj then
     match subj, dm_subject d with
     | Some s, Some s' => String.eqb s' s
     | _, _ => false
     end
   else true) &&
  (match grade with
   | Some g => if Z.eqb g 0 then true
               else match dm_gradeLevel d with Some g' => Z.eqb g' g | None => false end
   | None => true
   end) &&
  (match role with RAGWorkflow.Student => dm_isPublic d | RAGWorkflow.Teacher => true end).

(** [findMany({ where, take: 100 })] in store order. *)
Definition findMany_chunks (subj : option string) (grade : option Z)
    (role : RAGWorkflow.Role) (store : list Chunk) : list Chunk :=
  firstn 100 (filter (where_matches subj grade role) store).

Definition score_chunk (queryEmbedding : list R) (c : Chunk) : M (option Scored) :=
  match ch_embedding c with
  | None => ret None
  | Some e =>
      score <- cosineSimilarity queryEmbedding e ;;
      ret (Some {| sc_id := ch_id c; sc_content := ch_content c; sc_score := score;
                   sc_metadata := chunk_metadata c |})
  end.

(** [Array.prototype.map] with a callback that may throw. *)
Fixpoint mapM {A B} (f : A -> M B) (l : list A) : M (list B) :=
  match l with
  | [] => ret []
  | x :: l' => y <- f x ;; ys <- mapM f l' ;; ret (y :: ys)
  end.

Fixpoint filter_some {A} (l : list (option A)) : list A :=
  match l with
  | [] => []
  | Some x :: l' => x :: filter_some l'
  | None :: l' => filter_some l'
  end.

(** [.sort((a, b) => b.score - a.score)]: a stable sort by descending score. *)
Fixpoint insert_desc (x : Scored) (l : list Scored) : list Scored :=
  match l with
  | [] => [x]
  | y :: l' => if Rlt_dec (sc_score y) (sc_score x) then x :: l else y :: insert_desc x l'
  end.

Definition sort_desc (l : list Scored) : list Scored :=
  fold_left (fun acc x => insert_desc x acc) l [].

(** [retrieveDocuments]; [generateEmbedding(query)] is the oracle
    [queryEmbedding], [findMany] the outcome of the Prisma query (a failure,
    or the rows [findMany_chunks] selects from [store]). *)
Definition retrieveDocuments (queryEmbedding : M (list R)) (findMany : M unit)
    (store : list Chunk) (subj : option string) (grade : option Z)
    (role : RAGWorkflow.Role) (topK : nat) : M (list Scored) :=
  try_catch
    (q <- queryEmbedding ;;
     _ <- findMany ;;
     let chunks := findMany_chunks subj grade role store in
     scored <- mapM (score_chunk q) chunks ;;
     ret (firstn topK (sort_desc (filter_some scored))))
    (fun e => throw e).

End VectorStore.

(** [cosineSimilarity] on IEEE doubles. *)
Module VectorStoreFloat.

Import Floats.PrimFloat.

Local Open Scope float_scope.

Fixpoint cos_loop (a b : list float) (dotProduct normA normB : float) : float * float * float :=
  match a, b with
  | x :: a', y :: b' =>
      cos_loop a' b' (dotProduct + x * y) (normA + x * x) (normB + y * y)
  | _, _ => (dotProduct, normA, normB)
  end.

Definition cosineSimilarity (vecA vecB : list float) : M float :=
  if negb (Nat.eqb (length vecA) (length vecB)) then throw VectorStore.length_error
  else
    let '(dotProduct, normA2, normB2) := cos_loop vecA vecB 0 0 0 in
    let normA := PrimFloat.sqrt normA2 in
    let normB := PrimFloat.sqrt normB2 in
    if PrimFloat.eqb normA 0 || PrimFloat.eqb normB 0 then ret 0
    else ret (dotProduct / (normA * normB)).

End VectorStoreFloat.

(* ------------------------------------------------------------------------ *)
(** * Character-level helpers for the string code (ASCII model of JS strings) *)

Module Str.

(** [\s] restricted to ASCII: tab, LF, VT, FF, CR and space. *)
Definition is_ws (c : ascii) : bool :=
  let n := nat_of_ascii c in (n =? 32) || ((9 <=? n) && (n <=? 13)).

Fixpoint drop_ws (l : list ascii) : list ascii :=
  match l with
  | c :: l' => if is_ws c then drop_ws l' else l
  | [] => []
  end.

(** [String.prototype.trim] *)
Definition trim (s : string) : string :=
  string_of_list_ascii (rev (drop_ws (rev (drop_ws (list_ascii_of_string s))))).

(** [arr.join(sep)] *)
Fixpoint join (sep : string) (l : list string) : string :=
  match l with
  | [] => ""
  | [x] => x
  | x :: l' => String.append x (String.append sep (join sep l'))
  end.

(** [arr.slice(start, end)] for [0 <= start]. *)
Definition slice {A} (l : list A) (start stop : nat) : list A :=
  firstn (stop - start) (skipn start l).

(** [s.split(/\s+/)]: fields between maximal whitespace runs, with the empty
    leading or trailing field JS produces. *)
Fixpoint split_ws_aux (l : list ascii) (cur : list ascii) (in_ws : bool) : list (list ascii) :=
  match l with
  | [] => [cur]
  | c :: l' =>
      if is_ws c then
        if in_ws then split_ws_aux l' cur true else cur :: split_ws_aux l' [] true
      else split_ws_aux l' (cur ++ [c]) false
  end.

Definition split_ws (s : string) : list string :=
  map string_of_list_ascii (split_ws_aux (list_ascii_of_string s) [] false).

Definition lower_char (c : ascii) : ascii :=
  let n := nat_of_ascii c in
  if (65 <=? n) && (n <=? 90) then ascii_of_nat (n + 32) else c.

(** [s.toLowerCase()] on ASCII. *)
Definition toLowerCase (s : string) : string :=
  string_of_list_ascii (map lower_char (list_ascii_of_string s)).

(** [hay.includes(needle)] *)
Fixpoint includes (needle hay : string) : bool :=
  String.prefix needle hay ||
  match hay with
  | EmptyString => false
  | String _ hay' => includes needle hay'
  end.

End Str.

(* ------------------------------------------------------------------------ *)
(** * document-processing.ts: [chunkDocument] *)

Module DocumentProcessing.

Definition is_term (c : ascii) : bool :=
  Ascii.eqb c "." || Ascii.eqb c "!" || Ascii.eqb c "?".

(** The matches of [text.match(/[^.!?]+[.!?]+/g)]: each match is a maximal
    run of non-terminators followed by a maximal run of terminators;
    terminators with no text before them and trailing text with no
    terminator match nothing. *)
Fixpoint scan (l : list ascii) (cur : list ascii) (in_term : bool) : list (list ascii) :=
  match l with
  | [] => if in_term then [cur] else []
  | c :: l' =>
      if is_term c then
        match cur with
        | [] => scan l' [] false
        | _ => scan l' (cur ++ [c]) true
        end
      else if in_term then cur :: scan l' [c] false
      else scan l' (cur ++ [c]) false
  end.

Definition sentence_matches (text : string) : list string :=
  map string_of_list_ascii (scan (list_ascii_of_string text) [] false).

Record ChunkOut := mkChunkOut {
  co_content : string;
  co_documentTitle : string;
  co_chunkIndex : nat;
  co_sentenceStart : nat;
  co_sentenceEnd : nat
}.

Definition nonempty (s : string) : bool := negb (String.eqb s "").

(** The [for] loop of [chunkDocument]; [i] is the loop index and [rest] the
    sentences from index [i] on. *)
Fixpoint chunk_loop (sentences : list string) (chunkSize : nat) (documentTitle : string)
    (i : nat) (rest : list string) (currentChunk : string) (chunkIndex : nat)
    (chunks : list ChunkOut) : list ChunkOut * string * nat :=
  match rest with
  | [] => (chunks, currentChunk, chunkIndex)
  | raw :: rest' =>
      let sentence := Str.trim raw in
      if String.length (String.append currentChunk (String.append " " sentence)) <=? chunkSize then
        chunk_loop sentences chunkSize documentTitle (S i) rest'
          (String.append currentChunk
             (String.append (if nonempty currentChunk then " " else "") sentence))
          chunkIndex chunks
      else
        let '(chunks', chunkIndex') :=
          if nonempty currentChunk then
            (chunks ++ [{| co_content := currentChunk; co_documentTitle := documentTitle;
                           co_chunkIndex := chunkIndex; co_sentenceStart := i - 5;
                           co_sentenceEnd := i |}], S chunkIndex)
          else (chunks, chunkIndex) in
        let overlapSentences := Str.slice sentences (i - 2) i in
        chunk_loop sentences chunkSize documentTitle (S i) rest'
          (String.append (Str.join " " overlapSentences) (String.append " " sentence))
          chunkIndex' chunks'
  end.

(** [chunkDocument(text, { chunkSize, chunkOverlap, documentTitle })];
    like the source, it never reads [chunkOverlap]. *)
Definition chunkDocument (text : string) (chunkSize chunkOverlap : nat)
    (documentTitle : string) : list ChunkOut :=
  let sentences := match sentence_matches text with [] => [text] | l => l end in
  let '(chunks, currentChunk, chunkIndex) :=
    chunk_loop sentences chunkSize documentTitle 0 sentences "" 0 [] in
  if nonempty currentChunk then
    chunks ++ [{| co_content := currentChunk; co_documentTitle := documentTitle;
                  co_chunkIndex := chunkIndex;
                  co_sentenceStart := length sentences - 5;
                  co_sentenceEnd := length sentences |}]
  else chunks.

End DocumentProcessing.

(* ------------------------------------------------------------------------ *)
(** * answer-generation.ts: [generateAnswer] *)

Module AnswerGeneration.
Import RAGWorkflow.

Definition sum_scores (docs : list Doc) : Q :=
  fold_left (fun acc d => acc + doc_score d)%Q docs 0%Q.

(** [retrievedDocuments.length || 1] *)
Definition len_or_1 {A} (l : list A) : Q :=
  inject_Z (Z.of_nat (match length l with O => 1 | n => n end)).

Definition avgRelevance (docs : list Doc) : Q := (sum_scores docs / len_or_1 docs)%Q.

(** [Math.min(avgRelevance * 1.2, 1.0)] *)
Definition confidence_of (docs : list Doc) : Q := Qmin (avgRelevance docs * (6 # 5)) 1.

Definition dedup_first (l : list string) : list string :=
  fold_left (fun acc x => if existsb (String.eqb x) acc then acc else acc ++ [x]) l [].

Definition sources_of (docs : list Doc) : list string :=
  firstn 5 (dedup_first
    (map (fun d => or_str (doc_title d) "Unknown")
       (filter (fun d => Qltb (1 # 2) (doc_score d)) docs))).

(** [Math.ceil(text.length / 4)] *)
Definition estimateTokens (text : string) : nat := (String.length text + 3) / 4.

(** [generateAnswer]; the LLM chain is the oracle [llm]. *)
Definition generateAnswer (llm : M string) (docs : list Doc) : M GenResult :=
  try_catch
    (answer <- llm ;;
     ret {| gr_answer := Str.trim answer;
            gr_confidence := confidence_of docs;
            gr_sources := sources_of docs;
            gr_tokenUsage := estimateTokens answer |})
    (fun e => throw (JSError (String.append "Answer generation failed: " (message e)))).

End AnswerGeneration.

(* ------------------------------------------------------------------------ *)
(** * self-evaluation.ts *)

Module SelfEvaluation.
Import RAGWorkflow.

Record EvalResult := mkEvalResult {
  er_score : Q;
  er_feedback : string;
  er_strengths : list string;
  er_improvements : list string
}.

(** [Math.max(0, Math.min(1, x))] *)
Definition clamp01 (x : Q) : Q := Qmax 0 (Qmin 1 x).

Definition Qnat (n : nat) : Q := inject_Z (Z.of_nat n).

Definition answerLength (generatedAnswer : string) : nat :=
  length (Str.split_ws generatedAnswer).

Definition queryKeywords (query : string) : list string :=
  filter (fun w => 3 <? String.length w) (Str.split_ws (Str.toLowerCase query)).

Definition keywordCoverage (query generatedAnswer : string) : Q :=
  let kws := queryKeywords query in
  let answerLower := Str.toLowerCase generatedAnswer in
  let addressed := length (filter (fun kw => Str.includes kw answerLower) kws) in
  (Qnat addressed / Qnat (match length kws with O => 1 | n => n end))%Q.

(** [heuristicEvaluation], step by step. *)
Definition heuristicEvaluation (query generatedAnswer : string) (docs : list Doc)
    (confidence : Q) : EvalResult :=
  let score0 := (1 # 2)%Q in
  let n := answerLength generatedAnswer in
  let '(score1, st1, im1) :=
    if (30 <? n) && (n <? 500) then
      (score0 + (1 # 10), ["Answer has appropriate length"%string], [])%Q
    else if n <? 30 then (score0 - (1 # 10), [], ["Answer may be too brief"%string])%Q
    else (score0, [], ["Answer may be too verbose"%string]) in
  let '(score2, st2, im2) :=
    if Qltb (3 # 5) (keywordCoverage query generatedAnswer) then
      (score1 + (15 # 100), st1 ++ ["Answer addresses key concepts from the question"%string], im1)%Q
    else
      (score1 - (1 # 10), st1,
       im1 ++ ["Answer may not fully address all aspects of the question"%string])%Q in
  let '(score3, st3, im3) :=
    match docs with
    | _ :: _ =>
        let avg := (AnswerGeneration.sum_scores docs / Qnat (length docs))%Q in
        if Qltb (7 # 10) avg then
          (score2 + (15 # 100), st2 ++ ["High-quality relevant documents were used"%string], im2)%Q
        else if Qltb avg (2 # 5) then
          (score2 - (15 # 100), st2, im2 ++ ["Retrieved documents may not be highly relevant"%string])%Q
        else (score2, st2, im2)
    | [] => (score2 - (1 # 5), st2, im2 ++ ["No context documents were used"%string])%Q
    end in
  let score4 := (score3 * (7 # 10) + confidence * (3 # 10))%Q in
  let score := clamp01 score4 in
  let fb :=
    if Qltb (7 # 10) score then "Answer appears to be of good quality"%string
    else if Qltb (1 # 2) score then "Answer is acceptable but could be improved"%string
    else "Answer may need significant improvement"%string in
  {| er_score := score; er_feedback := fb; er_strengths := st3; er_improvements := im3 |}.

(** [evaluationResult.match(/\{[\s\S]*\}/)]: from the first [{] to the last
    [}] after it. *)
Fixpoint last_close (l : list ascii) (seen : list ascii) (best : option (list ascii))
    : option (list ascii) :=
  match l with
  | [] => best
  | c :: l' =>
      let seen' := seen ++ [c] in
      last_close l' seen' (if Ascii.eqb c "}" then Some seen' else best)
  end.

Fixpoint json_match_aux (l : list ascii) : option (list ascii) :=
  match l with
  | [] => None
  | c :: l' => if Ascii.eqb c "{" then last_close l' [c] None else json_match_aux l'
  end.

Definition json_match (s : string) : option string :=
  option_map string_of_list_ascii (json_match_aux (list_ascii_of_string s)).

End SelfEvaluation.

(* ------------------------------------------------------------------------ *)
(** * query-refinement.ts: [refineQuery] and [storeRefinementAttempt] *)

Module QueryRefinement.

Record RefinementRecord := mkRefinementRecord {
  rr_id : nat;
  rr_originalQuery : string;
  rr_refinedQuery : string;
  rr_mode : string;
  rr_subject : option string;
  rr_improvementScore : option Q;
  rr_usageCount : nat;
  rr_lastUsed : nat
}.

(** The [aIQueryRefinement] table, in row order. *)
Definition Store := list RefinementRecord.

Record RefineEnv := mkRefineEnv {
  re_findMany : M unit;   (* historical lookup (its rows only feed the prompt) *)
  re_llm : M string;      (* the rewrite chain *)
  re_db_write : M unit;   (* findFirst + update/create succeed or throw *)
  re_now : nat            (* new Date() *)
}.

(** [{ equals: x, mode: "insensitive" }] *)
Definition insensitive_eq (a b : string) : bool :=
  String.eqb (Str.toLowerCase a) (Str.toLowerCase b).

(** The [findFirst] filter; a [subject] of [undefined] is no filter. *)
Definition matches_key (originalQuery refinedQuery mode : string) (subject : option string)
    (r : RefinementRecord) : bool :=
  insensitive_eq (rr_originalQuery r) originalQuery &&
  insensitive_eq (rr_refinedQuery r) refinedQuery &&
  String.eqb (rr_mode r) mode &&
  match subject with
  | None => true
  | Some s => match rr_subject r with Some s' => String.eqb s' s | None => false end
  end.

Definition next_id (st : Store) : nat := S (fold_left (fun m r => Nat.max m (rr_id r)) st 0%nat).

Definition bump (id now : nat) (r : RefinementRecord) : RefinementRecord :=
  if rr_id r =? id then
    {| rr_id := rr_id r; rr_originalQuery := rr_originalQuery r;
       rr_refinedQuery := rr_refinedQuery r; rr_mode := rr_mode r;
       rr_subject := rr_subject r; rr_improvementScore := rr_improvementScore r;
       rr_usageCount := S (rr_usageCount r); rr_lastUsed := now |}
  else r.

(** The insert-or-increment performed when the store calls succeed. *)
Definition upsert (now : nat) (st : Store) (originalQuery refinedQuery mode : string)
    (subject : option string) : Store :=
  match find (matches_key originalQuery refinedQuery mode subject) st with
  | Some existing => map (bump (rr_id existing) now) st
  | None =>
      st ++ [{| rr_id := next_id st; rr_originalQuery := originalQuery;
                rr_refinedQuery := refinedQuery; rr_mode := mode; rr_subject := subject;
                rr_improvementScore := None; rr_usageCount := 1; rr_lastUsed := now |}]
  end.

Definition storeRefinementAttempt (env : RefineEnv) (st : Store)
    (originalQuery refinedQuery mode : string) (subject : option string) : M Store :=
  try_catch
    (_ <- re_db_write env ;; ret (upsert (re_now env) st originalQuery refinedQuery mode subject))
    (fun _ => ret st).

Definition refineQuery (env : RefineEnv) (st : Store) (originalQuery mode : string)
    (subject : option string) (attemptNumber : nat) : M (string * Store) :=
  try_catch
    (if attemptNumber =? 0 then ret (originalQuery, st)
     else
       _ <- re_findMany env ;;
       result <- re_llm env ;;
       let refinedQuery := Str.trim result in
       st' <- storeRefinementAttempt env st originalQuery refinedQuery mode subject ;;
       ret (refinedQuery, st'))
    (fun _ => ret (originalQuery, st)).

End QueryRefinement.

(* ------------------------------------------------------------------------ *)
(** * Definitions used to state the properties, and concrete inputs *)

Module Statements.
Import RAGWorkflow.

(** Euclidean quantities on reals. *)
Fixpoint sumsq (v : list R) : R :=
  match v with [] => 0%R | x :: v' => (x * x + sumsq v')%R end.

Fixpoint dotp (a b : list R) : R :=
  match a, b with
  | x :: a', y :: b' => (x * y + dotp a' b')%R
  | _, _ => 0%R
  end.

Definition norm (v : list R) : R := sqrt (sumsq v).

(** The fallback score in closed form: the four adjustments, with the
    code's bounds. *)
Definition len_adj (n : nat) : Q :=
  if (30 <? n) && (n <? 500) then (1 # 10)%Q else if n <? 30 then (- (1 # 10))%Q else 0%Q.

Definition kw_adj (coverage : Q) : Q :=
  if Qltb (3 # 5) coverage then (15 # 100)%Q else (- (1 # 10))%Q.

Definition doc_adj (docs : list Doc) : Q :=
  match docs with
  | [] => (- (1 # 5))%Q
  | _ =>
      let avg := (AnswerGeneration.sum_scores docs / SelfEvaluation.Qnat (length docs))%Q in
      if Qltb (7 # 10) avg then (15 # 100)%Q
      else if Qltb avg (2 # 5) then (- (15 # 100))%Q else 0%Q
  end.

Definition fallback_score (query answer : string) (docs : list Doc) (conf : Q) : Q :=
  SelfEvaluation.clamp01
    (((1 # 2) + len_adj (SelfEvaluation.answerLength answer)
      + kw_adj (SelfEvaluation.keywordCoverage query answer) + doc_adj docs) * (7 # 10)
     + conf * (3 # 10))%Q.

(** The same with the bounds as worded in the claim: [30,500] and >= 60%. *)
Definition claimed_len_adj (n : nat) : Q :=
  if (30 <=? n) && (n <=? 500) then (1 # 10)%Q else (- (1 # 10))%Q.

Definition claimed_kw_adj (coverage : Q) : Q :=
  if Qle_bool (3 # 5) coverage then (15 # 100)%Q else (- (1 # 10))%Q.

Definition claimed_fallback_score (query answer : string) (docs : list Doc) (conf : Q) : Q :=
  SelfEvaluation.clamp01
    (((1 # 2) + claimed_len_adj (SelfEvaluation.answerLength answer)
      + claimed_kw_adj (SelfEvaluation.keywordCoverage query answer) + doc_adj docs) * (7 # 10)
     + conf * (3 # 10))%Q.

(** Oracles: retrieval finds nothing, the LLM answer is blank (trimmed to
    [""]), every other call succeeds. *)
Definition env_blank_answer : Env :=
  {| env_refine := fun _ => ret "refined query"%string;
     env_retrieve := fun _ _ => ret [];
     env_generate := fun _ => ret (mkGenResult "" 0 [] 0);
     env_evaluate := fun _ => ret (mkEvaluation 0 "");
     env_log := fun _ _ => ret tt;
     env_build := ret tt |}.

(** Oracles: the vector store is down, generation and evaluation succeed. *)
Definition env_retrieval_down : Env :=
  {| env_refine := fun _ => ret "refined query"%string;
     env_retrieve := fun _ _ => throw (JSError "connection refused");
     env_generate := fun _ => ret (mkGenResult "Paris is the capital of France." (0 # 1) [] 8);
     env_evaluate := fun _ => ret (mkEvaluation (9 # 10) "good");
     env_log := fun _ _ => ret tt;
     env_build := ret tt |}.

(** The state reached after the first Refine, Retrieve and Generate steps. *)
Definition after_first_generation (env : Env) (s0 : RAGState) : M RAGState :=
  s1 <- exec_node env QueryRefinement s0 ;;
  s2 <- exec_node env DocumentRetrieval s1 ;;
  exec_node env AnswerGeneration s2.

Definition initial_q : RAGState := createInitialState "2+2=4, true or false?" Student "math_solver" None None.

(** A 400-character sentence. *)
Definition sentence400 (c : ascii) : string :=
  String.append (string_of_list_ascii (repeat c 399)) ".".

(** Three 400-character sentences, as cleaned by [cleanText]. *)
Definition three_sentences : string :=
  Str.join " " [sentence400 "A"; sentence400 "B"; sentence400 "C"].

(** [n] copies of "word" separated by single spaces. *)
Definition words (n : nat) : string := Str.join " " (repeat "word"%string n).

Definition refine_env_llm_down : QueryRefinement.RefineEnv :=
  {| QueryRefinement.re_findMany := ret tt;
     QueryRefinement.re_llm := throw (JSError "rate limited");
     QueryRefinement.re_db_write := ret tt;
     QueryRefinement.re_now := 0 |}.

(** A store with 100 public chunks pointing away from the query and a
    101st chunk pointing at it. *)
Definition meta_pub : VectorStore.DocumentMeta :=
  {| VectorStore.dm_id := "d"; VectorStore.dm_title := "Algebra";
     VectorStore.dm_subject := Some "math"%string; VectorStore.dm_gradeLevel := Some 7%Z;
     VectorStore.dm_fileUrl := "/algebra.pdf"; VectorStore.dm_isPublic := true |}.

Definition low_chunk (n : nat) : VectorStore.Chunk :=
  {| VectorStore.ch_id := "low"; VectorStore.ch_content := "";
     VectorStore.ch_embedding := Some [(-1)%R]; VectorStore.ch_document := meta_pub;
     VectorStore.ch_chunkIndex := n; VectorStore.ch_metadata := VectorStore.JsonNull |}.

Definition high_chunk : VectorStore.Chunk :=
  {| VectorStore.ch_id := "high"; VectorStore.ch_content := "";
     VectorStore.ch_embedding := Some [1%R]; VectorStore.ch_document := meta_pub;
     VectorStore.ch_chunkIndex := 100; VectorStore.ch_metadata := VectorStore.JsonNull |}.

Definition store_101 : list VectorStore.Chunk := map low_chunk (seq 0 100) ++ [high_chunk].

(** A store of two chunks of that document: one pointing at the query whose
    stored metadata renames the document and adds a page number, and one
    without an embedding whose text mentions algebra. *)
Definition tagged_chunk : VectorStore.Chunk :=
  {| VectorStore.ch_id := "tagged"; VectorStore.ch_content := "Linear equations";
     VectorStore.ch_embedding := Some [1%R]; VectorStore.ch_document := meta_pub;
     VectorStore.ch_chunkIndex := 0;
     VectorStore.ch_metadata := VectorStore.JsonObject
       [("documentTitle"%string, VectorStore.JsonString "Algebra I");
        ("page"%string, VectorStore.JsonNumber 3%R)] |}.

Definition text_chunk : VectorStore.Chunk :=
  {| VectorStore.ch_id := "text"; VectorStore.ch_content := "Algebra basics";
     VectorStore.ch_embedding := None; VectorStore.ch_document := meta_pub;
     VectorStore.ch_chunkIndex := 1; VectorStore.ch_metadata := VectorStore.JsonNull |}.

Definition store_2 : list VectorStore.Chunk := [tagged_chunk; text_chunk].

Definition tagged_scored : VectorStore.Scored :=
  VectorStore.mkScored "tagged" "Linear equations" 1%R (VectorStore.chunk_metadata tagged_chunk).

(** The order of the result list: scores never increase. *)
Definition score_ge (x y : VectorStore.Scored) : Prop :=
  (VectorStore.sc_score y <= VectorStore.sc_score x)%R.

End Statements.

(* ------------------------------------------------------------------------ *)
(** * The document tables, with database writes threaded through throws *)

Module DocumentDB.

(** A row of [aIDocument] (the fields the code reads or writes; [fileUrl],
    [fileType], [uploadedByRole], [subjectId] and the JSON [metadata] are
    stored as given and not modelled). *)
Record AIDocument := mkAIDocument {
  ad_id : string;
  ad_title : string;
  ad_description : option string;
  ad_subject : option string;
  ad_gradeLevel : option Z;
  ad_classId : option Z;
  ad_uploadedBy : string;
  ad_isPublic : bool;
  ad_createdAt : nat
}.

(** A row of [aIDocumentChunk]; the embedding is stored with
    [JSON.stringify] and read back with [JSON.parse], which is lossless on
    arrays of numbers, so the row holds the vector itself.  The chunk's own
    [metadata] object is stored as given and not modelled. *)
Record ChunkRow := mkChunkRow {
  cr_documentId : string;
  cr_content : string;
  cr_embedding : list R;
  cr_chunkIndex : nat
}.

Record DB := mkDB {
  db_documents : list AIDocument;
  db_chunks : list ChunkRow
}.

(** An async function touching the database: a write that succeeded stays
    written when a later step throws (no transaction is used). *)
Definition DBM (A : Type) : Type := DB -> M A * DB.

Definition dret {A} (a : A) : DBM A := fun db => (ret a, db).
Definition dthrow {A} (e : thrown) : DBM A := fun db => (throw e, db).
Definition dbind {A B} (m : DBM A) (k : A -> DBM B) : DBM B :=
  fun db => match m db with
            | (inl e, db') => (inl e, db')
            | (inr a, db') => k a db'
            end.
Definition dtry {A} (m : DBM A) (h : thrown -> DBM A) : DBM A :=
  fun db => match m db with
            | (inl e, db') => h e db'
            | (inr a, db') => (inr a, db')
            end.
(** A step with no database effect (an API call, or a database call whose
    only observable outcome is success or a throw). *)
Definition lift {A} (m : M A) : DBM A := fun db => (m, db).
Definition get : DBM DB := fun db => (ret db, db).
Definition put (db : DB) : DBM unit := fun _ => (ret tt, db).

Notation "x <-- m ;;; k" := (dbind m (fun x => k))
  (at level 61, m at next level, right associativity).

End DocumentDB.

(* ------------------------------------------------------------------------ *)
(** * vector-store.ts: [storeDocumentChunks] and [hybridSearch] *)

Module VectorStoreExtra.
Import VectorStore DocumentDB.

Local Open Scope R_scope.

(** The callback of [chunks.map(async (chunk) => ...)]. *)
Definition embed_chunk (embed : string -> M (list R)) (documentId : string)
    (chunk : DocumentProcessing.ChunkOut) : M ChunkRow :=
  embedding <- embed (DocumentProcessing.co_content chunk) ;;
  ret {| cr_documentId := documentId;
         cr_content := DocumentProcessing.co_content chunk;
         cr_embedding := embedding;
         cr_chunkIndex := DocumentProcessing.co_chunkIndex chunk |}.

Record StoreResult := mkStoreResult {
  sr_success : bool;
  sr_chunksStored : nat
}.

(** [storeDocumentChunks]: [embed] is [generateEmbedding] (which rethrows),
    [createMany] the outcome of the single [createMany] insert.  [Promise.all]
    rejects when any embedding call rejects; the model reports the first
    failing chunk's error. *)
Definition storeDocumentChunks (embed : string -> M (list R)) (createMany : M unit)
    (documentId : string) (chunks : list DocumentProcessing.ChunkOut) : DBM StoreResult :=
  dtry
    (chunksWithEmbeddings <-- lift (mapM (embed_chunk embed documentId) chunks) ;;;
     _ <-- lift createMany ;;;
     db <-- get ;;;
     _ <-- put {| db_documents := db_documents db;
                  db_chunks := db_chunks db ++ chunksWithEmbeddings |} ;;;
     dret {| sr_success := true; sr_chunksStored := length chunks |})
    (fun e => dthrow e).

(** An entry of the [combinedResults] map: a vector result (its fields, with
    the score replaced) or a keyword hit built from a chunk row. *)
Inductive HitSource := FromVector (s : Scored) | FromKeyword (c : Chunk).

Record Hit := mkHit {
  hit_id : string;
  hit_score : R;
  hit_source : HitSource
}.

(** [s.split(" ")] *)
Fixpoint split_space_aux (l : list ascii) (cur : list ascii) : list (list ascii) :=
  match l with
  | [] => [cur]
  | c :: l' => if Ascii.eqb c " " then cur :: split_space_aux l' [] else split_space_aux l' (cur ++ [c])
  end.

Definition split_space (s : string) : list string :=
  map string_of_list_ascii (split_space_aux (list_ascii_of_string s) []).

(** [query.toLowerCase().split(" ").filter((word) => word.length > 2)] *)
Definition hybrid_keywords (query : string) : list string :=
  filter (fun w => 2 <? String.length w) (split_space (Str.toLowerCase query)).

(** The keyword [whereClause]: [OR] of [content contains keyword] (case
    insensitive; an empty [OR] matches no row), [document.subject] when
    [options.subject] is truthy, [document.isPublic] for students.  The grade
    level is not part of it. *)
Definition keyword_where (keywords : list string) (subj : option string)
    (role : RAGWorkflow.Role) (c : Chunk) : bool :=
  existsb (fun kw => Str.includes (Str.toLowerCase kw) (Str.toLowerCase (ch_content c))) keywords &&
  (if truthy_str subj then
     match subj, dm_subject (ch_document c) with
     | Some s, Some s' => String.eqb s' s
     | _, _ => false
     end
   else true) &&
  (match role with RAGWorkflow.Student => dm_isPublic (ch_document c) | RAGWorkflow.Teacher => true end).

(** [Map.prototype.get] and [Map.prototype.set] (a set on a present key keeps
    its position), the map being its entries in insertion order. *)
Definition map_get (k : string) (m : list Hit) : option Hit :=
  find (fun h => String.eqb (hit_id h) k) m.

Fixpoint map_set (h : Hit) (m : list Hit) : list Hit :=
  match m with
  | [] => [h]
  | h' :: m' => if String.eqb (hit_id h') (hit_id h) then h :: m' else h' :: map_set h m'
  end.

(** [combinedResults.set(result.id, { ...result, score: result.score * alpha })] *)
Definition add_vector (alpha : R) (m : list Hit) (r : Scored) : list Hit :=
  map_set {| hit_id := sc_id r; hit_score := sc_score r * alpha; hit_source := FromVector r |} m.

(** The [keywordResults.forEach] callback; [existing.score += keywordScore]
    mutates the entry held by the map. *)
Definition add_keyword (alpha : R) (m : list Hit) (c : Chunk) : list Hit :=
  let keywordScore := (1 - alpha) * (1 / 2) in
  match map_get (ch_id c) m with
  | Some existing =>
      map_set {| hit_id := hit_id existing; hit_score := hit_score existing + keywordScore;
                 hit_source := hit_source existing |} m
  | None =>
      map_set {| hit_id := ch_id c; hit_score := keywordScore; hit_source := FromKeyword c |} m
  end.

(** [.sort((a, b) => b.score - a.score)] (stable). *)
Fixpoint insert_hit (x : Hit) (l : list Hit) : list Hit :=
  match l with
  | [] => [x]
  | y :: l' => if Rlt_dec (hit_score y) (hit_score x) then x :: l else y :: insert_hit x l'
  end.

Definition sort_hits (l : list Hit) : list Hit :=
  fold_left (fun acc x => insert_hit x acc) l [].

(** [hybridSearch]; [topK] and [alpha] are the values after the defaults
    ([5] and [0.7]) are applied, [vectorFind] the outcome of the [findMany]
    inside [retrieveDocuments], [keywordFind] the outcome of the keyword
    [findMany] (rows in store order, [take: topK * 2]).  The [catch] block
    returns [vectorResults], a [const] declared inside the [try] block: the
    name is not in scope there, so evaluating it throws a [ReferenceError]. *)
Definition hybridSearch (queryEmbedding : M (list R)) (vectorFind keywordFind : M unit)
    (store : list Chunk) (query : string) (subj : option string) (grade : option Z)
    (role : RAGWorkflow.Role) (topK : nat) (alpha : R) : M (list Hit) :=
  try_catch
    (vectorResults <- retrieveDocuments queryEmbedding vectorFind store subj grade role topK ;;
     let keywords := hybrid_keywords query in
     _ <- keywordFind ;;
     let keywordResults := firstn (topK * 2) (filter (keyword_where keywords subj role) store) in
     let combinedResults :=
       fold_left (add_keyword alpha) keywordResults (fold_left (add_vector alpha) vectorResults []) in
     ret (firstn topK (sort_hits combinedResults)))
    (fun _ => throw (JSError "vectorResults is not defined")).

End VectorStoreExtra.

(* ------------------------------------------------------------------------ *)
(** * document-processing.ts: the rest of the module *)

Module DocumentProcessingExtra.
Import DocumentProcessing DocumentDB.

(** [\w]: [A-Za-z0-9_]. *)
Definition is_word (c : ascii) : bool :=
  let n := nat_of_ascii c in
  ((48 <=? n) && (n <=? 57)) || ((65 <=? n) && (n <=? 90)) ||
  ((97 <=? n) && (n <=? 122)) || (n =? 95).

Definition is_digit (c : ascii) : bool :=
  let n := nat_of_ascii c in (48 <=? n) && (n <=? 57).

(** [.replace(/\s+/g, " ")] *)
Fixpoint collapse_ws (l : list ascii) (in_ws : bool) : list ascii :=
  match l with
  | [] => []
  | c :: l' =>
      if Str.is_ws c then (if in_ws then collapse_ws l' true else " "%char :: collapse_ws l' true)
      else c :: collapse_ws l' false
  end.

Fixpoint take_digits (l : list ascii) : list ascii * list ascii :=
  match l with
  | c :: l' => if is_digit c then let '(d, r) := take_digits l' in (c :: d, r) else ([], l)
  | [] => ([], [])
  end.

(** A match of [/\bPage \d+\b/i] at the head of [l], [prev] being the
    character before it in the input: the rest of the input after the match
    and the last matched character.  [\d+] is greedy and a shorter run of
    digits is followed by a digit, so the match exists exactly when the
    maximal run of digits is followed by a non-word character or the end. *)
Definition page_match (prev : option ascii) (l : list ascii) : option (list ascii * ascii) :=
  if match prev with Some p => is_word p | None => false end then None
  else
    match l with
    | p :: a :: g :: e :: sp :: rest =>
        if Ascii.eqb (Str.lower_char p) "p" && Ascii.eqb (Str.lower_char a) "a" &&
           Ascii.eqb (Str.lower_char g) "g" && Ascii.eqb (Str.lower_char e) "e" &&
           Ascii.eqb sp " " then
          let '(digits, after) := take_digits rest in
          match digits with
          | [] => None
          | d :: _ =>
              if match after with c :: _ => is_word c | [] => false end then None
              else Some (after, last digits d)
          end
        else None
    | _ => None
    end.

(** [.replace(/\bPage \d+\b/gi, "")]: the scan resumes after each match;
    [fuel] is the length of the input. *)
Fixpoint strip_pages (fuel : nat) (prev : option ascii) (l : list ascii) : list ascii :=
  match fuel with
  | O => l
  | S fuel' =>
      match l with
      | [] => []
      | c :: l' =>
          match page_match prev l with
          | Some (rest, lastc) => strip_pages fuel' (Some lastc) rest
          | None => c :: strip_pages fuel' (Some c) l'
          end
      end
  end.

Fixpoint run_len (c : ascii) (l : list ascii) : nat :=
  match l with
  | c' :: l' => if Ascii.eqb c' c then S (run_len c l') else O
  | [] => O
  end.

(** [.replace(/([^\w\s])\1{3,}/g, "$1")]: a character that is neither a word
    character nor whitespace, followed by three or more copies of itself
    (greedy), becomes one copy. *)
Fixpoint collapse_special (fuel : nat) (l : list ascii) : list ascii :=
  match fuel with
  | O => l
  | S fuel' =>
      match l with
      | [] => []
      | c :: l' =>
          if negb (is_word c) && negb (Str.is_ws c) && (3 <=? run_len c l') then
            c :: collapse_special fuel' (skipn (run_len c l') l')
          else c :: collapse_special fuel' l'
      end
  end.

(** [cleanText] *)
Definition cleanText (text : string) : string :=
  let l1 := collapse_ws (list_ascii_of_string text) false in
  let l2 := strip_pages (length l1) None l1 in
  let l3 := collapse_special (length l2) l2 in
  Str.trim (string_of_list_ascii l3).

Definition extractTextFromPDF (pdf : M string) : M string :=
  try_catch pdf (fun _ => throw (JSError "Failed to extract text from PDF")).

Definition extractTextFromDocx (docx : M string) : M string :=
  try_catch docx (fun _ => throw (JSError "Failed to extract text from DOCX")).

Definition docx_type : string :=
  "application/vnd.openxmlformats-officedocument.wordprocessingml.document".

(** The external calls [processDocument] makes. *)
Record ProcessEnv := mkProcessEnv {
  pe_pdf : M string;                  (* pdf(buffer).text *)
  pe_docx : M string;                 (* mammoth.extractRawText(...).value *)
  pe_utf8 : string;                   (* fileBuffer.toString("utf-8") *)
  pe_embed : string -> M (list R);    (* generateEmbedding *)
  pe_createDoc : M unit;              (* prisma.aIDocument.create *)
  pe_newId : string;                  (* the id the database assigns *)
  pe_now : nat;                       (* createdAt *)
  pe_createMany : M unit              (* prisma.aIDocumentChunk.createMany *)
}.

Record DocumentMetadata := mkDocumentMetadata {
  md_title : string;
  md_description : option string;
  md_subject : option string;
  md_gradeLevel : option Z;
  md_classId : option Z;
  md_uploadedBy : string;
  md_isPublic : bool
}.

(** The [if] chain of [processDocument] choosing the extractor. *)
Definition extractText (pe : ProcessEnv) (fileType : string) : M string :=
  if String.eqb fileType "application/pdf" then extractTextFromPDF (pe_pdf pe)
  else if String.eqb fileType docx_type then extractTextFromDocx (pe_docx pe)
  else if String.eqb fileType "text/plain" || String.eqb fileType "text/markdown" then ret (pe_utf8 pe)
  else throw (JSError (String.append "Unsupported file type: " fileType)).

Definition new_document (pe : ProcessEnv) (metadata : DocumentMetadata) : AIDocument :=
  {| ad_id := pe_newId pe; ad_title := md_title metadata;
     ad_description := md_description metadata; ad_subject := md_subject metadata;
     ad_gradeLevel := md_gradeLevel metadata; ad_classId := md_classId metadata;
     ad_uploadedBy := md_uploadedBy metadata; ad_isPublic := md_isPublic metadata;
     ad_createdAt := pe_now pe |}.

(** [prisma.aIDocument.create] *)
Definition createDocument (pe : ProcessEnv) (metadata : DocumentMetadata) : DBM AIDocument :=
  _ <-- lift (pe_createDoc pe) ;;;
  db <-- get ;;;
  _ <-- put {| db_documents := db_documents db ++ [new_document pe metadata];
               db_chunks := db_chunks db |} ;;;
  dret (new_document pe metadata).

Record ProcessResult := mkProcessResult {
  pr_success : bool;
  pr_documentId : string;
  pr_chunksCreated : nat;
  pr_textLength : nat
}.

(** [processDocument] *)
Definition processDocument (pe : ProcessEnv) (fileType : string) (metadata : DocumentMetadata)
    : DBM ProcessResult :=
  dtry
    (extractedText <-- lift (extractText pe fileType) ;;;
     let cleanedText := cleanText extractedText in
     let chunks := chunkDocument cleanedText 1000 200 (md_title metadata) in
     document <-- createDocument pe metadata ;;;
     _ <-- VectorStoreExtra.storeDocumentChunks (pe_embed pe) (pe_createMany pe) (ad_id document) chunks ;;;
     dret {| pr_success := true; pr_documentId := ad_id document;
             pr_chunksCreated := length chunks; pr_textLength := String.length cleanedText |})
    (fun e => dthrow (JSError (String.append "Document processing failed: " (message e)))).

(** [text.split(/\n\n+|(?=^#{1,6}\s)/m)] *)
Definition is_nl (c : ascii) : bool := Ascii.eqb c "010".

(** [^] under the [m] flag: the start of the input or just after a line
    terminator. *)
Definition line_start (prev : option ascii) : bool :=
  match prev with None => true | Some p => Ascii.eqb p "010" || Ascii.eqb p "013" end.

Fixpoint count_hashes (l : list ascii) : nat * list ascii :=
  match l with
  | c :: l' => if Ascii.eqb c "#" then let '(n, r) := count_hashes l' in (S n, r) else (O, l)
  | [] => (O, [])
  end.

(** [#{1,6}\s] at the head of [l]: the maximal run of [#] has 1 to 6
    characters and is followed by whitespace (fewer [#] are followed by [#]). *)
Definition heading_at (l : list ascii) : bool :=
  let '(n, rest) := count_hashes l in
  (1 <=? n) && (n <=? 6) && match rest with c :: _ => Str.is_ws c | [] => false end.

Definition is_nil {A} (l : list A) : bool := match l with [] => true | _ => false end.

(** The split: [cur] is the piece since the end of the last separator,
    [in_sep] holds inside a run of newlines matched by [\n\n+] (greedy).  A
    lookahead match at the end of the last separator is empty and is
    skipped, as [String.prototype.split] does. *)
Fixpoint split_aux (l : list ascii) (prev : option ascii) (cur : list ascii) (in_sep : bool)
    : list (list ascii) :=
  match l with
  | [] => [cur]
  | c :: l' =>
      if in_sep && is_nl c then split_aux l' (Some c) cur true
      else if is_nl c && match l' with c' :: _ => is_nl c' | [] => false end then
        cur :: split_aux l' (Some c) [] true
      else if line_start prev && heading_at l && negb (is_nil cur) then
        cur :: split_aux l' (Some c) [c] false
      else split_aux l' (Some c) (cur ++ [c]) false
  end.

Definition split_sections (text : string) : list string :=
  map string_of_list_ascii (split_aux (list_ascii_of_string text) None [] false).

(** The [metadata] of a semantic chunk: the one [chunkDocument] gave a
    sub-chunk, or [{ documentTitle, chunkIndex, type: "semantic_section" }]. *)
Inductive SemMeta :=
| ChunkMeta (documentTitle : string) (chunkIndex sentenceStart sentenceEnd : nat)
| SectionMeta (documentTitle : string) (chunkIndex : nat).

Record SemChunk := mkSemChunk {
  sm_content : string;
  sm_metadata : SemMeta;
  sm_chunkIndex : nat
}.

(** [subChunks.forEach((subChunk) => chunks.push({ ...subChunk, chunkIndex: chunkIndex++ }))] *)
Fixpoint renumber (subChunks : list ChunkOut) (chunkIndex : nat) : list SemChunk :=
  match subChunks with
  | [] => []
  | sc :: rest =>
      {| sm_content := co_content sc;
         sm_metadata := ChunkMeta (co_documentTitle sc) (co_chunkIndex sc)
                          (co_sentenceStart sc) (co_sentenceEnd sc);
         sm_chunkIndex := chunkIndex |} :: renumber rest (S chunkIndex)
  end.

(** The [for (const section of sections)] loop. *)
Fixpoint semantic_loop (documentTitle : string) (sections : list string) (chunkIndex : nat)
    : list SemChunk :=
  match sections with
  | [] => []
  | section :: rest =>
      let trimmedSection := Str.trim section in
      if negb (nonempty trimmedSection) || (String.length trimmedSection <? 50) then
        semantic_loop documentTitle rest chunkIndex
      else if 1500 <? String.length trimmedSection then
        let subChunks := chunkDocument trimmedSection 1000 200 documentTitle in
        renumber subChunks chunkIndex ++
        semantic_loop documentTitle rest (chunkIndex + length subChunks)
      else
        {| sm_content := trimmedSection; sm_metadata := SectionMeta documentTitle chunkIndex;
           sm_chunkIndex := chunkIndex |} :: semantic_loop documentTitle rest (S chunkIndex)
  end.

Definition semanticChunkDocument (text documentTitle : string) : list SemChunk :=
  semantic_loop documentTitle (split_sections text) 0.

(** [prisma.aIDocument.findUnique({ where: { id } })] *)
Definition findUnique (db : DB) (documentId : string) : option AIDocument :=
  find (fun d => String.eqb (ad_id d) documentId) (db_documents db).

(** [deleteDocument]; [findOk] and [deleteOk] are the outcomes of the two
    database calls.  Deleting the document cascades to its chunks. *)
Definition deleteDocument (findOk deleteOk : M unit) (documentId userId : string) : DBM bool :=
  dtry
    (_ <-- lift findOk ;;;
     db <-- get ;;;
     match findUnique db documentId with
     | None => dthrow (JSError "Document not found")
     | Some document =>
         if negb (String.eqb (ad_uploadedBy document) userId) then
           dthrow (JSError "Unauthorized to delete this document")
         else
           _ <-- lift deleteOk ;;;
           _ <-- put {| db_documents :=
                          filter (fun d => negb (String.eqb (ad_id d) documentId)) (db_documents db);
                        db_chunks :=
                          filter (fun c => negb (String.eqb (cr_documentId c) documentId)) (db_chunks db) |} ;;;
           dret true
     end)
    (fun e => dthrow e).

(** The [updates] argument; an absent field is left unchanged by Prisma. *)
Record DocumentUpdates := mkDocumentUpdates {
  up_title : option string;
  up_description : option string;
  up_subject : option string;
  up_gradeLevel : option Z;
  up_isPublic : option bool
}.

Definition or_keep {A} (o : option A) (a : A) : A := match o with Some x => x | None => a end.

Definition apply_doc_updates (u : DocumentUpdates) (d : AIDocument) : AIDocument :=
  {| ad_id := ad_id d; ad_title := or_keep (up_title u) (ad_title d);
     ad_description := match up_description u with Some x => Some x | None => ad_description d end;
     ad_subject := match up_subject u with Some x => Some x | None => ad_subject d end;
     ad_gradeLevel := match up_gradeLevel u with Some x => Some x | None => ad_gradeLevel d end;
     ad_classId := ad_classId d; ad_uploadedBy := ad_uploadedBy d;
     ad_isPublic := or_keep (up_isPublic u) (ad_isPublic d); ad_createdAt := ad_createdAt d |}.

(** [updateDocumentMetadata] *)
Definition updateDocumentMetadata (findOk updateOk : M unit) (documentId userId : string)
    (updates : DocumentUpdates) : DBM AIDocument :=
  dtry
    (_ <-- lift findOk ;;;
     db <-- get ;;;
     match findUnique db documentId with
     | None => dthrow (JSError "Document not found")
     | Some document =>
         if negb (String.eqb (ad_uploadedBy document) userId) then
           dthrow (JSError "Unauthorized to update this document")
         else
           _ <-- lift updateOk ;;;
           _ <-- put {| db_documents :=
                          map (fun d => if String.eqb (ad_id d) documentId
                                        then apply_doc_updates updates d else d) (db_documents db);
                        db_chunks := db_chunks db |} ;;;
           dret (apply_doc_updates updates document)
     end)
    (fun e => dthrow e).

Inductive UserRole := URTeacher | URStudent | URAdmin.

Record DocFilters := mkDocFilters {
  f_subject : option string;
  f_gradeLevel : option Z;
  f_classId : option Z
}.

(** [if (x) whereClause.field = x] on an optional string and an optional
    number ([0] is falsy). *)
Definition str_filter (f : option string) (v : option string) : bool :=
  if truthy_str f then
    match f, v with Some s, Some s' => String.eqb s' s | _, _ => false end
  else true.

Definition num_filter (f : option Z) (v : option Z) : bool :=
  match f with
  | Some g => if Z.eqb g 0 then true else match v with Some g' => Z.eqb g' g | None => false end
  | None => true
  end.

(** The [whereClause] of [getUserDocuments]. *)
Definition user_docs_where (userId : string) (userRole : UserRole) (filters : option DocFilters)
    (d : AIDocument) : bool :=
  (match userRole with
   | URTeacher | URAdmin => String.eqb (ad_uploadedBy d) userId
   | URStudent => ad_isPublic d
   end) &&
  (match filters with
   | None => true
   | Some f =>
       str_filter (f_subject f) (ad_subject d) && num_filter (f_gradeLevel f) (ad_gradeLevel d) &&
       num_filter (f_classId f) (ad_classId d)
   end).

(** [orderBy: { createdAt: "desc" }], ties in table order. *)
Fixpoint insert_created (x : AIDocument) (l : list AIDocument) : list AIDocument :=
  match l with
  | [] => [x]
  | y :: l' => if ad_createdAt y <? ad_createdAt x then x :: l else y :: insert_created x l'
  end.

Definition sort_created (l : list AIDocument) : list AIDocument :=
  fold_left (fun acc x => insert_created x acc) l [].

(** [_count: { select: { chunks: true } }] *)
Definition chunk_count (db : DB) (d : AIDocument) : nat :=
  length (filter (fun c => String.eqb (cr_documentId c) (ad_id d)) (db_chunks db)).

(** [getUserDocuments]; [findOk] is the outcome of the query. *)
Definition getUserDocuments (findOk : M unit) (db : DB) (userId : string) (userRole : UserRole)
    (filters : option DocFilters) : M (list (AIDocument * nat)) :=
  try_catch
    (_ <- findOk ;;
     let documents := sort_created (filter (user_docs_where userId userRole filters) (db_documents db)) in
     ret (map (fun d => (d, chunk_count db d)) documents))
    (fun _ => ret []).

End DocumentProcessingExtra.

(* ------------------------------------------------------------------------ *)
(** * answer-generation.ts: [generateAnswerStream] *)

Module AnswerGenerationExtra.
Import RAGWorkflow AnswerGeneration.

(** What [selectedLLM.stream(prompt)] delivers: the chunks the iterator
    yields ([chunk.content.toString()]) and, when the iteration throws after
    them, the error. *)
Record LLMStream := mkLLMStream {
  stream_chunks : list string;
  stream_error : option thrown
}.

(** The [for await] loop: [fullAnswer += content; onChunk(content)]; the
    second component lists the calls made to [onChunk]. *)
Fixpoint stream_loop (chunks : list string) (fullAnswer : string) (calls : list string)
    : string * list string :=
  match chunks with
  | [] => (fullAnswer, calls)
  | content :: rest => stream_loop rest (String.append fullAnswer content) (calls ++ [content])
  end.

(** [generateAnswerStream]: its outcome and the arguments [onChunk]
    received, in order.  The [catch] block rethrows the error as is. *)
Definition generateAnswerStream (stream : M LLMStream) (docs : list Doc) : M GenResult * list string :=
  match stream with
  | inl e => (throw e, [])
  | inr s =>
      let '(fullAnswer, calls) := stream_loop (stream_chunks s) "" [] in
      match stream_error s with
      | Some e => (throw e, calls)
      | None =>
          (ret {| gr_answer := fullAnswer; gr_confidence := confidence_of docs;
                  gr_sources := sources_of docs; gr_tokenUsage := estimateTokens fullAnswer |},
           calls)
      end
  end.

End AnswerGenerationExtra.

(* ------------------------------------------------------------------------ *)
(** * self-evaluation.ts: [evaluateAspect], [detectHallucinations],
    [selectBestAnswer] *)

Module SelfEvaluationExtra.

(** A JS number: finite (a rational; rounding is not modelled), infinite or
    NaN. *)
Inductive JSNum := Fin (q : Q) | PosInf | NegInf | NaN.

Definition isNaN (x : JSNum) : bool := match x with NaN => true | _ => false end.

(** [Math.min(a, b)] and [Math.max(a, b)] *)
Definition js_min (a b : JSNum) : JSNum :=
  match a, b with
  | NaN, _ | _, NaN => NaN
  | NegInf, _ | _, NegInf => NegInf
  | PosInf, x | x, PosInf => x
  | Fin x, Fin y => Fin (Qmin x y)
  end.

Definition js_max (a b : JSNum) : JSNum :=
  match a, b with
  | NaN, _ | _, NaN => NaN
  | PosInf, _ | _, PosInf => PosInf
  | NegInf, x | x, NegInf => x
  | Fin x, Fin y => Fin (Qmax x y)
  end.

(** [evaluateAspect]: [llm] is the chain's reply for the aspect's prompt,
    [parseFloat] the number [parseFloat] reads from a string. *)
Definition evaluateAspect (llm : M string) (parseFloat : string -> JSNum) : M JSNum :=
  try_catch
    (result <- llm ;;
     let score := parseFloat (Str.trim result) in
     ret (if isNaN score then Fin (1 # 2) else js_max (Fin 0) (js_min (Fin 1) score)))
    (fun _ => ret (Fin (1 # 2))).

(** A property read from the parsed JSON ([JUndefined] for a missing key). *)
#[warnings="-register-all"]
Inductive JVal :=
| JUndefined | JNull | JBool (b : bool) | JNum (n : JSNum) | JStr (s : string) | JObject
| JArray (l : list JVal).

Definition truthy (v : JVal) : bool :=
  match v with
  | JUndefined | JNull => false
  | JBool b => b
  | JNum (Fin q) => negb (Qeq_bool q 0)
  | JNum NaN => false
  | JNum _ => true
  | JStr s => negb (String.eqb s "")
  | JObject | JArray _ => true
  end.

(** [a || b] *)
Definition js_or (a b : JVal) : JVal := if truthy a then a else b.

Record Detection := mkDetection {
  hd_hasHallucination : JVal;
  hd_confidence : JVal;
  hd_details : JVal
}.

(** [detectHallucinations]; [retrievedDocuments] are the documents'
    contents, [llm] the fact-checking chain, [parse] [JSON.parse] followed by
    reading [hasHallucination], [confidence] and [details]. *)
Definition detectHallucinations (llm : M string) (parse : string -> M (JVal * JVal * JVal))
    (answer : string) (retrievedDocuments : list string) : M Detection :=
  try_catch
    (if Nat.eqb (length retrievedDocuments) 0 then
       ret {| hd_hasHallucination := JBool false; hd_confidence := JNum (Fin 0);
              hd_details := JStr "No context to verify against" |}
     else
       result <- llm ;;
       match SelfEvaluation.json_match result with
       | None => throw (JSError "Could not parse hallucination detection response")
       | Some j =>
           detection <- parse j ;;
           let '(h, c, d) := detection in
           ret {| hd_hasHallucination := js_or h (JBool false);
                  hd_confidence := js_or c (JNum (Fin (1 # 2)));
                  hd_details := js_or d (JStr "") |}
       end)
    (fun _ => ret {| hd_hasHallucination := JBool false; hd_confidence := JNum (Fin 0);
                     hd_details := JStr "Error in hallucination detection" |}).

(** [Number(v)], the conversion [*=] and [Math.min] apply to a parsed
    value; [Number] converts a string (StringToNumber).  An array converts
    through its string form: [[]] is 0, a one-element array converts as its
    element, a longer one (a comma in its string) is NaN. *)
Fixpoint to_number (Number : string -> JSNum) (v : JVal) : JSNum :=
  match v with
  | JUndefined => NaN
  | JNull => Fin 0
  | JBool b => Fin (if b then 1 else 0)
  | JNum n => n
  | JStr s => Number s
  | JObject => NaN
  | JArray [] => Fin 0
  | JArray [x] =>
      match x with
      | JUndefined | JNull => Fin 0
      | JBool _ | JObject => NaN
      | _ => to_number Number x
      end
  | JArray _ => NaN
  end.

(** [a * b] *)
Definition js_mul (a b : JSNum) : JSNum :=
  match a, b with
  | NaN, _ | _, NaN => NaN
  | Fin x, Fin y => Fin (x * y)
  | Fin x, PosInf | PosInf, Fin x =>
      match Qcompare x 0 with Eq => NaN | Gt => PosInf | Lt => NegInf end
  | Fin x, NegInf | NegInf, Fin x =>
      match Qcompare x 0 with Eq => NaN | Gt => NegInf | Lt => PosInf end
  | PosInf, PosInf | NegInf, NegInf => PosInf
  | PosInf, NegInf | NegInf, PosInf => NegInf
  end.

(** The object [evaluateAnswer] returns. *)
Record EvalOutcome := mkEvalOutcome {
  eo_score : JSNum;
  eo_feedback : JVal;
  eo_strengths : JVal;
  eo_improvements : JVal
}.

(** The object [heuristicEvaluation] returns. *)
Definition of_heuristic (r : SelfEvaluation.EvalResult) : EvalOutcome :=
  {| eo_score := Fin (SelfEvaluation.er_score r);
     eo_feedback := JStr (SelfEvaluation.er_feedback r);
     eo_strengths := JArray (map JStr (SelfEvaluation.er_strengths r));
     eo_improvements := JArray (map JStr (SelfEvaluation.er_improvements r)) |}.

(** [evaluateAnswer]: [llm] is the evaluation chain, [parse] is
    [JSON.parse] followed by reading [score], [feedback], [strengths] and
    [improvements] ([JUndefined] for a missing key). *)
Definition evaluateAnswer (llm : M string) (parse : string -> M (JVal * JVal * JVal * JVal))
    (Number : string -> JSNum) (query generatedAnswer : string) (docs : list RAGWorkflow.Doc)
    (confidence : Q) : M EvalOutcome :=
  try_catch
    (evaluationResult <- llm ;;
     match SelfEvaluation.json_match evaluationResult with
     | None => throw (JSError "Could not parse evaluation response")
     | Some j =>
         evaluation <- parse j ;;
         let '(sc, fb, st, im) := evaluation in
         let avgDocumentScore := AnswerGeneration.avgRelevance docs in
         let adjustedScore := to_number Number sc in
         let adjustedScore :=
           if Qltb avgDocumentScore (1 # 2) then js_mul adjustedScore (Fin (4 # 5))
           else adjustedScore in
         let adjustedScore :=
           if Qltb confidence (1 # 2) then js_mul adjustedScore (Fin (9 # 10))
           else adjustedScore in
         ret {| eo_score := js_max (Fin 0) (js_min (Fin 1) adjustedScore);
                eo_feedback := fb;
                eo_strengths := js_or st (JArray []);
                eo_improvements := js_or im (JArray []) |}
     end)
    (fun _ => ret (of_heuristic
                     (SelfEvaluation.heuristicEvaluation query generatedAnswer docs confidence))).

Record Candidate := mkCandidate {
  cand_answer : string;
  cand_confidence : Q;
  cand_sources : list string
}.

(** [arr[maxIdx].confidence]; reading a property of [undefined] throws. *)
Definition conf_at (answers : list Candidate) (i : nat) : M Q :=
  match nth_error answers i with
  | Some a => ret (cand_confidence a)
  | None => throw (JSError "Cannot read properties of undefined (reading 'confidence')")
  end.

Fixpoint reduce_max (answers rest : list Candidate) (idx maxIdx : nat) : M nat :=
  match rest with
  | [] => ret maxIdx
  | ans :: rest' =>
      best <- conf_at answers maxIdx ;;
      reduce_max answers rest' (S idx) (if Qltb best (cand_confidence ans) then idx else maxIdx)
  end.

(** [answers.reduce((maxIdx, ans, idx, arr) =>
      (ans.confidence > arr[maxIdx].confidence ? idx : maxIdx), 0)] *)
Definition highest_confidence (answers : list Candidate) : M nat :=
  reduce_max answers answers 0 0.

(** [selectBestAnswer]; [parseInt] gives [None] for NaN. *)
Definition selectBestAnswer (llm : M string) (parseInt : string -> option Z)
    (answers : list Candidate) : M nat :=
  try_catch
    (result <- llm ;;
     match parseInt (Str.trim result) with
     | None => highest_confidence answers
     | Some k =>
         let selectedIndex := (k - 1)%Z in
         if Z.ltb selectedIndex 0 || Z.leb (Z.of_nat (length answers)) selectedIndex then
           highest_confidence answers
         else ret (Z.to_nat selectedIndex)
     end)
    (fun _ => highest_confidence answers).

End SelfEvaluationExtra.

(* ------------------------------------------------------------------------ *)
(** * query-refinement.ts: [updateRefinementScore] *)

Module QueryRefinementExtra.
Import QueryRefinement.

(** The [findFirst] filter of [updateRefinementScore]: no subject. *)
Definition matches_update_key (originalQuery refinedQuery mode : string) (r : RefinementRecord) : bool :=
  insensitive_eq (rr_originalQuery r) originalQuery &&
  insensitive_eq (rr_refinedQuery r) refinedQuery &&
  String.eqb (rr_mode r) mode.

(** [update({ where: { id }, data: { improvementScore } })] *)
Definition set_score (id : nat) (newScore : Q) (r : RefinementRecord) : RefinementRecord :=
  if rr_id r =? id then
    {| rr_id := rr_id r; rr_originalQuery := rr_originalQuery r;
       rr_refinedQuery := rr_refinedQuery r; rr_mode := rr_mode r;
       rr_subject := rr_subject r; rr_improvementScore := Some newScore;
       rr_usageCount := rr_usageCount r; rr_lastUsed := rr_lastUsed r |}
  else r.

(** [refinement.improvementScore || 0] *)
Definition score_or_0 (o : option Q) : Q := match o with Some q => q | None => 0%Q end.

Definition Qnat (n : nat) : Q := inject_Z (Z.of_nat n).

(** [updateRefinementScore]; [db] is the outcome of the [findFirst] and
    [update] calls. *)
Definition updateRefinementScore (db : M unit) (st : Store)
    (originalQuery refinedQuery mode : string) (improvementScore : Q) : M Store :=
  try_catch
    (_ <- db ;;
     match find (matches_update_key originalQuery refinedQuery mode) st with
     | Some refinement =>
         let currentScore := score_or_0 (rr_improvementScore refinement) in
         let usageCount := Qnat (rr_usageCount refinement) in
         let newScore := ((currentScore * usageCount + improvementScore) / (usageCount + 1))%Q in
         ret (map (set_score (rr_id refinement) newScore) st)
     | None => ret st
     end)
    (fun _ => ret st).

End QueryRefinementExtra.

(* ------------------------------------------------------------------------ *)
(** * analytics.ts *)

Module Analytics.

Record AnalyticsEvent := mkAnalyticsEvent {
  ae_userId : option string;
  ae_eventType : string;
  ae_subject : option string;
  ae_mode : option string;
  ae_queryText : option string;
  ae_documentsRetrieved : option Q;
  ae_responseTime : option Q;
  ae_tokenUsage : option Q;
  ae_success : option bool;
  ae_errorMessage : option string
}.

(** A row of [aIAnalytics] ([metadata] not modelled).  [success] holds a
    boolean: [logAnalytics] always writes one. *)
Record AnalyticsRow := mkAnalyticsRow {
  an_userId : option string;
  an_eventType : string;
  an_subject : option string;
  an_mode : option string;
  an_queryText : option string;
  an_documentsRetrieved : option Q;
  an_responseTime : option Q;
  an_tokenUsage : option Q;
  an_success : bool;
  an_errorMessage : option string;
  an_createdAt : nat
}.

Definition row_of (now : nat) (event : AnalyticsEvent) : AnalyticsRow :=
  {| an_userId := ae_userId event; an_eventType := ae_eventType event;
     an_subject := ae_subject event; an_mode := ae_mode event;
     an_queryText := ae_queryText event; an_documentsRetrieved := ae_documentsRetrieved event;
     an_responseTime := ae_responseTime event; an_tokenUsage := ae_tokenUsage event;
     an_success := match ae_success event with Some b => b | None => true end;
     an_errorMessage := ae_errorMessage event; an_createdAt := now |}.

(** [logAnalytics]; [create] is the outcome of the insert. *)
Definition logAnalytics (create : M unit) (now : nat) (table : list AnalyticsRow)
    (event : AnalyticsEvent) : M (list AnalyticsRow) :=
  try_catch
    (_ <- create ;; ret (table ++ [row_of now event]))
    (fun _ => ret table).

Definition Qnat (n : nat) : Q := inject_Z (Z.of_nat n).

(** Truthiness of a nullable number, and [x || 0]. *)
Definition truthy_num (o : option Q) : bool :=
  match o with Some x => negb (Qeq_bool x 0) | None => false end.

Definition num_or_0 (o : option Q) : Q := match o with Some x => x | None => 0%Q end.

Definition is_workflow_complete (a : AnalyticsRow) : bool :=
  String.eqb (an_eventType a) "workflow_complete".

(** A JS object used as a dictionary: its own properties, in creation
    order.  [obj_own] reads an own property, [obj_set] assigns one (a new
    key goes last). *)
Fixpoint obj_own {V} (k : string) (m : list (string * V)) : option V :=
  match m with
  | [] => None
  | (k', v) :: m' => if String.eqb k' k then Some v else obj_own k m'
  end.

Fixpoint obj_set {V} (k : string) (v : V) (m : list (string * V)) : list (string * V) :=
  match m with
  | [] => [(k, v)]
  | (k', v') :: m' => if String.eqb k' k then (k', v) :: m' else (k', v') :: obj_set k v m'
  end.

(** The members an object literal [{}] inherits from [Object.prototype]
    (Node's built-ins, unmodified). *)
Definition object_prototype_keys : list string :=
  ["constructor"; "__defineGetter__"; "__defineSetter__"; "hasOwnProperty";
   "__lookupGetter__"; "__lookupSetter__"; "isPrototypeOf"; "propertyIsEnumerable";
   "toString"; "valueOf"; "__proto__"; "toLocaleString"]%string.

Definition is_proto_key (k : string) : bool := existsb (String.eqb k) object_prototype_keys.

(** What [obj[k]] reads: an own property, an inherited member of
    [Object.prototype] (a built-in function, or [Object.prototype] itself
    for [__proto__]: truthy either way), or [undefined]. *)
Inductive Slot (V : Type) := Own (v : V) | Inherited (k : string) | Missing.
Arguments Own {V} v.
Arguments Inherited {V} k.
Arguments Missing {V}.

Definition obj_get {V} (k : string) (m : list (string * V)) : Slot V :=
  match obj_own k m with
  | Some v => Own v
  | None => if is_proto_key k then Inherited k else Missing
  end.

(** [String(obj[k])] for an inherited member, as Node prints it. *)
Definition inherited_string (k : string) : string :=
  if String.eqb k "__proto__" then "[object Object]"
  else if String.eqb k "constructor" then "function Object() { [native code] }"
  else "function " ++ k ++ "() { [native code] }".

(** [obj[k] = v] for a primitive [v]: the inherited [__proto__] setter
    ignores a primitive value. *)
Definition obj_assign_prim {V} (k : string) (v : V) (m : list (string * V)) : list (string * V) :=
  if String.eqb k "__proto__" then m else obj_set k v m.

(** A canonical array index ("0", or digits without a leading zero, below
    2^32 - 1): such keys come first in [Object.entries] order. *)
Definition digits_value (l : list ascii) : Z :=
  fold_left (fun acc c => (acc * 10 + Z.of_nat (nat_of_ascii c - 48))%Z) l 0%Z.

Definition array_index (k : string) : option Z :=
  let l := list_ascii_of_string k in
  match l with
  | [] => None
  | c :: rest =>
      if forallb DocumentProcessingExtra.is_digit l &&
         (negb (Ascii.eqb c "0") || DocumentProcessingExtra.is_nil rest) then
        let v := digits_value l in if Z.ltb v 4294967295 then Some v else None
      else None
  end.

Fixpoint insert_index {V} (x : Z * (string * V)) (l : list (Z * (string * V))) : list (Z * (string * V)) :=
  match l with
  | [] => [x]
  | y :: l' => if Z.ltb (fst x) (fst y) then x :: l else y :: insert_index x l'
  end.

(** [Object.entries]: integer keys in ascending order, then the other keys
    in insertion order. *)
Definition object_entries {V} (m : list (string * V)) : list (string * V) :=
  let indexed := fold_right (fun kv acc =>
                   match array_index (fst kv) with Some i => (i, kv) :: acc | None => acc end) [] m in
  map snd (fold_left (fun acc x => insert_index x acc) indexed []) ++
  filter (fun kv => match array_index (fst kv) with Some _ => false | None => true end) m.

(** A value of a counting object: a number, or the string that
    [(acc[k] || 0) + 1] builds from an inherited member and then extends. *)
Inductive CountVal := CNum (n : nat) | CStr (s : string).

Definition count_truthy (c : CountVal) : bool :=
  match c with CNum n => negb (n =? 0) | CStr s => negb (String.eqb s "") end.

(** [c + 1] *)
Definition count_succ (c : CountVal) : CountVal :=
  match c with CNum n => CNum (S n) | CStr s => CStr (s ++ "1") end.

(** [acc[k] = (acc[k] || 0) + 1] under [if (k)]: an inherited member is
    converted to its string and [+ 1] concatenates. *)
Definition count_into (acc : list (string * CountVal)) (k : option string)
    : list (string * CountVal) :=
  match k with
  | Some s =>
      if String.eqb s "" then acc
      else
        let cur := match obj_get s acc with
                   | Own c => if count_truthy c then c else CNum 0
                   | Inherited k' => CStr (inherited_string k')
                   | Missing => CNum 0
                   end in
        obj_assign_prim s (count_succ cur) acc
  | None => acc
  end.

Definition count_by (f : AnalyticsRow -> option string) (rows : list AnalyticsRow)
    : list (string * CountVal) :=
  fold_left (fun acc a => count_into acc (f a)) rows [].

(** [Number(c)] ([None] for [NaN]): the strings built by [count_into] (a
    function's source or "[object Object]", then 1s) are not numeric. *)
Definition count_number (c : CountVal) : option Z :=
  match c with CNum n => Some (Z.of_nat n) | CStr _ => None end.

(** The comparator [(a, b) => b[1] - a[1]]; a [NaN] result is taken as [+0]
    (SortCompare). *)
Definition count_compare (a b : string * CountVal) : Z :=
  match count_number (snd b), count_number (snd a) with
  | Some x, Some y => (x - y)%Z
  | _, _ => 0%Z
  end.

(** [.sort(count_compare)] as a stable insertion sort.  On numbers the
    comparator is consistent and this is the stable order the language
    fixes; with a string it is not, the order is implementation-defined and
    this is one of them. *)
Fixpoint insert_count (x : string * CountVal) (l : list (string * CountVal))
    : list (string * CountVal) :=
  match l with
  | [] => [x]
  | y :: l' => if (0 <? count_compare y x)%Z then x :: l else y :: insert_count x l'
  end.

Definition sort_counts (l : list (string * CountVal)) : list (string * CountVal) :=
  fold_left (fun acc x => insert_count x acc) l [].

Record Metrics := mkMetrics {
  m_count : nat;
  m_avgResponseTime : Q;
  m_successRate : Q
}.

(** The [analytics.forEach] callback of [getPerformanceBySubject]; a row's
    [success] is never [undefined].  When [subjectMetrics[s]] is an
    inherited built-in it is truthy, [metrics] is that built-in, the updates
    write [NaN] members on it (falsy, so no later read here sees them) and
    no own property of [subjectMetrics] changes. *)
Definition perf_step (subjectMetrics : list (string * Metrics)) (event : AnalyticsRow)
    : list (string * Metrics) :=
  match an_subject event with
  | None => subjectMetrics
  | Some s =>
      if String.eqb s "" then subjectMetrics
      else
        match obj_get s subjectMetrics with
        | Inherited _ => subjectMetrics
        | slot =>
            let metrics := match slot with
                           | Own m => m
                           | _ => {| m_count := 0; m_avgResponseTime := 0; m_successRate := 0 |}
                           end in
            let count := S (m_count metrics) in
            let avg :=
              if truthy_num (an_responseTime event) then
                ((m_avgResponseTime metrics * Qnat (count - 1) + num_or_0 (an_responseTime event))
                 / Qnat count)%Q
              else m_avgResponseTime metrics in
            let prevSuccesses := (m_successRate metrics * Qnat (count - 1))%Q in
            let rate := ((prevSuccesses + (if an_success event then 1 else 0)) / Qnat count)%Q in
            obj_set s {| m_count := count; m_avgResponseTime := avg; m_successRate := rate |}
              subjectMetrics
        end
  end.

Definition getPerformanceBySubject (analytics : list AnalyticsRow) : list (string * Metrics) :=
  fold_left perf_step analytics [].

Record SystemAnalytics := mkSystemAnalytics {
  sa_totalUsers : nat;
  sa_totalWorkflows : nat;
  sa_successRate : Q;
  sa_avgResponseTime : Q;
  sa_totalDocumentsRetrieved : Q;
  sa_avgDocumentsPerQuery : Q;
  sa_errorRate : Q;
  sa_popularSubjects : list (string * CountVal);
  sa_popularModes : list (string * CountVal);
  sa_subjectPerformance : list (string * Metrics)
}.

Definition sum_of (f : AnalyticsRow -> option Q) (rows : list AnalyticsRow) : Q :=
  fold_left (fun sum a => (sum + num_or_0 (f a))%Q) rows 0%Q.

(** [rows.filter((a) => a.f).reduce((sum, a) => sum + (a.f || 0), 0) /
    (rows.filter((a) => a.f).length || 1)] *)
Definition avg_of (f : AnalyticsRow -> option Q) (rows : list AnalyticsRow) : Q :=
  let present := filter (fun a => truthy_num (f a)) rows in
  (sum_of f present / AnswerGeneration.len_or_1 present)%Q.

Definition in_range (timeRange : option (nat * nat)) (a : AnalyticsRow) : bool :=
  match timeRange with
  | Some (start, stop) => (start <=? an_createdAt a) && (an_createdAt a <=? stop)
  | None => true
  end.

(** [getSystemAnalytics]; [findOk] is the outcome of the query, [None] the
    [null] of the [catch] block. *)
Definition getSystemAnalytics (findOk : M unit) (table : list AnalyticsRow)
    (timeRange : option (nat * nat)) : M (option SystemAnalytics) :=
  try_catch
    (_ <- findOk ;;
     let analytics := filter (in_range timeRange) table in
     let totalUsers :=
       length (AnswerGeneration.dedup_first
                 (fold_right (fun a acc => match an_userId a with
                                           | Some u => if String.eqb u "" then acc else u :: acc
                                           | None => acc end) [] analytics)) in
     let totalWorkflows := length (filter is_workflow_complete analytics) in
     let successfulWorkflows :=
       length (filter (fun a => is_workflow_complete a && an_success a) analytics) in
     let errorRate :=
       (Qnat (length (filter (fun a => negb (an_success a)) analytics))
        / AnswerGeneration.len_or_1 analytics)%Q in
     ret (Some {| sa_totalUsers := totalUsers;
                  sa_totalWorkflows := totalWorkflows;
                  sa_successRate :=
                    if 0 <? totalWorkflows then (Qnat successfulWorkflows / Qnat totalWorkflows)%Q
                    else 0%Q;
                  sa_avgResponseTime := avg_of an_responseTime analytics;
                  sa_totalDocumentsRetrieved := sum_of an_documentsRetrieved analytics;
                  sa_avgDocumentsPerQuery := avg_of an_documentsRetrieved analytics;
                  sa_errorRate := errorRate;
                  sa_popularSubjects := firstn 5 (sort_counts (object_entries (count_by an_subject analytics)));
                  sa_popularModes := firstn 5 (sort_counts (object_entries (count_by an_mode analytics)));
                  sa_subjectPerformance := getPerformanceBySubject analytics |}))
    (fun _ => ret None).

Record QueryFreq := mkQueryFreq {
  qf_count : nat;
  qf_query : string;
  qf_subject : option string;
  qf_mode : option string
}.

(** [x || undefined] on a nullable string *)
Definition undef_if_falsy (o : option string) : option string :=
  if truthy_str o then o else None.

(** The [queries.forEach] callback of [getPopularQueries]; an inherited
    built-in under [key] is truthy and takes the [count] update itself, as
    in [perf_step]. *)
Definition popular_step (queryFrequency : list (string * QueryFreq)) (q : AnalyticsRow)
    : list (string * QueryFreq) :=
  match an_queryText q with
  | None => queryFrequency
  | Some text =>
      if String.eqb text "" then queryFrequency
      else
        let key := Str.trim (Str.toLowerCase text) in
        match obj_get key queryFrequency with
        | Inherited _ => queryFrequency
        | slot =>
            let entry := match slot with
                         | Own e => e
                         | _ => {| qf_count := 0; qf_query := text;
                                   qf_subject := undef_if_falsy (an_subject q);
                                   qf_mode := undef_if_falsy (an_mode q) |}
                         end in
            obj_set key {| qf_count := S (qf_count entry); qf_query := qf_query entry;
                           qf_subject := qf_subject entry; qf_mode := qf_mode entry |} queryFrequency
        end
  end.

(** [.sort((a, b) => b.count - a.count)] (stable) *)
Fixpoint insert_freq (x : QueryFreq) (l : list QueryFreq) : list QueryFreq :=
  match l with
  | [] => [x]
  | y :: l' => if qf_count y <? qf_count x then x :: l else y :: insert_freq x l'
  end.

Definition sort_freqs (l : list QueryFreq) : list QueryFreq :=
  fold_left (fun acc x => insert_freq x acc) l [].

(** The [whereClause] of [getPopularQueries]. *)
Definition popular_where (subject mode : option string) (a : AnalyticsRow) : bool :=
  match an_queryText a with Some _ => true | None => false end &&
  DocumentProcessingExtra.str_filter subject (an_subject a) &&
  DocumentProcessingExtra.str_filter mode (an_mode a).

(** [getPopularQueries]; [limit] is taken non-negative. *)
Definition getPopularQueries (findOk : M unit) (table : list AnalyticsRow)
    (subject mode : option string) (limit : nat) : M (list QueryFreq) :=
  try_catch
    (_ <- findOk ;;
     let queries := filter (popular_where subject mode) table in
     let queryFrequency := fold_left popular_step queries [] in
     ret (firstn limit (sort_freqs (map snd (object_entries queryFrequency)))))
    (fun _ => ret []).

End Analytics.

(* ======================================================================== *)
(** * Properties of the workflow *)

Module WorkflowFacts.
Import RAGWorkflow Statements.

Lemma Qltb_spec (x y : Q) : Qltb x y = true <-> (x < y)%Q.
Proof.
  unfold Qltb. rewrite negb_true_iff. split; intro H.
  - apply Qnot_le_lt. intro H'. apply Qle_bool_iff in H'. congruence.
  - destruct (Qle_bool y x) eqn:E; [|reflexivity].
    apply Qle_bool_iff in E. exfalso. exact (Qlt_not_le _ _ H E).
Qed.

Ltac oracle_cases :=
  repeat (match goal with
  | |- context [env_refine ?e ?k] => destruct (env_refine e k)
  | |- context [env_retrieve ?e ?k ?q] => destruct (env_retrieve e k q)
  | |- context [env_generate ?e ?k] => destruct (env_generate e k)
  | |- context [env_evaluate ?e ?k] => destruct (env_evaluate e k)
  | |- context [env_log ?e ?x ?k] => destruct (env_log e x k)
  | |- context [if ?b then _ else _] => destruct b
  end; cbn).

(** Every node returns normally and only Refine moves the counter, by one. *)
Lemma exec_node_attempts (env : Env) (n : Node) (s : RAGState) :
  exists s', exec_node env n s = inr s' /\
    refinementAttempts s' =
      match n with QueryRefinement => S (refinementAttempts s) | _ => refinementAttempts s end.
Proof.
  destruct s; destruct n;
  unfold exec_node, node_fn, queryRefinementNode, documentRetrievalNode,
    answerGenerationNode, selfEvaluationNode, logAnalytics, try_catch, bind, ret; cbn;
  oracle_cases; cbn; eexists; split; try reflexivity; cbn; lia.
Qed.

Lemma run_S (env : Env) (l : nat) (n : Node) (s : RAGState) :
  run env (S l) n s =
  bind (exec_node env n s)
    (fun s' => match next_of n s' with Goto n' => run env l n' s' | End => ret s' end).
Proof. reflexivity. Qed.

(** The three outcomes of the Evaluate node. *)
Lemma evaluation_outcome (env : Env) (s s' : RAGState) :
  exec_node env SelfEvaluation s = inr s' ->
  refinementAttempts s' = refinementAttempts s /\
  retrievedDocuments s' = retrievedDocuments s /\
  generatedAnswer s' = generatedAnswer s /\
  ((truthy_str (generatedAnswer s) = false /\
    evaluationScore s' = Some 0%Q /\ needsRefinement s' = true) \/
   (truthy_str (generatedAnswer s) = true /\
    (exists e, env_evaluate env (refinementAttempts s) = inl e) /\
    evaluationScore s' = Some (1 # 2)%Q /\ needsRefinement s' = false) \/
   (truthy_str (generatedAnswer s) = true /\
    exists ev, env_evaluate env (refinementAttempts s) = inr ev /\
      evaluationScore s' = Some (ev_score ev) /\
      needsRefinement s' =
        Qltb (ev_score ev) (7 # 10) && (refinementAttempts s <? 3) &&
        (0 <? length (retrievedDocuments s)))).
Proof.
  destruct s; unfold exec_node, node_fn, selfEvaluationNode, try_catch, bind, ret; cbn.
  destruct (truthy_str generatedAnswer0) eqn:Ht; cbn.
  - destruct (env_evaluate env refinementAttempts0) as [e|ev] eqn:Ee; cbn;
      intro H; injection H as <-; cbn; repeat split; auto.
    + right; left. repeat split; eauto.
    + right; right. split; [reflexivity|]. exists ev. repeat split.
  - intro H; injection H as <-; cbn; repeat split; auto.
Qed.

Lemma ltb_length_pos {A} (l : list A) : (0 <? length l) = true <-> l <> [].
Proof.
  destruct l; cbn; split; intro H; try congruence; reflexivity.
Qed.

(** Starting at Refine with counter [a < 3], the run reaches [End] within
    four node steps per remaining attempt, with the counter in (a, 3]. *)
Lemma run_from_refine (env : Env) :
  forall m fuel s,
    3 - refinementAttempts s = m -> refinementAttempts s < 3 -> 4 * m <= fuel ->
    exists s', run env fuel QueryRefinement s = inr s' /\
      refinementAttempts s < refinementAttempts s' <= 3.
Proof.
  induction m as [|m IH]; intros fuel s Hm Hlt Hf; [lia|].
  destruct fuel as [|[|[|[|f]]]]; try lia.
  destruct (exec_node_attempts env QueryRefinement s) as [s1 [E1 A1]].
  destruct (exec_node_attempts env DocumentRetrieval s1) as [s2 [E2 A2]].
  destruct (exec_node_attempts env AnswerGeneration s2) as [s3 [E3 A3]].
  destruct (exec_node_attempts env SelfEvaluation s3) as [s4 [E4 A4]].
  rewrite run_S, E1; cbn [bind next_of].
  rewrite run_S, E2; cbn [bind next_of].
  rewrite run_S, E3; cbn [bind next_of].
  rewrite run_S, E4; cbn [bind next_of].
  destruct (shouldRefine s4) eqn:Hs.
  - unfold shouldRefine in Hs. apply andb_true_iff in Hs as [_ Hs].
    apply Nat.ltb_lt in Hs.
    destruct (IH f s4) as [s' [Er Ar]]; try lia.
    exists s'. split; [exact Er | lia].
  - exists s4. split; [reflexivity | lia].
Qed.

Lemma invoke_completes (env : Env) (s0 : RAGState) :
  refinementAttempts s0 = 0 ->
  exists s, invoke env s0 = inr s /\ 1 <= refinementAttempts s <= 3.
Proof.
  intro H0. unfold invoke, recursion_limit.
  destruct (run_from_refine env 3 25 s0) as [s [E A]]; try lia.
  exists s. split; [exact E | lia].
Qed.

(** C1 (as the code decides it).  After Evaluate the workflow goes back to
    Refine exactly when the counter is below 3 and either the generated
    answer is missing or empty (score set to 0), or the evaluation call
    succeeded with a score below 0.7 and at least one document was
    retrieved; otherwise (including a failed evaluation, recorded as 0.5)
    it ends. *)
Theorem evaluate_transition (env : Env) (s : RAGState) :
  exists s', exec_node env SelfEvaluation s = inr s' /\
    let cond :=
      refinementAttempts s < 3 /\
      (truthy_str (generatedAnswer s) = false \/
       exists ev, env_evaluate env (refinementAttempts s) = inr ev /\
         (ev_score ev < 7 # 10)%Q /\ retrievedDocuments s <> []) in
    (cond /\ next_of SelfEvaluation s' = Goto QueryRefinement) \/
    (~ cond /\ next_of SelfEvaluation s' = End).
Proof.
  destruct (exec_node_attempts env SelfEvaluation s) as [s' [E _]].
  exists s'. split; [exact E|].
  destruct (evaluation_outcome env s s' E) as [Ha [Hd [Hg Hcases]]].
  cbn [next_of]. unfold shouldRefine. rewrite Ha.
  destruct Hcases as [[Ht [_ Hn]] | [[Ht [[e Ee] [_ Hn]]] | [Ht [ev [Ee [_ Hn]]]]]];
    rewrite Hn.
  - destruct (Nat.ltb_spec (refinementAttempts s) 3).
    + left. split; [split; [lia | left; exact Ht] | reflexivity].
    + right. split; [intros [H' _]; lia | reflexivity].
  - right. split; [|reflexivity].
    intros [_ [H' | [ev [H' _]]]]; congruence.
  - destruct (Qltb (ev_score ev) (7 # 10)) eqn:Hq;
    destruct (Nat.ltb_spec (refinementAttempts s) 3);
    destruct (0 <? length (retrievedDocuments s)) eqn:Hl; cbn;
    try (left; split; [|reflexivity]; split; [lia|right];
         exists ev; split; [exact Ee|]; split;
         [apply Qltb_spec; exact Hq | apply ltb_length_pos; exact Hl]);
    right; split; try reflexivity;
    intros [H1 [H2 | [ev' [Ee' [H3 H4]]]]]; try congruence; try lia;
    rewrite Ee in Ee'; injection Ee' as <-;
    first [ apply Qltb_spec in H3; congruence
          | apply ltb_length_pos in H4; congruence ].
Qed.

(** C1, as worded: a blank LLM answer with no document retrieved sends the
    first Evaluate back to Refine. *)
Lemma evaluate_transition_claim_fails :
  ~ (forall env s s', exec_node env SelfEvaluation s = inr s' ->
       (next_of SelfEvaluation s' = Goto QueryRefinement <->
        exists sc, evaluationScore s' = Some sc /\ (sc < 7 # 10)%Q /\
          refinementAttempts s' < 3 /\ retrievedDocuments s' <> [])).
Proof.
  intro H.
  pose (s := match after_first_generation env_blank_answer initial_q with
             | inr s => s | inl _ => initial_q end).
  pose (s' := match exec_node env_blank_answer SelfEvaluation s with
              | inr s' => s' | inl _ => s end).
  assert (E : exec_node env_blank_answer SelfEvaluation s = inr s')
    by (vm_compute; reflexivity).
  assert (Hn : next_of SelfEvaluation s' = Goto QueryRefinement)
    by (vm_compute; reflexivity).
  destruct (proj1 (H _ _ _ E) Hn) as [sc [_ [_ [_ Hd]]]].
  apply Hd. vm_compute. reflexivity.
Qed.

(** C2 (as the code bounds it).  Every step returns normally and leaves
    the counter unchanged except Refine, which adds one; every run from a
    fresh state ends normally (within three cycles, below the recursion
    limit) with a final counter between 1 and 3; and an Evaluate step ends
    the run when the score is at least 0.7, when the counter has reached 3,
    or when no document was retrieved and the answer is non-empty; with no
    document and a missing or empty answer, an Evaluate step below the cap
    goes back to Refine. *)
Theorem refinement_loop_bounded :
  (forall env n s, exists s', exec_node env n s = inr s' /\
     refinementAttempts s' =
       match n with QueryRefinement => S (refinementAttempts s) | _ => refinementAttempts s end) /\
  (forall env query role md subj grade,
     exists s, invoke env (createInitialState query role md subj grade) = inr s /\
       1 <= refinementAttempts s <= 3) /\
  (forall env s s', exec_node env SelfEvaluation s = inr s' ->
     (exists sc, evaluationScore s' = Some sc /\ (7 # 10 <= sc)%Q) \/
     3 <= refinementAttempts s' \/
     (retrievedDocuments s' = [] /\ truthy_str (generatedAnswer s') = true) ->
     next_of SelfEvaluation s' = End) /\
  (forall env s s', exec_node env SelfEvaluation s = inr s' ->
     retrievedDocuments s' = [] -> truthy_str (generatedAnswer s') = false ->
     refinementAttempts s' < 3 ->
     next_of SelfEvaluation s' = Goto QueryRefinement).
Proof.
  split; [exact exec_node_attempts|]. split; [|split].
  - intros. apply invoke_completes. reflexivity.
  - intros env s s' E Hc.
    destruct (evaluation_outcome env s s' E) as [Ha [Hd [Hg Hcases]]].
    cbn [next_of]. unfold shouldRefine.
    destruct (Nat.ltb_spec (refinementAttempts s') 3) as [Hlt|Hge];
      [|rewrite andb_false_r; reflexivity].
    rewrite Ha in *.
    destruct Hcases as [[Ht [Hs Hn]] | [[Ht [_ [_ Hn]]] | [Ht [ev [Ee [Hs Hn]]]]]].
    + exfalso. rewrite Hs in Hc. rewrite Hg, Ht in Hc.
      destruct Hc as [[sc [Hsc Hle]] | [Hc | [_ Hc]]]; [|lia|discriminate].
      injection Hsc as <-. apply (Qle_not_lt _ _ Hle). reflexivity.
    + rewrite Hn. reflexivity.
    + rewrite Hn. rewrite Hs, Hd in Hc.
      destruct Hc as [[sc [Hsc Hle]] | [Hc | [Hc _]]]; [|lia|].
      * injection Hsc as <-.
        destruct (Qltb (ev_score ev) (7 # 10)) eqn:Hq; [|reflexivity].
        apply Qltb_spec in Hq. exfalso. exact (Qle_not_lt _ _ Hle Hq).
      * rewrite Hc. rewrite andb_false_r. reflexivity.
  - intros env s s' E _ Hb Hlt.
    destruct (evaluation_outcome env s s' E) as [_ [_ [Hg Hcases]]].
    rewrite Hg in Hb.
    destruct Hcases as [[_ [_ Hn]] | [[Ht _] | [Ht _]]]; [|congruence|congruence].
    cbn [next_of]. unfold shouldRefine. rewrite Hn.
    apply Nat.ltb_lt in Hlt. rewrite Hlt. reflexivity.
Qed.

(** C2, as worded: with no document ever retrieved, the loop still runs
    to the cap when the generated answer is blank. *)
Lemma refinement_loop_claim_fails :
  ~ (forall env s0 s, refinementAttempts s0 = 0 -> invoke env s0 = inr s ->
       (forall k q, env_retrieve env k q = ret []) -> refinementAttempts s = 1).
Proof.
  intro H.
  pose (s := match invoke env_blank_answer initial_q with inr s => s | inl _ => initial_q end).
  assert (E : invoke env_blank_answer initial_q = inr s) by (vm_compute; reflexivity).
  specialize (H env_blank_answer initial_q s eq_refl E (fun _ _ => eq_refl)).
  vm_compute in H. discriminate H.
Qed.

(** C3 (as the code does it).  [executeRAGWorkflow] always returns a
    record.  If building the graph throws, the record has success=false,
    the error message and the apology answer; otherwise the workflow runs to
    its end, and the record reports success exactly when no step recorded
    an error, with the final generated answer. *)
Theorem orchestrator_never_throws (env : Env) (query : string) (role : Role) (md : string)
    (subj : option string) (grade : option Z) :
  exists r, executeRAGWorkflow env query role md subj grade = inr r /\
    ((exists e, env_build env = inl e /\ wr_success r = false /\
       wr_error r = Some (message e) /\ wr_answer r = Some workflow_apology) \/
     (env_build env = inr tt /\
      exists s, invoke env (createInitialState query role md subj grade) = inr s /\
        wr_success r = negb (truthy_str (error s)) /\ wr_answer r = generatedAnswer s)).
Proof.
  destruct (invoke_completes env (createInitialState query role md subj grade) eq_refl)
    as [s [Ei _]].
  unfold executeRAGWorkflow, logAnalytics, try_catch, bind, ret.
  destruct (env_build env) as [e|[]] eqn:Eb.
  - destruct (env_log env LogError 0); eexists; split; try reflexivity;
      left; exists e; repeat split.
  - rewrite Ei. destruct (env_log env LogComplete (refinementAttempts s));
      (eexists; split; [reflexivity|]);
      right; (split; [reflexivity|]); exists s; repeat split.
Qed.

(** C3, as worded: when the retrieval step fails, the record has
    success=false but carries the model's answer, not an apology. *)
Lemma orchestrator_claim_fails :
  ~ (forall env query role md subj grade r,
       executeRAGWorkflow env query role md subj grade = inr r ->
       wr_success r = false ->
       wr_answer r = Some workflow_apology \/ wr_answer r = Some generation_apology).
Proof.
  intro H.
  pose (r := match executeRAGWorkflow env_retrieval_down "What is the capital of France?"
                     Student "research" None None with
             | inr r => r | inl _ => mkWorkflowResult true None None None None None None None None
             end).
  assert (E : executeRAGWorkflow env_retrieval_down "What is the capital of France?"
                Student "research" None None = inr r) by (vm_compute; reflexivity).
  assert (Hs : wr_success r = false) by (vm_compute; reflexivity).
  destruct (H _ _ _ _ _ _ _ E Hs) as [Ha | Ha]; vm_compute in Ha; discriminate Ha.
Qed.

End WorkflowFacts.

(* ======================================================================== *)
(** * Properties of the vector store *)

Module VectorFacts.
Import VectorStore Statements.
Local Open Scope R_scope.

Lemma cos_loop_eq (a b : list R) :
  length a = length b ->
  forall d n m, cos_loop a b d n m = (d + dotp a b, n + sumsq a, m + sumsq b).
Proof.
  revert b; induction a as [|x a IH]; intros [|y b] Hl d n m; cbn in *; try discriminate.
  - f_equal; [f_equal|]; ring.
  - rewrite IH by lia. f_equal; [f_equal|]; ring.
Qed.

Lemma sumsq_nonneg (v : list R) : 0 <= sumsq v.
Proof. induction v as [|x v IH]; cbn; nra. Qed.

Lemma dotp_sym (a b : list R) : dotp a b = dotp b a.
Proof.
  revert b; induction a as [|x a IH]; intros [|y b]; cbn; try reflexivity.
  rewrite IH. ring.
Qed.

Lemma dotp_self (a : list R) : dotp a a = sumsq a.
Proof. induction a as [|x a IH]; cbn; [reflexivity | rewrite IH; reflexivity]. Qed.

(** The cross term of the Lagrange identity is dominated. *)
Lemma cross_term (x y : R) (a b : list R) :
  length a = length b -> 2 * x * y * dotp a b <= x * x * sumsq b + y * y * sumsq a.
Proof.
  revert b; induction a as [|u a IH]; intros [|v b] Hl; cbn in *; try discriminate.
  - lra.
  - assert (Hab : length a = length b) by lia.
    specialize (IH b Hab).
    pose proof (Rle_0_sqr (x * v - y * u)) as Hs. unfold Rsqr in Hs. nra.
Qed.

Lemma cauchy_schwarz (a b : list R) :
  length a = length b -> dotp a b * dotp a b <= sumsq a * sumsq b.
Proof.
  revert b; induction a as [|u a IH]; intros [|v b] Hl; cbn in *; try discriminate.
  - lra.
  - assert (Hab : length a = length b) by lia.
    specialize (IH b Hab).
    pose proof (cross_term u v a b Hab). nra.
Qed.

Lemma sqrt_eq_0_inv (x : R) : 0 <= x -> sqrt x <> 0 -> x <> 0.
Proof. intros _ Hs Hx. apply Hs. rewrite Hx. apply sqrt_0. Qed.

Lemma sqrt_pos_neq (x : R) : sqrt x <> 0 -> 0 < sqrt x.
Proof. intro H. pose proof (sqrt_pos x). destruct (Rdichotomy _ _ H); lra. Qed.

Lemma cos_bound (d A B : R) :
  0 <= A -> 0 <= B -> sqrt A <> 0 -> sqrt B <> 0 -> d * d <= A * B ->
  -1 <= d / (sqrt A * sqrt B) <= 1.
Proof.
  intros HA HB HsA HsB Hd.
  pose proof (sqrt_pos_neq A HsA). pose proof (sqrt_pos_neq B HsB).
  assert (Hp : 0 < sqrt A * sqrt B) by (apply Rmult_lt_0_compat; assumption).
  replace (A * B) with ((sqrt A * sqrt B) * (sqrt A * sqrt B)) in Hd
    by (rewrite <- (sqrt_sqrt A HA) at 3; rewrite <- (sqrt_sqrt B HB) at 3; ring).
  set (p := sqrt A * sqrt B) in *.
  set (c := d / p).
  assert (Hc : d = c * p) by (unfold c; field; lra).
  rewrite Hc in Hd.
  assert (Hcc : c * c <= 1).
  { apply Rmult_le_reg_r with (p * p); [nra|]. nra. }
  split; apply Rnot_lt_le; intro Hlt.
  - assert (0 < -1 - c) by lra. assert (0 < 1 - c) by lra. nra.
  - assert (0 < c - 1) by lra. assert (0 < c + 1) by lra. nra.
Qed.

(** [cosineSimilarity] on vectors of equal length, loop unrolled. *)
Lemma cos_eq (a b : list R) :
  length a = length b ->
  cosineSimilarity a b =
    if Req_dec_T (sqrt (sumsq a)) 0 then ret 0
    else if Req_dec_T (sqrt (sumsq b)) 0 then ret 0
    else ret (dotp a b / (sqrt (sumsq a) * sqrt (sumsq b))).
Proof.
  intro Hl. unfold cosineSimilarity. rewrite Hl, Nat.eqb_refl. cbn [negb].
  rewrite (cos_loop_eq a b Hl). cbv beta iota. rewrite !Rplus_0_l. reflexivity.
Qed.

(** C4 (over the reals).  For vectors of equal length the similarity is
    returned, lies in [-1, 1], is symmetric, and is 0 when either vector
    has norm 0; the similarity of a vector of nonzero norm with itself is
    exactly 1. *)
Theorem cosine_similarity_properties :
  (forall a b : list R, length a = length b ->
     exists c, cosineSimilarity a b = inr c /\ -1 <= c <= 1 /\
       cosineSimilarity b a = inr c /\ (norm a = 0 \/ norm b = 0 -> c = 0)) /\
  (forall a : list R, norm a <> 0 -> cosineSimilarity a a = inr 1).
Proof.
  split.
  - intros a b Hl. rewrite (cos_eq a b Hl), (cos_eq b a (eq_sym Hl)). unfold norm.
    destruct (Req_dec_T (sqrt (sumsq a)) 0) as [Ha|Ha];
    destruct (Req_dec_T (sqrt (sumsq b)) 0) as [Hb|Hb];
    try (exists 0; split; [reflexivity|]; split; [lra|];
         split; [reflexivity | intros _; reflexivity]).
    exists (dotp a b / (sqrt (sumsq a) * sqrt (sumsq b))).
    split; [reflexivity|]. split.
    + apply cos_bound; auto using sumsq_nonneg, cauchy_schwarz.
    + split; [rewrite dotp_sym, (Rmult_comm (sqrt (sumsq b))); reflexivity|].
      intros [H|H]; contradiction.
  - intros a Ha. unfold norm in Ha. rewrite (cos_eq a a eq_refl).
    destruct (Req_dec_T (sqrt (sumsq a)) 0); [contradiction|].
    rewrite dotp_self, sqrt_sqrt by apply sumsq_nonneg.
    unfold ret. f_equal. field.
    exact (sqrt_eq_0_inv _ (sumsq_nonneg a) Ha).
Qed.

Lemma cosine_similarity_properties_witness :
  (length [1; 2] = length [3; 4])%nat /\
  (exists c, cosineSimilarity [1; 2] [3; 4] = inr c /\ -1 <= c <= 1) /\
  norm [1] <> 0 /\ cosineSimilarity [1] [1] = inr 1.
Proof.
  assert (Hn : norm [1] <> 0)
    by (unfold norm; cbn; rewrite Rmult_1_l, Rplus_0_r, sqrt_1; lra).
  split; [reflexivity|]. split.
  - destruct (proj1 cosine_similarity_properties [1; 2] [3; 4] eq_refl) as [c [E [B _]]].
    exists c. split; assumption.
  - split; [exact Hn | exact (proj2 cosine_similarity_properties [1] Hn)].
Defined.

(** C9.  [cosineSimilarity] throws exactly when the lengths differ. *)
Theorem cosine_throws_iff_length_mismatch (a b : list R) :
  (exists e, cosineSimilarity a b = inl e) <-> length a <> length b.
Proof.
  destruct (Nat.eq_dec (length a) (length b)) as [Hl|Hl].
  - rewrite (cos_eq a b Hl). split; [|contradiction]. intros [e E].
    destruct (Req_dec_T (sqrt (sumsq a)) 0); [discriminate|].
    destruct (Req_dec_T (sqrt (sumsq b)) 0); discriminate.
  - assert (Hb := Hl). apply Nat.eqb_neq in Hb.
    unfold cosineSimilarity. rewrite Hb. cbn [negb].
    split; intros _; [exact Hl | exists length_error; reflexivity].
Qed.

End VectorFacts.

Module FloatFacts.
Import Floats.PrimFloat.

(** C4, as worded: in IEEE doubles the similarity of [1; 1; 1] with itself
    is 1.0000000000000002, above 1. *)
Lemma cosine_float_above_one :
  ~ (forall a b : list float, length a = length b ->
       forall c, VectorStoreFloat.cosineSimilarity a b = inr c -> PrimFloat.leb c 1%float = true).
Proof.
  intro H.
  pose (v := [1%float; 1%float; 1%float]).
  pose (c := match VectorStoreFloat.cosineSimilarity v v with inr c => c | inl _ => 0%float end).
  assert (E : VectorStoreFloat.cosineSimilarity v v = inr c) by (vm_compute; reflexivity).
  specialize (H v v eq_refl c E). vm_compute in H. discriminate H.
Qed.

End FloatFacts.

Module RetrievalFacts.
Import VectorStore Statements.
Local Open Scope R_scope.

Section Lists.
Context {A : Type} (rel : A -> A -> Prop).

Lemma ssorted_app_l (l1 l2 : list A) :
  StronglySorted rel (l1 ++ l2) -> StronglySorted rel l1.
Proof.
  induction l1 as [|x l1 IH]; cbn; intro H; [constructor|].
  inversion H as [|? ? Hs Hf]; subst. constructor; [auto|].
  rewrite Forall_forall in *. intros y Hy. apply Hf, in_or_app. left; exact Hy.
Qed.

Lemma ssorted_app_cross (l1 l2 : list A) (x y : A) :
  StronglySorted rel (l1 ++ l2) -> In x l1 -> In y l2 -> rel x y.
Proof.
  induction l1 as [|z l1 IH]; cbn; intros H Hx Hy; [contradiction|].
  inversion H as [|? ? Hs Hf]; subst. destruct Hx as [<-|Hx].
  - rewrite Forall_forall in Hf. apply Hf, in_or_app. right; exact Hy.
  - exact (IH Hs Hx Hy).
Qed.

Lemma in_firstn (k : nat) (x : A) (l : list A) : In x (firstn k l) -> In x l.
Proof. intro H. rewrite <- (firstn_skipn k l). apply in_or_app. left; exact H. Qed.

End Lists.

Lemma forall2_in_r {A B} (P : A -> B -> Prop) (l : list A) (ys : list B) (y : B) :
  Forall2 P l ys -> In y ys -> exists x, In x l /\ P x y.
Proof.
  induction 1 as [|x y' l ys Hxy _ IH]; cbn; [contradiction|].
  intros [<-|Hy]; [exists x; auto|].
  destruct (IH Hy) as [x' [Hx' Hp]]. exists x'; auto.
Qed.

Lemma forall2_in_l {A B} (P : A -> B -> Prop) (l : list A) (ys : list B) (x : A) :
  Forall2 P l ys -> In x l -> exists y, In y ys /\ P x y.
Proof.
  induction 1 as [|x' y l ys Hxy _ IH]; cbn; [contradiction|].
  intros [<-|Hx]; [exists y; auto|].
  destruct (IH Hx) as [y' [Hy' Hp]]. exists y'; auto.
Qed.

Lemma mapM_forall2 {A B} (f : A -> M B) (l : list A) (ys : list B) :
  mapM f l = inr ys -> Forall2 (fun x y => f x = inr y) l ys.
Proof.
  revert ys; induction l as [|x l IH]; cbn; intros ys E.
  - injection E as <-. constructor.
  - unfold bind, ret in E.
    destruct (f x) as [e|y] eqn:Ef; [discriminate|].
    destruct (mapM f l) as [e|ys'] eqn:Em; [discriminate|].
    injection E as <-. constructor; auto.
Qed.

Lemma in_filter_some {A} (x : A) (l : list (option A)) :
  In x (filter_some l) <-> In (Some x) l.
Proof.
  induction l as [|[y|] l IH]; cbn; [tauto| |].
  - rewrite IH. split; intros [H|H];
      [left; congruence | right; exact H | left; congruence | right; exact H].
  - rewrite IH. split; [auto | intros [H|H]; [discriminate | exact H]].
Qed.

Lemma insert_desc_perm (x : Scored) (l : list Scored) : Permutation (insert_desc x l) (x :: l).
Proof.
  induction l as [|y l IH]; cbn; [reflexivity|].
  destruct (Rlt_dec (sc_score y) (sc_score x)); [reflexivity|].
  etransitivity; [apply perm_skip, IH | apply perm_swap].
Qed.

Lemma insert_desc_sorted (x : Scored) (l : list Scored) :
  StronglySorted score_ge l -> StronglySorted score_ge (insert_desc x l).
Proof.
  induction l as [|y l IH]; intro H; cbn.
  - constructor; constructor.
  - inversion H as [|? ? Hs Hf]; subst.
    destruct (Rlt_dec (sc_score y) (sc_score x)) as [Hlt|Hnl].
    + constructor; [exact H|]. constructor; [unfold score_ge; lra|].
      eapply Forall_impl; [|exact Hf]. unfold score_ge; intros z Hz; lra.
    + apply Rnot_lt_le in Hnl. constructor; [apply IH; exact Hs|].
      apply Forall_forall. intros z Hz.
      apply (Permutation_in _ (insert_desc_perm x l)) in Hz.
      destruct Hz as [<-|Hz]; [unfold score_ge; lra|].
      rewrite Forall_forall in Hf. apply Hf; exact Hz.
Qed.

Lemma sort_fold_props (l acc : list Scored) :
  StronglySorted score_ge acc ->
  Permutation (fold_left (fun acc x => insert_desc x acc) l acc) (l ++ acc) /\
  StronglySorted score_ge (fold_left (fun acc x => insert_desc x acc) l acc).
Proof.
  revert acc; induction l as [|x l IH]; intros acc H; cbn; [split; [reflexivity | exact H]|].
  destruct (IH (insert_desc x acc) (insert_desc_sorted x acc H)) as [Hp Hs].
  split; [|exact Hs].
  rewrite Hp, insert_desc_perm. symmetry. apply Permutation_middle.
Qed.

Lemma sort_desc_props (l : list Scored) :
  Permutation (sort_desc l) l /\ StronglySorted score_ge (sort_desc l).
Proof.
  unfold sort_desc. destruct (sort_fold_props l [] (SSorted_nil _)) as [Hp Hs].
  rewrite app_nil_r in Hp. split; assumption.
Qed.

(** What [retrieveDocuments] returns once the query is embedded. *)
Lemma retrieve_spec (qe : list R) (find : M unit) (store : list Chunk) (subj : option string)
    (grade : option Z) (role : RAGWorkflow.Role) (topK : nat) (res : list Scored) :
  retrieveDocuments (ret qe) find store subj grade role topK = inr res ->
  (length (findMany_chunks subj grade role store) <= 100)%nat /\
  (length res <= topK)%nat /\
  StronglySorted score_ge res /\
  (forall x, In x res ->
     exists c, In c (findMany_chunks subj grade role store) /\ score_chunk qe c = inr (Some x)) /\
  (forall c x, In c (findMany_chunks subj grade role store) -> score_chunk qe c = inr (Some x) ->
     In x res \/ forall y, In y res -> sc_score x <= sc_score y).
Proof.
  intro E. unfold retrieveDocuments, try_catch, bind, ret in E. cbv beta iota zeta in E.
  destruct find as [e|[]]; [discriminate|].
  destruct (mapM (score_chunk qe) (findMany_chunks subj grade role store))
    as [e|scored] eqn:Em; [discriminate|].
  injection E as <-.
  pose proof (mapM_forall2 _ _ _ Em) as Hf2.
  destruct (sort_desc_props (filter_some scored)) as [Hp Hs].
  set (sorted := sort_desc (filter_some scored)) in *.
  split; [unfold findMany_chunks; apply firstn_le_length|].
  split; [apply firstn_le_length|].
  split.
  { rewrite <- (firstn_skipn topK sorted) in Hs. exact (ssorted_app_l _ _ _ Hs). }
  split.
  - intros x Hx. apply in_firstn in Hx.
    apply (Permutation_in _ Hp), in_filter_some in Hx.
    destruct (forall2_in_r _ _ _ _ Hf2 Hx) as [c [Hc Hsc]]. exists c; auto.
  - intros c x Hc Hsc.
    destruct (forall2_in_l _ _ _ _ Hf2 Hc) as [y [Hy Hsy]].
    rewrite Hsc in Hsy. injection Hsy as <-.
    apply in_filter_some, (Permutation_in _ (Permutation_sym Hp)) in Hy.
    rewrite <- (firstn_skipn topK sorted) in Hy, Hs.
    apply in_app_or in Hy as [Hy|Hy]; [left; exact Hy|].
    right. intros y' Hy'. exact (ssorted_app_cross _ _ _ _ _ Hs Hy' Hy).
Qed.

Lemma cos_1_m1 : cosineSimilarity [1] [-1] = inr (-1).
Proof.
  unfold cosineSimilarity, ret. cbn [length Nat.eqb negb cos_loop].
  replace (0 + 1 * 1) with 1 by ring.
  replace (0 + -1 * -1) with 1 by ring.
  replace (0 + 1 * -1) with (-1) by ring.
  rewrite sqrt_1. destruct (Req_dec_T 1 0); [lra|].
  f_equal. field.
Qed.

Lemma cos_1_1 : cosineSimilarity [1] [1] = inr 1.
Proof.
  unfold cosineSimilarity, ret. cbn [length Nat.eqb negb cos_loop].
  replace (0 + 1 * 1) with 1 by ring.
  rewrite sqrt_1. destruct (Req_dec_T 1 0); [lra|].
  f_equal. field.
Qed.

Lemma findMany_101 :
  findMany_chunks (Some "math"%string) None RAGWorkflow.Student store_101 =
  map low_chunk (seq 0 100).
Proof. reflexivity. Qed.

Lemma score_low (n : nat) :
  score_chunk [1] (low_chunk n) = inr (Some (mkScored "low" "" (-1) (chunk_metadata (low_chunk n)))).
Proof. unfold score_chunk, low_chunk. cbn [ch_embedding]. rewrite cos_1_m1. reflexivity. Qed.

Lemma mapM_low (l : list nat) :
  mapM (score_chunk [1]) (map low_chunk l) =
  inr (map (fun n => Some (mkScored "low" "" (-1) (chunk_metadata (low_chunk n)))) l).
Proof.
  induction l as [|n l IH]; [reflexivity|].
  cbn [map mapM]. rewrite score_low, IH. reflexivity.
Qed.

(** C10.  Once the query is embedded, [retrieveDocuments] scores only the
    chunks returned by [findMany] (at most 100, the first matching ones in
    store order): the result has at most [topK] entries, in non-increasing
    score order, each one scored from such a chunk, and every scored
    candidate left out scores no higher than anything returned.  With 100
    matching chunks pointing away from the query ahead of a 101st pointing at
    it, that chunk (similarity 1) is never fetched and every returned
    chunk scores lower. *)
Theorem retrieve_best_of_first_100 :
  (forall qe find store subj grade role topK res,
     retrieveDocuments (ret qe) find store subj grade role topK = inr res ->
     (length (findMany_chunks subj grade role store) <= 100)%nat /\
     (length res <= topK)%nat /\
     StronglySorted score_ge res /\
     (forall x, In x res ->
        exists c, In c (findMany_chunks subj grade role store) /\ score_chunk qe c = inr (Some x)) /\
     (forall c x, In c (findMany_chunks subj grade role store) -> score_chunk qe c = inr (Some x) ->
        In x res \/ forall y, In y res -> sc_score x <= sc_score y)) /\
  (exists res hi,
     retrieveDocuments (ret [1]) (ret tt) store_101 (Some "math"%string) None RAGWorkflow.Student 5 = inr res /\
     res <> [] /\
     In high_chunk store_101 /\
     where_matches (Some "math"%string) None RAGWorkflow.Student high_chunk = true /\
     ~ In high_chunk (findMany_chunks (Some "math"%string) None RAGWorkflow.Student store_101) /\
     score_chunk [1] high_chunk = inr (Some hi) /\ sc_score hi = 1 /\
     (forall y, In y res -> sc_score y < sc_score hi)).
Proof.
  split; [exact retrieve_spec|].
  pose (res := firstn 5 (sort_desc (filter_some
                 (map (fun n => Some (mkScored "low" "" (-1) (chunk_metadata (low_chunk n))))
                    (seq 0 100))))).
  assert (E : retrieveDocuments (ret [1]) (ret tt) store_101 (Some "math"%string) None
                RAGWorkflow.Student 5 = inr res).
  { unfold retrieveDocuments, try_catch, bind, ret. cbv beta iota zeta.
    rewrite findMany_101, mapM_low. reflexivity. }
  exists res, (mkScored "high" "" 1 (chunk_metadata high_chunk)).
  split; [exact E|]. split.
  { intro Hres. apply (f_equal (@length _)) in Hres.
    unfold res in Hres. rewrite length_firstn in Hres.
    rewrite (Permutation_length (proj1 (sort_desc_props _))) in Hres.
    vm_compute in Hres. discriminate Hres. }
  split; [apply in_or_app; right; left; reflexivity|].
  split; [reflexivity|].
  split.
  { rewrite findMany_101. intro H. apply in_map_iff in H as [n [Hn _]].
    apply (f_equal ch_id) in Hn. discriminate Hn. }
  split.
  { unfold score_chunk, high_chunk. cbn [ch_embedding]. rewrite cos_1_1. reflexivity. }
  split; [reflexivity|].
  intros y Hy. destruct (retrieve_spec _ _ _ _ _ _ _ _ E) as [_ [_ [_ [Hfrom _]]]].
  destruct (Hfrom y Hy) as [c [Hc Hsc]].
  rewrite findMany_101 in Hc. apply in_map_iff in Hc as [n [<- _]].
  rewrite score_low in Hsc. injection Hsc as <-. cbn. lra.
Qed.

Lemma retrieve_best_of_first_100_witness :
  retrieveDocuments (ret [1]) (ret tt) [] None None RAGWorkflow.Teacher 5 = inr [] /\
  (length (@nil Scored) <= 5)%nat.
Proof.
  assert (E : retrieveDocuments (ret [1]) (ret tt) [] None None RAGWorkflow.Teacher 5 = inr [])
    by reflexivity.
  split; [exact E|].
  exact (proj1 (proj2 (proj1 retrieve_best_of_first_100 _ _ _ _ _ _ _ _ E))).
Defined.

End RetrievalFacts.

(* ======================================================================== *)
(** * Properties of the chunker, the evaluators and the refinement store *)

Module ChunkFacts.
Import DocumentProcessing Statements.

(** C5.  Three sentences of 400 characters with [chunkSize] 1000: the
    sentences are each below the bound, yet the chunker emits a chunk of
    801 characters followed by one of 1203 characters holding all three
    sentences, the overlap carried over is the two previous sentences
    whatever [chunkOverlap] says, and the result does not depend on
    [chunkOverlap] at all. *)
Theorem chunk_exceeds_bound :
  map String.length (sentence_matches three_sentences) = [400; 401; 401] /\
  map (fun c => String.length (co_content c)) (chunkDocument three_sentences 1000 200 "Notes") =
    [801; 1203] /\
  map co_content (chunkDocument three_sentences 1000 200 "Notes") =
    [String.append (sentence400 "A") (String.append " " (sentence400 "B"));
     String.append (sentence400 "A")
       (String.append "  " (String.append (sentence400 "B") (String.append " " (sentence400 "C"))))] /\
  (forall chunkOverlap,
     chunkDocument three_sentences 1000 chunkOverlap "Notes" =
     chunkDocument three_sentences 1000 200 "Notes").
Proof.
  split; [vm_compute; reflexivity|].
  split; [vm_compute; reflexivity|].
  split; [vm_compute; reflexivity|].
  intro; reflexivity.
Qed.

End ChunkFacts.

Module EvaluationFacts.
Import RAGWorkflow SelfEvaluation SelfEvaluationExtra Statements.

Lemma clamp01_compat (x y : Q) : (x == y)%Q -> (clamp01 x == clamp01 y)%Q.
Proof. intro H. unfold clamp01. rewrite H. reflexivity. Qed.

(** The heuristic score equals the closed form. *)
Lemma heuristic_score_closed (query answer : string) (docs : list Doc) (conf : Q) :
  (er_score (heuristicEvaluation query answer docs conf) == fallback_score query answer docs conf)%Q.
Proof.
  unfold heuristicEvaluation, fallback_score, len_adj, kw_adj, doc_adj. cbv zeta.
  destruct ((30 <? answerLength answer) && (answerLength answer <? 500));
  destruct (answerLength answer <? 30);
  destruct (Qltb (3 # 5) (keywordCoverage query answer));
  destruct docs as [|d docs];
  try destruct (Qltb (7 # 10) (AnswerGeneration.sum_scores (d :: docs) / Qnat (length (d :: docs))));
  try destruct (Qltb (AnswerGeneration.sum_scores (d :: docs) / Qnat (length (d :: docs))) (2 # 5));
  cbn [er_score]; apply clamp01_compat; ring.
Qed.
(** When the evaluation call throws, its output holds no [{...}] block, or
    parsing that block throws, [evaluateAnswer] returns the object of
    [heuristicEvaluation]. *)
Lemma evaluate_fallback (llm : M string) (parse : string -> M (JVal * JVal * JVal * JVal))
    (Number : string -> JSNum) (query answer : string) (docs : list Doc) (conf : Q) :
  ((exists e, llm = inl e) \/
   (exists out, llm = inr out /\ json_match out = None) \/
   (exists out j e, llm = inr out /\ json_match out = Some j /\ parse j = inl e)) ->
  evaluateAnswer llm parse Number query answer docs conf =
  inr (of_heuristic (heuristicEvaluation query answer docs conf)).
Proof.
  intros Hfail. unfold evaluateAnswer, try_catch, bind, ret, throw.
  destruct Hfail as [[e ->] | [[out [-> Hj]] | [out [j [e [-> [Hj Hp]]]]]]];
    [| rewrite Hj | rewrite Hj, Hp]; reflexivity.
Qed.

(** An answer of exactly 30 words takes the "too verbose" branch. *)
Lemma thirty_words_verbose (query answer : string) (docs : list Doc) (conf : Q) :
  answerLength answer = 30%nat ->
  In "Answer may be too verbose"%string (er_improvements (heuristicEvaluation query answer docs conf)).
Proof.
  intro H. unfold heuristicEvaluation. rewrite H. cbv zeta.
  change ((30 <? 30) && (30 <? 500)) with false. change (30 <? 30) with false. cbv iota.
  destruct (Qltb (3 # 5) (keywordCoverage query answer)); destruct docs as [|d docs];
    try destruct (Qltb (7 # 10) (AnswerGeneration.sum_scores (d :: docs) / Qnat (length (d :: docs))));
    try destruct (Qltb (AnswerGeneration.sum_scores (d :: docs) / Qnat (length (d :: docs))) (2 # 5));
    cbn [er_improvements app]; left; reflexivity.
Qed.

(** C6 (a bug of the code).  The fallback heuristic is meant to reward an
    answer of 30 to 500 words; the code tests [30 < n < 500], so an answer
    of exactly 30 words takes the "too verbose" branch: its score gets no
    length bonus (0 instead of +0.1 before the 0.7 blend) and the
    improvement "Answer may be too verbose" is reported for it.  For the
    query "word", 30 words, no document and confidence 0 the code scores
    63/200 where the claim gives 77/200. *)
Theorem fallback_thirty_words_verbose :
  (forall (llm : M string) (parse : string -> M (JVal * JVal * JVal * JVal))
          (Number : string -> JSNum) (query : string) (docs : list Doc) (conf : Q)
          (r : EvalOutcome),
     ((exists e, llm = inl e) \/
      (exists out, llm = inr out /\ json_match out = None) \/
      (exists out j e, llm = inr out /\ json_match out = Some j /\ parse j = inl e)) ->
     evaluateAnswer llm parse Number query (words 30) docs conf = inr r ->
     answerLength (words 30) = 30%nat /\
     r = of_heuristic (heuristicEvaluation query (words 30) docs conf) /\
     In "Answer may be too verbose"%string
        (er_improvements (heuristicEvaluation query (words 30) docs conf)) /\
     (er_score (heuristicEvaluation query (words 30) docs conf) ==
      clamp01 (((1 # 2) + kw_adj (keywordCoverage query (words 30)) + doc_adj docs) * (7 # 10)
               + conf * (3 # 10)))%Q) /\
  (exists r q, evaluateAnswer (throw (JSError "timeout")) (fun _ => throw (JSError "timeout"))
                 (fun _ => NaN) "word" (words 30) [] 0 = inr r /\
     eo_score r = Fin q /\ (q == 63 # 200)%Q) /\
  (claimed_fallback_score "word" (words 30) [] 0 == 77 # 200)%Q.
Proof.
  assert (H30 : answerLength (words 30) = 30%nat) by (vm_compute; reflexivity).
  split; [|split].
  - intros llm parse Number query docs conf r Hfail E.
    rewrite (evaluate_fallback llm parse Number query (words 30) docs conf Hfail) in E.
    injection E as <-. split; [exact H30|]. split; [reflexivity|].
    split; [exact (thirty_words_verbose _ _ _ _ H30)|].
    rewrite heuristic_score_closed. unfold fallback_score. rewrite H30.
    change (len_adj 30) with 0%Q. apply clamp01_compat. ring.
  - eexists; eexists. split; [reflexivity|]. split; [reflexivity|]. vm_compute. reflexivity.
  - vm_compute. reflexivity.
Qed.

End EvaluationFacts.

Module RefinementFacts.
Import QueryRefinement Statements.

(** C7 (as the code stores it).  For an attempt number of at least 1,
    [refineQuery] returns normally.  When the history lookup and the
    rewrite call succeed it returns the trimmed rewrite and, if the store
    calls succeed, the store after [upsert]: the usage count of the first
    record matching original and refined query (case-insensitively), mode
    and subject (any subject when it is undefined) is incremented, or a
    record with usage 1 and no score is appended.  When the lookup or the
    rewrite call throws, it returns the original query and the store is
    left unchanged. *)
Theorem refine_persistence (env : RefineEnv) (st : Store) (originalQuery mode : string)
    (subject : option string) (k : nat) :
  1 <= k ->
  refineQuery env st originalQuery mode subject k =
    match re_findMany env, re_llm env with
    | inr _, inr out =>
        inr (Str.trim out,
             match re_db_write env with
             | inr _ => upsert (re_now env) st originalQuery (Str.trim out) mode subject
             | inl _ => st
             end)
    | _, _ => inr (originalQuery, st)
    end.
Proof.
  intro Hk. destruct k as [|k]; [lia|].
  unfold refineQuery, storeRefinementAttempt, try_catch, bind, ret. cbn [Nat.eqb].
  destruct (re_findMany env), (re_llm env), (re_db_write env); reflexivity.
Qed.

Lemma refine_persistence_witness :
  1 <= 1 /\
  refineQuery refine_env_llm_down [] "What is osmosis?" "research" None 1 =
    inr ("What is osmosis?"%string, []).
Proof.
  split; [lia|].
  rewrite (refine_persistence refine_env_llm_down [] "What is osmosis?" "research" None 1);
    [reflexivity | lia].
Defined.

(** C7, as worded: when the rewrite call throws, nothing is persisted. *)
Lemma refine_persistence_claim_fails :
  ~ (forall env st originalQuery mode subject k refined st',
       1 <= k ->
       refineQuery env st originalQuery mode subject k = inr (refined, st') ->
       exists r, In r st' /\ insensitive_eq (rr_originalQuery r) originalQuery = true /\
         rr_mode r = mode /\ rr_subject r = subject).
Proof.
  intro H.
  destruct (H refine_env_llm_down [] "What is osmosis?"%string "research"%string None 1
              "What is osmosis?"%string [] (le_n 1) eq_refl) as [r [Hr _]].
  exact Hr.
Qed.

End RefinementFacts.

Module ConfidenceFacts.
Import RAGWorkflow AnswerGeneration Statements.

Lemma sum_scores_acc_nonneg (docs : list Doc) (acc : Q) :
  (0 <= acc)%Q -> Forall (fun d => 0 <= doc_score d)%Q docs ->
  (0 <= fold_left (fun acc d => acc + doc_score d)%Q docs acc)%Q.
Proof.
  revert acc; induction docs as [|d docs IH]; intros acc Ha Hf; cbn; [exact Ha|].
  inversion Hf; subst. apply IH; [|assumption].
  rewrite <- (Qplus_0_l 0). apply Qplus_le_compat; assumption.
Qed.

Lemma len_or_1_pos {A} (l : list A) : (0 < len_or_1 l)%Q.
Proof.
  unfold len_or_1. destruct (length l) as [|n]; unfold Qlt; cbn; lia.
Qed.

(** C8 (as the code computes it).  The confidence returned by
    [generateAnswer] is [min(avg * 1.2, 1)]: never above 1, and never below
    0 when no input document has a negative score. *)
Theorem confidence_bounds (llm : M string) (docs : list Doc) (r : GenResult) :
  generateAnswer llm docs = inr r ->
  (gr_confidence r <= 1)%Q /\
  (Forall (fun d => 0 <= doc_score d)%Q docs -> (0 <= gr_confidence r)%Q).
Proof.
  unfold generateAnswer, try_catch, bind, ret, throw.
  destruct llm as [e|answer]; intro E; [discriminate|].
  injection E as <-. cbn [gr_confidence]. unfold confidence_of.
  split; [apply Q.le_min_r|].
  intro Hf. apply Q.min_glb; [|unfold Qle; cbn; lia].
  apply Qmult_le_0_compat; [|unfold Qle; cbn; lia].
  unfold avgRelevance, Qdiv. apply Qmult_le_0_compat.
  - apply sum_scores_acc_nonneg; [apply Qle_refl | exact Hf].
  - apply Qinv_le_0_compat. apply Qlt_le_weak, len_or_1_pos.
Qed.

Lemma confidence_bounds_witness :
  generateAnswer (ret "Photosynthesis turns light into chemical energy."%string)
    [mkDoc "c1" "Plants convert light." (Some "Biology"%string) (9 # 10)] =
    inr (mkGenResult "Photosynthesis turns light into chemical energy." (1 # 1)
           ["Biology"%string] 12) /\
  (1 # 1 <= 1)%Q.
Proof.
  assert (E : generateAnswer (ret "Photosynthesis turns light into chemical energy."%string)
                [mkDoc "c1" "Plants convert light." (Some "Biology"%string) (9 # 10)] =
              inr (mkGenResult "Photosynthesis turns light into chemical energy." (1 # 1)
                     ["Biology"%string] 12)) by (vm_compute; reflexivity).
  split; [exact E|].
  exact (proj1 (confidence_bounds _ _ _ E)).
Defined.

(** C8, as worded: a single retrieved chunk with cosine similarity -0.5
    gives confidence -0.6. *)
Lemma confidence_claim_fails :
  ~ (forall llm docs r, generateAnswer llm docs = inr r -> (0 <= gr_confidence r)%Q).
Proof.
  intro H.
  pose (docs := [mkDoc "c1" "Unrelated text." None (- (1 # 2))]).
  pose (r := match generateAnswer (ret "The answer."%string) docs with
             | inr r => r | inl _ => mkGenResult "" 0 [] 0 end).
  assert (E : generateAnswer (ret "The answer."%string) docs = inr r) by (vm_compute; reflexivity).
  specialize (H _ _ _ E).
  vm_compute in H. apply H. reflexivity.
Qed.

End ConfidenceFacts.
(* ======================================================================== *)
(** * Shared list lemmas for the remaining modules *)

Module ListFacts.
Import VectorStore.

(** Insertion into a list sorted by a key, for the insertion sorts of the
    file ([before y x] holds when [x] goes in front of [y]). *)
Section InsertSort.
Context {A : Type} (before : A -> A -> bool) (ge : A -> A -> Prop).
Context (ins : A -> list A -> list A).
Hypothesis ins_nil : forall x, ins x [] = [x].
Hypothesis ins_cons : forall x y l,
  ins x (y :: l) = if before y x then x :: y :: l else y :: ins x l.
Hypothesis before_ge : forall x y, before y x = true -> ge x y.
Hypothesis not_before_ge : forall x y, before y x = false -> ge y x.
Hypothesis ge_trans : forall x y z, ge x y -> ge y z -> ge x z.

Lemma ins_perm (x : A) (l : list A) : Permutation (ins x l) (x :: l).
Proof.
  induction l as [|y l IH]; [rewrite ins_nil; reflexivity|].
  rewrite ins_cons. destruct (before y x); [reflexivity|].
  etransitivity; [apply perm_skip, IH | apply perm_swap].
Qed.

Lemma ins_sorted (x : A) (l : list A) :
  StronglySorted ge l -> StronglySorted ge (ins x l).
Proof.
  induction l as [|y l IH]; intro H.
  - rewrite ins_nil. constructor; constructor.
  - rewrite ins_cons. inversion H as [|? ? Hs Hf]; subst.
    destruct (before y x) eqn:Eb.
    + constructor; [exact H|]. constructor; [apply before_ge; exact Eb|].
      eapply Forall_impl; [|exact Hf]. intros z Hz. eapply ge_trans; [apply before_ge; exact Eb|exact Hz].
    + constructor; [apply IH; exact Hs|].
      apply Forall_forall. intros z Hz.
      apply (Permutation_in _ (ins_perm x l)) in Hz.
      destruct Hz as [<-|Hz]; [apply not_before_ge; exact Eb|].
      rewrite Forall_forall in Hf. apply Hf; exact Hz.
Qed.

Lemma fold_ins_props (l acc : list A) :
  StronglySorted ge acc ->
  Permutation (fold_left (fun acc x => ins x acc) l acc) (l ++ acc) /\
  StronglySorted ge (fold_left (fun acc x => ins x acc) l acc).
Proof.
  revert acc; induction l as [|x l IH]; intros acc H; cbn; [split; [reflexivity | exact H]|].
  destruct (IH (ins x acc) (ins_sorted x acc H)) as [Hp Hs].
  split; [|exact Hs].
  rewrite Hp, ins_perm. symmetry. apply Permutation_middle.
Qed.

Lemma sort_props (l : list A) :
  Permutation (fold_left (fun acc x => ins x acc) l []) l /\
  StronglySorted ge (fold_left (fun acc x => ins x acc) l []).
Proof.
  destruct (fold_ins_props l [] (SSorted_nil _)) as [Hp Hs].
  rewrite app_nil_r in Hp. split; assumption.
Qed.

End InsertSort.

Lemma firstn_ssorted {A} (rel : A -> A -> Prop) (k : nat) (l : list A) :
  StronglySorted rel l -> StronglySorted rel (firstn k l).
Proof.
  intro H. rewrite <- (firstn_skipn k l) in H.
  exact (RetrievalFacts.ssorted_app_l _ _ _ H).
Qed.

Lemma NoDup_firstn' {A} (k : nat) (l : list A) : NoDup l -> NoDup (firstn k l).
Proof.
  intro H. rewrite <- (firstn_skipn k l) in H.
  exact (NoDup_app_remove_r _ _ H).
Qed.

Lemma length_firstn_le {A} (k : nat) (l : list A) : (length (firstn k l) <= k)%nat.
Proof. rewrite length_firstn. lia. Qed.

(** [mapM] throws exactly when the callback throws on some element. *)
Lemma mapM_inl {A B} (f : A -> M B) (l : list A) :
  (exists e, mapM f l = inl e) <-> (exists x e, In x l /\ f x = inl e).
Proof.
  induction l as [|x l IH]; cbn.
  - split; [intros [e E]; discriminate | intros (y & e & [] & _)].
  - unfold bind, ret. destruct (f x) as [e|y] eqn:Ef.
    + split; [intros _; exists x, e; auto | intros _; exists e; reflexivity].
    + destruct (mapM f l) as [e|ys] eqn:Em.
      * split; [|intros _; exists e; reflexivity].
        intros _. destruct (proj1 IH (ex_intro _ e eq_refl)) as (z & e' & Hz & Hf).
        exists z, e'. auto.
      * split; [intros [e E]; discriminate|].
        intros (z & e & [<-|Hz] & Hf); [congruence|].
        destruct (proj2 IH (ex_intro _ z (ex_intro _ e (conj Hz Hf)))) as [e' E']. discriminate.
Qed.

(** Every error [mapM] throws is one the callback throws. *)
Lemma mapM_inl_from {A B} (f : A -> M B) (l : list A) (e : thrown) :
  mapM f l = inl e -> exists x, In x l /\ f x = inl e.
Proof.
  induction l as [|x l IH]; cbn; [discriminate|].
  unfold bind, ret. destruct (f x) as [e'|y] eqn:Ef.
  - intro E. injection E as <-. exists x; auto.
  - destruct (mapM f l) as [e'|ys] eqn:Em; [|discriminate].
    intro E. injection E as <-. destruct (IH eq_refl) as [z [Hz Hf]]. exists z; auto.
Qed.

End ListFacts.

(* ======================================================================== *)
(** * Properties of the rest of vector-store.ts *)

Module VectorStoreFacts.
Import VectorStore VectorStoreExtra DocumentDB Statements.
Local Open Scope R_scope.

Lemma cosine_inl (a b : list R) (e : thrown) :
  cosineSimilarity a b = inl e -> e = length_error /\ length a <> length b.
Proof.
  unfold cosineSimilarity. destruct (Nat.eqb (length a) (length b)) eqn:El; cbn.
  - destruct (cos_loop a b 0 0 0) as [[d na] nb].
    destruct (Req_dec_T (sqrt na) 0); [discriminate|].
    destruct (Req_dec_T (sqrt nb) 0); discriminate.
  - intro E. injection E as <-. split; [reflexivity|]. apply Nat.eqb_neq; exact El.
Qed.

Lemma cosine_inr_of_length (a b : list R) :
  length a = length b -> exists r, cosineSimilarity a b = inr r.
Proof.
  intro Hl. unfold cosineSimilarity. rewrite Hl, Nat.eqb_refl. cbn.
  destruct (cos_loop a b 0 0 0) as [[d na] nb].
  destruct (Req_dec_T (sqrt na) 0); [eexists; reflexivity|].
  destruct (Req_dec_T (sqrt nb) 0); eexists; reflexivity.
Qed.

Lemma score_chunk_inl (qe : list R) (c : Chunk) :
  (exists e, score_chunk qe c = inl e) <->
  (exists emb, ch_embedding c = Some emb /\ length emb <> length qe).
Proof.
  unfold score_chunk. destruct (ch_embedding c) as [emb|].
  - unfold bind, ret. split.
    + intros [e E]. destruct (cosineSimilarity qe emb) as [e'|r] eqn:Ec; [|discriminate].
      destruct (cosine_inl _ _ _ Ec) as [_ Hl]. exists emb; split; [reflexivity|congruence].
    + intros [emb' [E Hl]]. injection E as <-.
      destruct (cosineSimilarity qe emb) as [e'|r] eqn:Ec; [exists e'; reflexivity|].
      exfalso. unfold cosineSimilarity in Ec.
      destruct (Nat.eqb (length qe) (length emb)) eqn:El.
      * apply Nat.eqb_eq in El. congruence.
      * discriminate.
  - split; [intros [e E]; discriminate | intros [emb [E _]]; discriminate].
Qed.

Lemma score_chunk_err (qe : list R) (c : Chunk) (e : thrown) :
  score_chunk qe c = inl e -> e = length_error.
Proof.
  unfold score_chunk. destruct (ch_embedding c) as [emb|]; [|discriminate].
  unfold bind, ret. destruct (cosineSimilarity qe emb) as [e'|r] eqn:Ec; [|discriminate].
  intro E. injection E as <-. exact (proj1 (cosine_inl _ _ _ Ec)).
Qed.

Lemma score_chunk_some (qe : list R) (c : Chunk) (x : Scored) :
  score_chunk qe c = inr (Some x) ->
  sc_id x = ch_id c /\ sc_metadata x = chunk_metadata c /\ sc_content x = ch_content c.
Proof.
  unfold score_chunk. destruct (ch_embedding c) as [emb|]; [|discriminate].
  unfold bind, ret. destruct (cosineSimilarity qe emb) as [e'|r]; [discriminate|].
  intro E. injection E as <-. cbn. auto.
Qed.

Lemma in_findMany (subj : option string) (grade : option Z) (role : RAGWorkflow.Role)
    (store : list Chunk) (c : Chunk) :
  In c (findMany_chunks subj grade role store) -> In c store /\ where_matches subj grade role c = true.
Proof.
  unfold findMany_chunks. intro H. apply RetrievalFacts.in_firstn, filter_In in H. exact H.
Qed.

(** What the [whereClause] of [retrieveDocuments] guarantees of a chunk. *)
Lemma where_matches_spec (subj : option string) (grade : option Z) (role : RAGWorkflow.Role)
    (c : Chunk) :
  where_matches subj grade role c = true ->
  (role = RAGWorkflow.Student -> dm_isPublic (ch_document c) = true) /\
  (truthy_str subj = true -> dm_subject (ch_document c) = subj) /\
  (forall g, grade = Some g -> g <> 0%Z -> dm_gradeLevel (ch_document c) = Some g).
Proof.
  unfold where_matches. intro H. apply andb_prop in H as [H Hr]. apply andb_prop in H as [Hs Hg].
  split; [intros ->; exact Hr|]. split.
  - intro Ht. rewrite Ht in Hs.
    destruct subj as [s|]; [|discriminate].
    destruct (dm_subject (ch_document c)) as [s'|]; [|discriminate].
    apply String.eqb_eq in Hs. congruence.
  - intros g -> Hg0. apply Z.eqb_neq in Hg0. rewrite Hg0 in Hg.
    destruct (dm_gradeLevel (ch_document c)) as [g'|]; [|discriminate].
    apply Z.eqb_eq in Hg. congruence.
Qed.

Lemma retrieve_from_filtered (qe : list R) (find : M unit) (store : list Chunk)
    (subj : option string) (grade : option Z) (role : RAGWorkflow.Role) (topK : nat)
    (res : list Scored) :
  retrieveDocuments (ret qe) find store subj grade role topK = inr res ->
  forall x, In x res ->
    exists c, In c store /\ sc_id x = ch_id c /\ sc_metadata x = chunk_metadata c /\
      (role = RAGWorkflow.Student -> dm_isPublic (ch_document c) = true) /\
      (truthy_str subj = true -> dm_subject (ch_document c) = subj) /\
      (forall g, grade = Some g -> g <> 0%Z -> dm_gradeLevel (ch_document c) = Some g).
Proof.
  intros E x Hx.
  destruct (RetrievalFacts.retrieve_spec _ _ _ _ _ _ _ _ E) as (_ & _ & _ & Hfrom & _).
  destruct (Hfrom x Hx) as [c [Hc Hsc]].
  destruct (in_findMany _ _ _ _ _ Hc) as [Hin Hw].
  destruct (score_chunk_some _ _ _ Hsc) as (Hid & Hmeta & _).
  exists c. split; [exact Hin|]. split; [exact Hid|]. split; [exact Hmeta|].
  exact (where_matches_spec _ _ _ _ Hw).
Qed.

Lemma score_tagged :
  score_chunk [1] tagged_chunk = inr (Some tagged_scored).
Proof. unfold score_chunk, tagged_chunk. cbn [ch_embedding]. rewrite RetrievalFacts.cos_1_1. reflexivity. Qed.

Lemma retrieve_store_2 :
  retrieveDocuments (ret [1]) (ret tt) store_2 (Some "math"%string) (Some 7%Z)
    RAGWorkflow.Student 5 = inr [tagged_scored].
Proof.
  unfold retrieveDocuments, try_catch, bind, ret. cbv beta iota zeta.
  change (findMany_chunks (Some "math"%string) (Some 7%Z) RAGWorkflow.Student store_2)
    with [tagged_chunk; text_chunk].
  cbn [mapM]. rewrite score_tagged. reflexivity.
Qed.

(** X1: every chunk [retrieveDocuments] returns comes from a stored chunk
    that passes its filters: the subject when one is given, the grade level
    when a non-zero one is given, and, for a student, a public document.  It
    carries that chunk's id and the [metadata] object built from it. *)
Theorem retrieve_respects_filters (qe : list R) (find : M unit) (store : list Chunk)
    (subj : option string) (grade : option Z) (role : RAGWorkflow.Role) (topK : nat)
    (res : list Scored) :
  retrieveDocuments (ret qe) find store subj grade role topK = inr res ->
  forall x, In x res ->
    exists c, In c store /\ sc_id x = ch_id c /\ sc_metadata x = chunk_metadata c /\
      (role = RAGWorkflow.Student -> dm_isPublic (ch_document c) = true) /\
      (truthy_str subj = true -> dm_subject (ch_document c) = subj) /\
      (forall g, grade = Some g -> g <> 0%Z -> dm_gradeLevel (ch_document c) = Some g).
Proof. exact (retrieve_from_filtered qe find store subj grade role topK res). Qed.

Lemma retrieve_respects_filters_witness :
  retrieveDocuments (ret [1]) (ret tt) store_2 (Some "math"%string) (Some 7%Z)
    RAGWorkflow.Student 5 = inr [tagged_scored] /\
  forall x, In x [tagged_scored] ->
    exists c, In c store_2 /\ sc_id x = ch_id c /\ sc_metadata x = chunk_metadata c /\
      (RAGWorkflow.Student = RAGWorkflow.Student -> dm_isPublic (ch_document c) = true) /\
      (truthy_str (Some "math"%string) = true -> dm_subject (ch_document c) = Some "math"%string) /\
      (forall g, Some 7%Z = Some g -> g <> 0%Z -> dm_gradeLevel (ch_document c) = Some g).
Proof.
  assert (E : retrieveDocuments (ret [1]) (ret tt) store_2 (Some "math"%string) (Some 7%Z)
                RAGWorkflow.Student 5 = inr [tagged_scored]) by exact retrieve_store_2.
  split; [exact E|]. exact (retrieve_respects_filters _ _ _ _ _ _ _ _ E).
Defined.

(** How the spread builds an object from property definitions. *)
Lemma prop_get_define (k k0 : string) (v0 : Json) (o : list (string * Json)) :
  prop_get k (define_prop k0 v0 o) = if String.eqb k0 k then Some v0 else prop_get k o.
Proof.
  induction o as [|[k' v'] o IH]; cbn; [reflexivity|].
  destruct (String.eqb_spec k' k0) as [->|Hne]; cbn.
  - destruct (String.eqb k0 k); reflexivity.
  - rewrite IH. destruct (String.eqb_spec k' k) as [->|Hk]; [|reflexivity].
    destruct (String.eqb_spec k0 k); [congruence|reflexivity].
Qed.

Lemma in_define_prop (k k' : string) (v : Json) (o : list (string * Json)) :
  In k' (map fst (define_prop k v o)) -> k' = k \/ In k' (map fst o).
Proof.
  induction o as [|[k1 v1] o IH]; cbn; [intros [<-|[]]; left; reflexivity|].
  destruct (String.eqb k1 k); cbn.
  - intros [<-|H]; [right; left; reflexivity | right; right; exact H].
  - intros [<-|H]; [right; left; reflexivity|]. destruct (IH H); auto.
Qed.

Lemma define_prop_nodup (k : string) (v : Json) (o : list (string * Json)) :
  NoDup (map fst o) -> NoDup (map fst (define_prop k v o)).
Proof.
  induction o as [|[k1 v1] o IH]; cbn; intro H; [constructor; [intros []|constructor]|].
  inversion H as [|? ? Hn Hd]; subst.
  destruct (String.eqb_spec k1 k); cbn; constructor; auto.
  intro Hin. apply in_define_prop in Hin as [->|Hin]; [congruence|exact (Hn Hin)].
Qed.

Lemma spread_fold (l : list (string * Json)) (o : list (string * Json)) :
  (NoDup (map fst o) ->
   NoDup (map fst (fold_left (fun o kv => define_prop (fst kv) (snd kv) o) l o))) /\
  forall k, prop_get k (fold_left (fun o kv => define_prop (fst kv) (snd kv) o) l o) =
    match last_prop k l with Some v => Some v | None => prop_get k o end.
Proof.
  revert o; induction l as [|[k0 v0] l IH]; intro o; cbn; [split; [auto|reflexivity]|].
  destruct (IH (define_prop k0 v0 o)) as [H1 H2]. split.
  - intro Hd. apply H1, define_prop_nodup, Hd.
  - intro k. rewrite H2, prop_get_define.
    destruct (last_prop k l); [reflexivity|]. destruct (String.eqb k0 k); reflexivity.
Qed.

Lemma chunk_metadata_props (c : Chunk) :
  NoDup (map fst (chunk_metadata c)) /\
  forall k, prop_get k (chunk_metadata c) =
    match last_prop k (spread_props (ch_metadata c)) with
    | Some v => Some v
    | None => prop_get k (base_metadata c)
    end.
Proof.
  unfold chunk_metadata. destruct (spread_fold (spread_props (ch_metadata c)) (base_metadata c))
    as [H1 H2].
  split; [|exact H2]. apply H1. cbn.
  repeat constructor; cbn; intuition discriminate.
Qed.

(** X29: the [metadata] of every chunk [retrieveDocuments] returns has each
    key once; a key the chunk's stored metadata defines (the last definition
    when it repeats) takes that value, overriding the document's id, title,
    subject, grade level, file URL or the chunk index; every other key is
    read from those document fields. *)
Theorem retrieve_metadata_spread (qe : list R) (find : M unit) (store : list Chunk)
    (subj : option string) (grade : option Z) (role : RAGWorkflow.Role) (topK : nat)
    (res : list Scored) :
  retrieveDocuments (ret qe) find store subj grade role topK = inr res ->
  forall x, In x res ->
    exists c, In c store /\ sc_id x = ch_id c /\
      NoDup (map fst (sc_metadata x)) /\
      forall k, prop_get k (sc_metadata x) =
        match last_prop k (spread_props (ch_metadata c)) with
        | Some v => Some v
        | None => prop_get k (base_metadata c)
        end.
Proof.
  intros E x Hx.
  destruct (retrieve_from_filtered _ _ _ _ _ _ _ _ E x Hx) as (c & Hc & Hid & Hmeta & _).
  exists c. rewrite Hmeta. split; [exact Hc|]. split; [exact Hid|].
  exact (chunk_metadata_props c).
Qed.

Lemma retrieve_metadata_spread_witness :
  retrieveDocuments (ret [1]) (ret tt) store_2 (Some "math"%string) (Some 7%Z)
    RAGWorkflow.Student 5 = inr [tagged_scored] /\
  forall x, In x [tagged_scored] ->
    exists c, In c store_2 /\ sc_id x = ch_id c /\
      NoDup (map fst (sc_metadata x)) /\
      forall k, prop_get k (sc_metadata x) =
        match last_prop k (spread_props (ch_metadata c)) with
        | Some v => Some v
        | None => prop_get k (base_metadata c)
        end.
Proof.
  assert (E : retrieveDocuments (ret [1]) (ret tt) store_2 (Some "math"%string) (Some 7%Z)
                RAGWorkflow.Student 5 = inr [tagged_scored]) by exact retrieve_store_2.
  split; [exact E|]. exact (retrieve_metadata_spread _ _ _ _ _ _ _ _ E).
Defined.

(** X2: once the query is embedded, [retrieveDocuments] throws exactly when
    the [findMany] query fails or one of the (at most 100) candidate chunks
    has a stored embedding whose dimension differs from the query's.  A
    failed query is rethrown as is; otherwise the error is "Vectors must
    have same length": a single such chunk makes the whole retrieval fail. *)
Theorem retrieve_throws_iff_dimension_mismatch (qe : list R) (find : M unit)
    (store : list Chunk) (subj : option string) (grade : option Z)
    (role : RAGWorkflow.Role) (topK : nat) :
  ((exists e, retrieveDocuments (ret qe) find store subj grade role topK = inl e) <->
   (exists e, find = inl e) \/
   (exists c emb, In c (findMany_chunks subj grade role store) /\
      ch_embedding c = Some emb /\ length emb <> length qe)) /\
  (forall e, find = inl e -> retrieveDocuments (ret qe) find store subj grade role topK = inl e) /\
  (find = inr tt ->
   forall e, retrieveDocuments (ret qe) find store subj grade role topK = inl e -> e = length_error).
Proof.
  unfold retrieveDocuments, try_catch, bind, ret. cbv beta iota zeta.
  destruct find as [e0|[]].
  - split; [split; [intros _; left; exists e0; reflexivity | intros _; exists e0; reflexivity]|].
    split; [intros e E; injection E as <-; reflexivity|]. intro E; discriminate E.
  - split; [|split; [intros e E; discriminate E|intros _]].
    + destruct (mapM (score_chunk qe) (findMany_chunks subj grade role store)) as [e|scored] eqn:Em.
      * split; intros _; [|exists e; reflexivity].
        right.
        destruct (proj1 (ListFacts.mapM_inl _ _) (ex_intro _ e Em)) as (c & e' & Hc & Hs).
        destruct (proj1 (score_chunk_inl qe c) (ex_intro _ e' Hs)) as [emb [He Hl]].
        exists c, emb. auto.
      * split; [intros [e E]; discriminate|].
        intros [[e E]|(c & emb & Hc & He & Hl)]; [discriminate|].
        destruct (proj2 (score_chunk_inl qe c) (ex_intro _ emb (conj He Hl))) as [e Hs].
        destruct (proj2 (ListFacts.mapM_inl (score_chunk qe) _)
                    (ex_intro _ c (ex_intro _ e (conj Hc Hs)))) as [e' E']. congruence.
    + destruct (mapM (score_chunk qe) (findMany_chunks subj grade role store)) as [e|scored] eqn:Em.
      * intros e' E. injection E as <-.
        destruct (ListFacts.mapM_inl_from _ _ _ Em) as [c [_ Hs]].
        exact (score_chunk_err _ _ _ Hs).
      * intros e E; discriminate.
Qed.

Lemma mapM_embed (embed : string -> M (list R)) (documentId : string)
    (chunks : list DocumentProcessing.ChunkOut) (rows : list ChunkRow) :
  mapM (embed_chunk embed documentId) chunks = inr rows ->
  map cr_content rows = map DocumentProcessing.co_content chunks /\
  map cr_chunkIndex rows = map DocumentProcessing.co_chunkIndex chunks /\
  Forall (fun r => cr_documentId r = documentId) rows /\
  Forall2 (fun c r => embed (DocumentProcessing.co_content c) = inr (cr_embedding r)) chunks rows.
Proof.
  revert rows; induction chunks as [|c chunks IH]; cbn; intros rows E.
  - injection E as <-. repeat split; constructor.
  - unfold embed_chunk, bind, ret in E.
    destruct (embed (DocumentProcessing.co_content c)) as [e|emb] eqn:Ee; [discriminate|].
    destruct (mapM _ chunks) as [e|rows'] eqn:Em; [discriminate|].
    injection E as <-. destruct (IH rows' eq_refl) as (H1 & H2 & H3 & H4).
    cbn. rewrite H1, H2. repeat split; constructor; auto.
Qed.

Lemma store_chunks_spec (embed : string -> M (list R)) (createMany : M unit)
    (documentId : string) (chunks : list DocumentProcessing.ChunkOut) (db : DB) :
  match storeDocumentChunks embed createMany documentId chunks db with
  | (inl _, db') => db' = db
  | (inr res, db') =>
      sr_success res = true /\ sr_chunksStored res = length chunks /\
      exists rows, db' = {| db_documents := db_documents db; db_chunks := db_chunks db ++ rows |} /\
        map cr_content rows = map DocumentProcessing.co_content chunks /\
        map cr_chunkIndex rows = map DocumentProcessing.co_chunkIndex chunks /\
        Forall (fun r => cr_documentId r = documentId) rows /\
        Forall2 (fun c r => embed (DocumentProcessing.co_content c) = inr (cr_embedding r)) chunks rows
  end.
Proof.
  unfold storeDocumentChunks, dtry, dbind, lift, get, put, dret, dthrow, ret, throw.
  destruct (mapM (embed_chunk embed documentId) chunks) as [e|rows] eqn:Em; [reflexivity|].
  destruct createMany as [e|[]]; cbn; [reflexivity|].
  split; [reflexivity|]. split; [reflexivity|].
  exists rows. split; [reflexivity|]. exact (mapM_embed _ _ _ _ Em).
Qed.

Lemma store_chunks_embed_fail (embed : string -> M (list R)) (createMany : M unit)
    (documentId : string) (chunks : list DocumentProcessing.ChunkOut) (db : DB) :
  ((exists c e, In c chunks /\ embed (DocumentProcessing.co_content c) = inl e) \/
   (exists e, createMany = inl e)) ->
  exists e, fst (storeDocumentChunks embed createMany documentId chunks db) = inl e.
Proof.
  intro H. unfold storeDocumentChunks, dtry, dbind, lift, get, put, dret, dthrow, ret, throw.
  destruct (mapM (embed_chunk embed documentId) chunks) as [e|rows] eqn:Em; [exists e; reflexivity|].
  destruct H as [(c & e' & Hc & He)|[e He]].
  - exfalso.
    destruct (proj2 (ListFacts.mapM_inl (embed_chunk embed documentId) chunks)) as [e'' E''].
    { exists c, e'. split; [exact Hc|]. unfold embed_chunk, bind. rewrite He. reflexivity. }
    congruence.
  - rewrite He. exists e; reflexivity.
Qed.

(** X3: [storeDocumentChunks] writes all or nothing.  When it throws, the
    chunk table is unchanged; this happens in particular whenever the
    embedding call fails for any chunk.  When it succeeds it appends exactly
    one row per chunk, in order, each carrying the document id, the chunk's
    content and index and the embedding computed for that content, and it
    reports [chunksStored] = the number of chunks. *)
Theorem store_chunks_all_or_nothing (embed : string -> M (list R)) (createMany : M unit)
    (documentId : string) (chunks : list DocumentProcessing.ChunkOut) (db : DB) :
  match storeDocumentChunks embed createMany documentId chunks db with
  | (inl _, db') => db' = db
  | (inr res, db') =>
      sr_success res = true /\ sr_chunksStored res = length chunks /\
      exists rows, db' = {| db_documents := db_documents db; db_chunks := db_chunks db ++ rows |} /\
        map cr_content rows = map DocumentProcessing.co_content chunks /\
        map cr_chunkIndex rows = map DocumentProcessing.co_chunkIndex chunks /\
        Forall (fun r => cr_documentId r = documentId) rows /\
        Forall2 (fun c r => embed (DocumentProcessing.co_content c) = inr (cr_embedding r)) chunks rows
  end /\
  ((exists c e, In c chunks /\ embed (DocumentProcessing.co_content c) = inl e) ->
   exists e, fst (storeDocumentChunks embed createMany documentId chunks db) = inl e).
Proof.
  split; [apply store_chunks_spec|].
  intro H. apply store_chunks_embed_fail. left; exact H.
Qed.

(** Facts on the [combinedResults] map. *)
Lemma in_map_set (h h' : Hit) (m : list Hit) : In h' (map_set h m) -> h' = h \/ In h' m.
Proof.
  induction m as [|z m IH]; cbn; [intros [<-|[]]; left; reflexivity|].
  destruct (String.eqb (hit_id z) (hit_id h)); cbn.
  - intros [<-|H]; [left; reflexivity | right; right; exact H].
  - intros [<-|H]; [right; left; reflexivity|]. destruct (IH H) as [H'|H']; auto.
Qed.

Lemma map_set_ids (h : Hit) (m : list Hit) :
  NoDup (map hit_id m) -> NoDup (map hit_id (map_set h m)).
Proof.
  induction m as [|h' m IH]; cbn; intro H; [constructor; [intros []|constructor]|].
  inversion H as [|? ? Hn Hd]; subst.
  destruct (String.eqb (hit_id h') (hit_id h)) eqn:E.
  - apply String.eqb_eq in E. cbn. rewrite <- E. constructor; assumption.
  - cbn. constructor; [|apply IH; exact Hd].
    intro Hin. apply in_map_iff in Hin as [y [Hy Hin]].
    apply in_map_set in Hin as [->|Hin].
    + apply String.eqb_neq in E. congruence.
    + apply Hn. apply in_map_iff. exists y; auto.
Qed.

Lemma map_get_in (k : string) (m : list Hit) (e : Hit) :
  map_get k m = Some e -> In e m /\ hit_id e = k.
Proof.
  unfold map_get. intro H. apply find_some in H as [H1 H2].
  split; [exact H1 | apply String.eqb_eq; exact H2].
Qed.

Lemma add_vector_ids (alpha : R) (rs : list Scored) (m : list Hit) :
  NoDup (map hit_id m) -> NoDup (map hit_id (fold_left (add_vector alpha) rs m)).
Proof.
  revert m; induction rs as [|r rs IH]; cbn; intros m H; [exact H|].
  apply IH. unfold add_vector. apply map_set_ids; exact H.
Qed.

Lemma add_keyword_ids (alpha : R) (cs : list Chunk) (m : list Hit) :
  NoDup (map hit_id m) -> NoDup (map hit_id (fold_left (add_keyword alpha) cs m)).
Proof.
  revert m; induction cs as [|c cs IH]; cbn; intros m H; [exact H|].
  apply IH. unfold add_keyword. destruct (map_get (ch_id c) m); apply map_set_ids; exact H.
Qed.

Lemma sort_hits_props (l : list Hit) :
  Permutation (sort_hits l) l /\
  StronglySorted (fun x y => hit_score y <= hit_score x) (sort_hits l).
Proof.
  apply (ListFacts.sort_props (fun y x => if Rlt_dec (hit_score y) (hit_score x) then true else false)
           (fun x y => hit_score y <= hit_score x) insert_hit).
  - reflexivity.
  - intros x y l'. cbn. destruct (Rlt_dec (hit_score y) (hit_score x)); reflexivity.
  - intros x y. destruct (Rlt_dec (hit_score y) (hit_score x)); [lra|discriminate].
  - intros x y. destruct (Rlt_dec (hit_score y) (hit_score x)) as [H|H]; [discriminate|].
    intros _. apply Rnot_lt_le; exact H.
  - intros x y z. lra.
Qed.

(** X4: a successful [hybridSearch] returns at most [topK] results, no two
    with the same chunk id, in non-increasing order of combined score. *)
Theorem hybrid_results_ranked (queryEmbedding : M (list R)) (vectorFind keywordFind : M unit)
    (store : list Chunk) (query : string) (subj : option string) (grade : option Z)
    (role : RAGWorkflow.Role) (topK : nat) (alpha : R) (res : list Hit) :
  hybridSearch queryEmbedding vectorFind keywordFind store query subj grade role topK alpha = inr res ->
  (length res <= topK)%nat /\ NoDup (map hit_id res) /\
  StronglySorted (fun x y => hit_score y <= hit_score x) res.
Proof.
  unfold hybridSearch, try_catch, bind, ret, throw.
  destruct (retrieveDocuments queryEmbedding vectorFind store subj grade role topK) as [e|vr];
    [discriminate|].
  destruct keywordFind as [e|[]]; [discriminate|].
  intro E. injection E as <-.
  set (combined := fold_left (add_keyword alpha) _ (fold_left (add_vector alpha) vr [])).
  destruct (sort_hits_props combined) as [Hp Hs].
  split; [apply ListFacts.length_firstn_le|]. split.
  - rewrite <- firstn_map. apply ListFacts.NoDup_firstn'.
    apply (Permutation_NoDup (Permutation_map hit_id (Permutation_sym Hp))).
    apply add_keyword_ids, add_vector_ids. constructor.
  - apply ListFacts.firstn_ssorted; exact Hs.
Qed.

Lemma hybrid_store_2 :
  hybridSearch (ret [1]) (ret tt) (ret tt) store_2 "algebra" (Some "math"%string) (Some 7%Z)
    RAGWorkflow.Student 5 (7 / 10) =
  inr [mkHit "tagged" (1 * (7 / 10)) (FromVector tagged_scored);
       mkHit "text" ((1 - 7 / 10) * (1 / 2)) (FromKeyword text_chunk)].
Proof.
  unfold hybridSearch, try_catch, bind. rewrite retrieve_store_2. unfold ret.
  cbv beta iota zeta.
  change (firstn (5 * 2) (filter (keyword_where (hybrid_keywords "algebra") (Some "math"%string)
            RAGWorkflow.Student) store_2)) with [text_chunk].
  unfold sort_hits. cbn. destruct (Rlt_dec (1 * (7 / 10)) ((1 - 7 / 10) * (1 / 2))); [lra|].
  reflexivity.
Qed.

Lemma hybrid_results_ranked_witness :
  hybridSearch (ret [1]) (ret tt) (ret tt) store_2 "algebra" (Some "math"%string) (Some 7%Z)
    RAGWorkflow.Student 5 (7 / 10) =
  inr [mkHit "tagged" (1 * (7 / 10)) (FromVector tagged_scored);
       mkHit "text" ((1 - 7 / 10) * (1 / 2)) (FromKeyword text_chunk)] /\
  let res := [mkHit "tagged" (1 * (7 / 10)) (FromVector tagged_scored);
              mkHit "text" ((1 - 7 / 10) * (1 / 2)) (FromKeyword text_chunk)] in
  (length res <= 5)%nat /\ NoDup (map hit_id res) /\
  StronglySorted (fun x y => hit_score y <= hit_score x) res.
Proof.
  assert (E := hybrid_store_2).
  split; [exact E|]. exact (hybrid_results_ranked _ _ _ _ _ _ _ _ _ _ _ E).
Defined.

Lemma keyword_where_allowed (kws : list string) (subj : option string) (role : RAGWorkflow.Role)
    (c : Chunk) :
  keyword_where kws subj role c = true -> ((role = RAGWorkflow.Student -> dm_isPublic (ch_document c) = true) /\ (truthy_str subj = true -> dm_subject (ch_document c) = subj)).
Proof.
  unfold keyword_where. intro H.
  apply andb_prop in H as [H Hr]. apply andb_prop in H as [_ Hs].
  split; [intros ->; exact Hr|].
  intro Ht. rewrite Ht in Hs.
  destruct subj as [s|]; [|discriminate].
  destruct (dm_subject (ch_document c)) as [s'|]; [|discriminate].
  apply String.eqb_eq in Hs. congruence.
Qed.

Lemma combined_from_store (store : list Chunk) (subj : option string) (role : RAGWorkflow.Role)
    (alpha : R) (vr : list Scored) (kr : list Chunk) :
  (forall r, In r vr -> exists c, In c store /\ sc_id r = ch_id c /\ ((role = RAGWorkflow.Student -> dm_isPublic (ch_document c) = true) /\ (truthy_str subj = true -> dm_subject (ch_document c) = subj))) ->
  (forall c, In c kr -> In c store /\ ((role = RAGWorkflow.Student -> dm_isPublic (ch_document c) = true) /\ (truthy_str subj = true -> dm_subject (ch_document c) = subj))) ->
  forall h, In h (fold_left (add_keyword alpha) kr (fold_left (add_vector alpha) vr [])) ->
    exists c, In c store /\ hit_id h = ch_id c /\ ((role = RAGWorkflow.Student -> dm_isPublic (ch_document c) = true) /\ (truthy_str subj = true -> dm_subject (ch_document c) = subj)).
Proof.
  intros Hv Hk.
  set (P := fun h => exists c, In c store /\ hit_id h = ch_id c /\ ((role = RAGWorkflow.Student -> dm_isPublic (ch_document c) = true) /\ (truthy_str subj = true -> dm_subject (ch_document c) = subj))).
  assert (Hvec : forall m, (forall h, In h m -> P h) ->
                 forall h, In h (fold_left (add_vector alpha) vr m) -> P h).
  { clear Hk. induction vr as [|r vr IH]; cbn; intros m Hm; [exact Hm|].
    apply IH; [intros r' Hr'; apply Hv; right; exact Hr'|].
    intros h Hh. unfold add_vector in Hh. apply in_map_set in Hh as [->|Hh]; [|apply Hm; exact Hh].
    destruct (Hv r (or_introl eq_refl)) as (c & Hc & Hid & Ha). exists c; cbn; auto. }
  assert (Hkw : forall m, (forall h, In h m -> P h) ->
                forall h, In h (fold_left (add_keyword alpha) kr m) -> P h).
  { clear Hv Hvec. induction kr as [|c kr IH]; cbn; intros m Hm; [exact Hm|].
    apply IH; [intros c' Hc'; apply Hk; right; exact Hc'|].
    intros h Hh. unfold add_keyword in Hh.
    destruct (map_get (ch_id c) m) as [ex|] eqn:Eg.
    - apply in_map_set in Hh as [->|Hh]; [|apply Hm; exact Hh].
      destruct (map_get_in _ _ _ Eg) as [Hin _].
      destruct (Hm ex Hin) as (c' & Hc' & Hid & Ha). exists c'; cbn; auto.
    - apply in_map_set in Hh as [->|Hh]; [|apply Hm; exact Hh].
      destruct (Hk c (or_introl eq_refl)) as [Hc Ha]. exists c; cbn; auto. }
  apply Hkw, Hvec. intros h [].
Qed.

(** X5: every result of a successful [hybridSearch] is a stored chunk
    (matched by id) that passes the subject filter when a subject is given
    and, for a student, belongs to a public document; this holds for the
    vector hits and for the keyword hits alike. *)
Theorem hybrid_results_allowed (qe : list R) (vectorFind keywordFind : M unit)
    (store : list Chunk) (query : string) (subj : option string) (grade : option Z)
    (role : RAGWorkflow.Role) (topK : nat) (alpha : R) (res : list Hit) :
  hybridSearch (ret qe) vectorFind keywordFind store query subj grade role topK alpha = inr res ->
  forall h, In h res ->
    exists c, In c store /\ hit_id h = ch_id c /\
      (role = RAGWorkflow.Student -> dm_isPublic (ch_document c) = true) /\
      (truthy_str subj = true -> dm_subject (ch_document c) = subj).
Proof.
  unfold hybridSearch, try_catch, bind, throw.
  destruct (retrieveDocuments (ret qe) vectorFind store subj grade role topK) as [e|vr] eqn:Er;
    [discriminate|].
  destruct keywordFind as [e|[]]; [discriminate|].
  intro E. unfold ret in E. injection E as <-. intros h Hh.
  apply RetrievalFacts.in_firstn in Hh.
  apply (Permutation_in _ (proj1 (sort_hits_props _))) in Hh.
  apply (combined_from_store store subj role alpha vr _) in Hh; [exact Hh| |].
  - intros r Hr.
    destruct (retrieve_from_filtered _ _ _ _ _ _ _ _ Er r Hr) as (c & Hc & Hid & _ & Hpub & Hsub & _).
    exists c. split; [exact Hc|]. split; [exact Hid|]. split; assumption.
  - intros c Hc. apply RetrievalFacts.in_firstn, filter_In in Hc as [Hc Hw].
    split; [exact Hc|]. exact (keyword_where_allowed _ _ _ _ Hw).
Qed.

Lemma hybrid_results_allowed_witness :
  hybridSearch (ret [1]) (ret tt) (ret tt) store_2 "algebra" (Some "math"%string) (Some 7%Z)
    RAGWorkflow.Student 5 (7 / 10) =
  inr [mkHit "tagged" (1 * (7 / 10)) (FromVector tagged_scored);
       mkHit "text" ((1 - 7 / 10) * (1 / 2)) (FromKeyword text_chunk)] /\
  forall h, In h [mkHit "tagged" (1 * (7 / 10)) (FromVector tagged_scored);
                  mkHit "text" ((1 - 7 / 10) * (1 / 2)) (FromKeyword text_chunk)] ->
    exists c, In c store_2 /\ hit_id h = ch_id c /\
      (RAGWorkflow.Student = RAGWorkflow.Student -> dm_isPublic (ch_document c) = true) /\
      (truthy_str (Some "math"%string) = true -> dm_subject (ch_document c) = Some "math"%string).
Proof.
  assert (E := hybrid_store_2).
  split; [exact E|]. exact (hybrid_results_allowed _ _ _ _ _ _ _ _ _ _ _ E).
Defined.

End VectorStoreFacts.

(* ======================================================================== *)
(** * Properties of the rest of document-processing.ts *)

Module DocumentFacts.
Import DocumentProcessing DocumentProcessingExtra DocumentDB.

(** The invariant of the [for] loop of [chunkDocument]: the chunks pushed so
    far are numbered [0 .. chunkIndex - 1], are non-empty and carry the
    document title. *)
Lemma chunk_loop_inv (sentences : list string) (chunkSize : nat) (title : string) :
  forall rest i cur idx chunks,
  map co_chunkIndex chunks = seq 0 idx ->
  Forall (fun c => nonempty (co_content c) = true /\ co_documentTitle c = title) chunks ->
  let '(chunks', _, idx') := chunk_loop sentences chunkSize title i rest cur idx chunks in
  map co_chunkIndex chunks' = seq 0 idx' /\
  Forall (fun c => nonempty (co_content c) = true /\ co_documentTitle c = title) chunks'.
Proof.
  induction rest as [|raw rest IH]; intros i cur idx chunks Hi Hf; cbn; [split; assumption|].
  destruct (_ <=? chunkSize); [apply IH; assumption|].
  destruct (nonempty cur) eqn:En; apply IH; try assumption.
  - rewrite map_app, Hi, seq_S. reflexivity.
  - apply Forall_app. split; [exact Hf|]. constructor; [|constructor]. cbn. split; [exact En|reflexivity].
Qed.

Lemma chunk_document_props (text : string) (chunkSize chunkOverlap : nat) (title : string) :
  let chunks := chunkDocument text chunkSize chunkOverlap title in
  map co_chunkIndex chunks = seq 0 (length chunks) /\
  Forall (fun c => nonempty (co_content c) = true /\ co_documentTitle c = title) chunks.
Proof.
  unfold chunkDocument.
  set (sentences := match sentence_matches text with [] => [text] | l => l end).
  pose proof (chunk_loop_inv sentences chunkSize title sentences 0 "" 0 [] eq_refl (Forall_nil _)) as H.
  destruct (chunk_loop sentences chunkSize title 0 sentences "" 0 []) as [[chunks cur] idx].
  destruct H as [Hi Hf].
  assert (Hl : length chunks = idx) by (rewrite <- (length_map co_chunkIndex), Hi; apply length_seq).
  destruct (nonempty cur) eqn:En; cbn zeta.
  - rewrite map_app, Hi, length_app, Hl. cbn. rewrite Nat.add_1_r, seq_S. split; [reflexivity|].
    apply Forall_app. split; [exact Hf|]. constructor; [|constructor]. cbn. split; [exact En|reflexivity].
  - rewrite Hi, Hl. split; [reflexivity|exact Hf].
Qed.

(** X7: the chunks of [chunkDocument] are numbered [0, 1, 2, ...] in
    order, none of them is empty, and each carries the document title. *)
Theorem chunk_document_indices (text : string) (chunkSize chunkOverlap : nat) (title : string) :
  map co_chunkIndex (chunkDocument text chunkSize chunkOverlap title) =
    seq 0 (length (chunkDocument text chunkSize chunkOverlap title)) /\
  Forall (fun c => co_content c <> ""%string /\ co_documentTitle c = title)
    (chunkDocument text chunkSize chunkOverlap title).
Proof.
  destruct (chunk_document_props text chunkSize chunkOverlap title) as [Hi Hf].
  split; [exact Hi|].
  eapply Forall_impl; [|exact Hf]. intros c [Hn Ht]. split; [|exact Ht].
  unfold nonempty in Hn. intro E. rewrite E in Hn. discriminate.
Qed.

(** X8: a text in which [/[^.!?]+[.!?]+/g] finds no sentence is handled as
    one sentence: with [t] its trimmed form, the result is no chunk when [t]
    is empty and fits, the single chunk [t] when [" " + t] fits in
    [chunkSize], and otherwise the single chunk [" " + t], however long. *)
Theorem chunk_document_no_sentence (text : string) (chunkSize chunkOverlap : nat) (title : string) :
  sentence_matches text = [] ->
  map co_content (chunkDocument text chunkSize chunkOverlap title) =
    if S (String.length (Str.trim text)) <=? chunkSize then
      (if nonempty (Str.trim text) then [Str.trim text] else [])
    else [String.append " " (Str.trim text)].
Proof.
  intro H. unfold chunkDocument. rewrite H. cbn [chunk_loop].
  assert (Hl : String.length (String.append "" (String.append " " (Str.trim text))) =
               S (String.length (Str.trim text))) by reflexivity.
  rewrite Hl. destruct (S (String.length (Str.trim text)) <=? chunkSize); cbn.
  - destruct (nonempty (Str.trim text)); reflexivity.
  - reflexivity.
Qed.

Lemma chunk_document_no_sentence_witness :
  sentence_matches "  no terminator here  " = [] /\
  map co_content (chunkDocument "  no terminator here  " 1000 200 "Notes") =
    (if S (String.length (Str.trim "  no terminator here  ")) <=? 1000 then
      (if nonempty (Str.trim "  no terminator here  ") then [Str.trim "  no terminator here  "] else [])
    else [String.append " " (Str.trim "  no terminator here  ")]).
Proof.
  assert (H : sentence_matches "  no terminator here  " = []) by reflexivity.
  split; [exact H|]. exact (chunk_document_no_sentence _ _ _ _ H).
Defined.

Lemma renumber_props (subChunks : list ChunkOut) (k : nat) :
  length (renumber subChunks k) = length subChunks /\
  map sm_chunkIndex (renumber subChunks k) = seq k (length subChunks) /\
  map sm_content (renumber subChunks k) = map co_content subChunks /\
  Forall (fun c => exists t i s e, sm_metadata c = ChunkMeta t i s e) (renumber subChunks k).
Proof.
  revert k; induction subChunks as [|sc l IH]; intro k; cbn; [repeat split; constructor|].
  destruct (IH (S k)) as (H1 & H2 & H3 & H4).
  rewrite H1, H2, H3. repeat split; constructor; [do 4 eexists; reflexivity | exact H4].
Qed.

Lemma semantic_loop_props (title : string) (sections : list string) :
  forall k,
  map sm_chunkIndex (semantic_loop title sections k) = seq k (length (semantic_loop title sections k)) /\
  Forall (fun c => sm_content c <> ""%string /\
                   match sm_metadata c with
                   | SectionMeta t i => t = title /\ i = sm_chunkIndex c /\
                       50 <= String.length (sm_content c) <= 1500
                   | ChunkMeta t i st en => t = title /\
                       exists sec sc, In sec sections /\
                         1500 < String.length (Str.trim sec) /\
                         In sc (chunkDocument (Str.trim sec) 1000 200 title) /\
                         sm_content c = co_content sc /\ i = co_chunkIndex sc /\
                         st = co_sentenceStart sc /\ en = co_sentenceEnd sc
                   end) (semantic_loop title sections k).
Proof.
  induction sections as [|section rest IH]; intro k; cbn [semantic_loop]; cbv zeta; [split; [reflexivity|constructor]|].
  assert (W : forall l : list SemChunk,
  Forall (fun c => sm_content c <> ""%string /\
                       match sm_metadata c with
                       | SectionMeta t i => t = title /\ i = sm_chunkIndex c /\
                           50 <= String.length (sm_content c) <= 1500
                       | ChunkMeta t i st en => t = title /\
                           exists sec sc, In sec rest /\
                             1500 < String.length (Str.trim sec) /\
                             In sc (chunkDocument (Str.trim sec) 1000 200 title) /\
                             sm_content c = co_content sc /\ i = co_chunkIndex sc /\
                             st = co_sentenceStart sc /\ en = co_sentenceEnd sc
                       end) l ->
  Forall (fun c => sm_content c <> ""%string /\
                       match sm_metadata c with
                       | SectionMeta t i => t = title /\ i = sm_chunkIndex c /\
                           50 <= String.length (sm_content c) <= 1500
                       | ChunkMeta t i st en => t = title /\
                           exists sec sc, In sec (section :: rest) /\
                             1500 < String.length (Str.trim sec) /\
                             In sc (chunkDocument (Str.trim sec) 1000 200 title) /\
                             sm_content c = co_content sc /\ i = co_chunkIndex sc /\
                             st = co_sentenceStart sc /\ en = co_sentenceEnd sc
                       end) l).
  { intro l. apply Forall_impl. intros c [Hn Hm]. split; [exact Hn|].
    destruct (sm_metadata c); [|exact Hm].
    destruct Hm as [Ht (sec & sc & Hs & Hr)]. split; [exact Ht|].
    exists sec, sc. split; [right; exact Hs|exact Hr]. }
  match goal with |- context [if ?b then _ else _] => destruct b eqn:Eskip end.
  { destruct (IH k) as [Hi Hf]. split; [exact Hi|]. apply W, Hf. }
  apply orb_false_iff in Eskip as [En Elt]. first [apply Nat.ltb_ge in Elt | apply Nat.leb_gt in Elt].
  match goal with |- context [if ?b then _ else _] => destruct b eqn:Ebig end.
  - set (subChunks := chunkDocument (Str.trim section) 1000 200 title).
    destruct (renumber_props subChunks k) as (H1 & H2 & H3 & H4).
    destruct (IH (k + length subChunks)) as [Hi Hf].
    rewrite map_app, H2, Hi, length_app, H1, seq_app. split; [reflexivity|].
    apply Forall_app. split; [|apply W, Hf].
    destruct (chunk_document_props (Str.trim section) 1000 200 title) as [_ Hc].
    fold subChunks in Hc.
    assert (Hr : forall c, In c (renumber subChunks k) ->
                 exists sc, In sc subChunks /\ sm_content c = co_content sc /\
                   sm_metadata c = ChunkMeta (co_documentTitle sc) (co_chunkIndex sc)
                                     (co_sentenceStart sc) (co_sentenceEnd sc)).
    { clear. generalize k. induction subChunks as [|sc l IHl]; intros j c; cbn; [intros []|].
      intros [<-|Hc]; [exists sc; cbn; auto|].
      destruct (IHl (S j) c Hc) as (sc' & Hin & E1 & E2). exists sc'; auto. }
    apply Forall_forall. intros c Hin. destruct (Hr c Hin) as (sc & Hsc & E1 & E2).
    rewrite Forall_forall in Hc. destruct (Hc sc Hsc) as [Hn Ht].
    rewrite E2. split.
    + rewrite E1. unfold nonempty in Hn. intro E. rewrite E in Hn. discriminate.
    + split; [exact Ht|]. exists section, sc. split; [left; reflexivity|].
      split; [apply Nat.ltb_lt; exact Ebig|]. split; [exact Hsc|]. auto.
  - first [apply Nat.ltb_ge in Ebig | apply Nat.leb_gt in Ebig].
    destruct (IH (S k)) as [Hi Hf]. cbn. rewrite Hi. split; [reflexivity|].
    constructor; [|apply W, Hf]. cbn. split; [|repeat split; lia].
    unfold nonempty in En. intro E. rewrite E in En. discriminate.
Qed.

(** X9: [semanticChunkDocument] numbers its chunks [0, 1, 2, ...] in order
    across sections; no chunk is empty; a whole-section chunk is between 50
    and 1500 characters long and its metadata carries its own index and the
    title; a sub-chunk comes from a section [sec] longer than 1500 characters
    (after trimming) and is a chunk [chunkDocument] made of it with the same
    content, whose metadata (title, [chunkIndex], [sentenceStart],
    [sentenceEnd]) it keeps. *)
Theorem semantic_chunks_numbered (text title : string) :
  map sm_chunkIndex (semanticChunkDocument text title) =
    seq 0 (length (semanticChunkDocument text title)) /\
  Forall (fun c => sm_content c <> ""%string /\
                   match sm_metadata c with
                   | SectionMeta t i => t = title /\ i = sm_chunkIndex c /\
                       50 <= String.length (sm_content c) <= 1500
                   | ChunkMeta t i st en => t = title /\
                       exists sec sc, In sec (split_sections text) /\
                         1500 < String.length (Str.trim sec) /\
                         In sc (chunkDocument (Str.trim sec) 1000 200 title) /\
                         sm_content c = co_content sc /\ i = co_chunkIndex sc /\
                         st = co_sentenceStart sc /\ en = co_sentenceEnd sc
                   end) (semanticChunkDocument text title).
Proof. exact (semantic_loop_props title (split_sections text) 0). Qed.

(** Characters surviving each [replace] of [cleanText]. *)
Lemma in_collapse_ws (c : ascii) (l : list ascii) (b : bool) :
  In c (collapse_ws l b) -> c = " "%char \/ (In c l /\ Str.is_ws c = false).
Proof.
  revert b; induction l as [|x l IH]; intros b; cbn; [intros []|].
  destruct (Str.is_ws x) eqn:Ew; [destruct b|].
  - intro H. destruct (IH true H) as [H'|[H' H'']]; auto.
  - intros [<-|H]; [left; reflexivity|]. destruct (IH true H) as [H'|[H' H'']]; auto.
  - intros [<-|H]; [right; auto|]. destruct (IH false H) as [H'|[H' H'']]; auto.
Qed.

Lemma in_take_digits (c : ascii) (l : list ascii) :
  In c (snd (take_digits l)) -> In c l.
Proof.
  induction l as [|x l IH]; cbn; [intros []|].
  destruct (is_digit x); [|auto].
  destruct (take_digits l) as [d r] eqn:E. cbn in *. auto.
Qed.

Lemma page_match_suffix (prev : option ascii) (l rest : list ascii) (lc : ascii) (c : ascii) :
  page_match prev l = Some (rest, lc) -> In c rest -> In c l.
Proof.
  unfold page_match. destruct (match prev with Some p => is_word p | None => false end); [discriminate|].
  destruct l as [|p [|a [|g [|e [|sp rest0]]]]]; try discriminate.
  destruct (_ && _); [|discriminate].
  pose proof (in_take_digits c rest0) as Ht.
  destruct (take_digits rest0) as [digits after]. destruct digits as [|d ds]; [discriminate|].
  destruct (match after with c :: _ => is_word c | [] => false end); [discriminate|].
  intros E Hc. injection E as <- _. cbn in Ht. right; right; right; right; right. auto.
Qed.

Lemma in_strip_pages (c : ascii) (fuel : nat) (prev : option ascii) (l : list ascii) :
  In c (strip_pages fuel prev l) -> In c l.
Proof.
  revert prev l; induction fuel as [|fuel IH]; intros prev l; cbn; [auto|].
  destruct l as [|x l']; [intros []|].
  destruct (page_match prev (x :: l')) as [[rest lc]|] eqn:Ep.
  - intro H. apply (page_match_suffix prev (x :: l') rest lc c Ep). eapply IH; exact H.
  - intros [<-|H]; [left; reflexivity|right; eapply IH; exact H].
Qed.

Lemma in_collapse_special (c : ascii) (fuel : nat) (l : list ascii) :
  In c (collapse_special fuel l) -> In c l.
Proof.
  revert l; induction fuel as [|fuel IH]; intros l; cbn; [auto|].
  destruct l as [|x l']; [intros []|].
  destruct (_ && _ && _).
  - intros [<-|H]; [left; reflexivity|right].
    apply IH in H. rewrite <- (firstn_skipn (run_len x l') l'). apply in_or_app; right; exact H.
  - intros [<-|H]; [left; reflexivity|right; eapply IH; exact H].
Qed.

(** What [String.prototype.trim] keeps. *)
Lemma drop_ws_suffix (l : list ascii) : exists p, l = p ++ Str.drop_ws l.
Proof.
  induction l as [|x l IH]; cbn; [exists []; reflexivity|].
  destruct (Str.is_ws x); [destruct IH as [p Hp]; exists (x :: p); cbn; congruence|exists []; reflexivity].
Qed.

Lemma drop_ws_head (l : list ascii) :
  match Str.drop_ws l with [] => True | c :: _ => Str.is_ws c = false end.
Proof.
  induction l as [|x l IH]; cbn; [exact I|]. destruct (Str.is_ws x) eqn:E; [exact IH|exact E].
Qed.

Lemma trim_props (l : list ascii) :
  let r := rev (Str.drop_ws (rev (Str.drop_ws l))) in
  (forall c, In c r -> In c l) /\
  match r with [] => True | c :: _ => Str.is_ws c = false end /\
  match rev r with [] => True | c :: _ => Str.is_ws c = false end.
Proof.
  cbv zeta.
  set (m := Str.drop_ws l). set (d := Str.drop_ws (rev m)).
  destruct (drop_ws_suffix l) as [p1 Hp1]. fold m in Hp1.
  destruct (drop_ws_suffix (rev m)) as [p2 Hp2]. fold d in Hp2.
  assert (Hm : m = rev d ++ rev p2) by (rewrite <- rev_app_distr, <- Hp2, rev_involutive; reflexivity).
  split; [|split].
  - intros c Hc. rewrite Hp1. apply in_or_app; right. rewrite Hm. apply in_or_app; left; exact Hc.
  - pose proof (drop_ws_head l) as Hh. fold m in Hh. rewrite Hm in Hh.
    destruct (rev d); [exact I|exact Hh].
  - rewrite rev_involutive. exact (drop_ws_head (rev m)).
Qed.

(** X10: the output of [cleanText] has no whitespace character other than
    the plain space, and neither starts nor ends with whitespace. *)
Theorem clean_text_whitespace (text : string) :
  let out := list_ascii_of_string (cleanText text) in
  (forall c, In c out -> Str.is_ws c = true -> c = " "%char) /\
  match out with [] => True | c :: _ => Str.is_ws c = false end /\
  match rev out with [] => True | c :: _ => Str.is_ws c = false end.
Proof.
  cbv zeta. unfold cleanText, Str.trim. rewrite list_ascii_of_string_of_list_ascii.
  set (l1 := collapse_ws (list_ascii_of_string text) false).
  set (l2 := strip_pages (length l1) None l1).
  set (l3 := collapse_special (length l2) l2).
  rewrite list_ascii_of_string_of_list_ascii.
  destruct (trim_props l3) as (Hin & Hh & Ht). split; [|split; assumption].
  intros c Hc Hw. apply Hin, in_collapse_special, in_strip_pages, in_collapse_ws in Hc.
  destruct Hc as [Hc|[_ Hc]]; [exact Hc|congruence].
Qed.




(** X12: [processDocument] has no rollback: when the document row has been
    created and storing the chunks then fails (an embedding call or the
    chunk insert throws), the call throws but the new document stays in the
    table, with no chunk. *)
Theorem process_document_orphan (pe : ProcessEnv) (fileType : string) (md : DocumentMetadata)
    (db : DB) (text : string) :
  extractText pe fileType = inr text ->
  pe_createDoc pe = inr tt ->
  (exists c e, In c (chunkDocument (cleanText text) 1000 200 (md_title md)) /\
     pe_embed pe (co_content c) = inl e) \/ (exists e, pe_createMany pe = inl e) ->
  exists e, processDocument pe fileType md db =
    (inl e, {| db_documents := db_documents db ++ [new_document pe md]; db_chunks := db_chunks db |}).
Proof.
  intros Hx Hc Hf.
  unfold processDocument, createDocument, dtry, dbind, lift, get, put, dret, dthrow, ret, throw.
  rewrite Hx, Hc. cbn -[VectorStoreExtra.storeDocumentChunks chunkDocument cleanText].
  match goal with |- context [VectorStoreExtra.storeDocumentChunks ?a ?b ?c ?d ?z] =>
    pose proof (VectorStoreFacts.store_chunks_spec a b c d z) as Hs;
    pose proof (VectorStoreFacts.store_chunks_embed_fail a b c d z Hf) as [e He];
    destruct (VectorStoreExtra.storeDocumentChunks a b c d z) as [[e'|sr] db2]; [|discriminate] end.
  rewrite Hs. eexists; reflexivity.
Qed.

Lemma process_document_orphan_witness :
  let pe := {| pe_pdf := ret ""%string; pe_docx := ret ""%string;
               pe_utf8 := "Photosynthesis makes sugar."%string;
               pe_embed := fun _ => ret []; pe_createDoc := ret tt; pe_newId := "doc1"%string;
               pe_now := 0; pe_createMany := throw (JSError "connection lost") |} in
  let md := {| md_title := "Biology"%string; md_description := None;
               md_subject := Some "science"%string; md_gradeLevel := Some 7%Z; md_classId := None;
               md_uploadedBy := "t1"%string; md_isPublic := true |} in
  extractText pe "text/plain" = inr "Photosynthesis makes sugar."%string /\
  pe_createDoc pe = inr tt /\
  exists e, processDocument pe "text/plain" md {| db_documents := []; db_chunks := [] |} =
    (inl e, {| db_documents := [] ++ [new_document pe md]; db_chunks := [] |}).
Proof.
  intros pe md.
  assert (H1 : extractText pe "text/plain" = inr "Photosynthesis makes sugar."%string) by reflexivity.
  assert (H2 : pe_createDoc pe = inr tt) by reflexivity.
  split; [exact H1|]. split; [exact H2|].
  exact (process_document_orphan pe "text/plain" md {| db_documents := []; db_chunks := [] |}
           _ H1 H2 (or_intror (ex_intro _ (JSError "connection lost") eq_refl))).
Defined.

Lemma findUnique_some (db : DB) (documentId : string) (d : AIDocument) :
  findUnique db documentId = Some d -> In d (db_documents db) /\ ad_id d = documentId.
Proof.
  unfold findUnique. intro H. apply find_some in H as [H1 H2].
  split; [exact H1|apply String.eqb_eq; exact H2].
Qed.

Lemma findUnique_none_filter (l : list AIDocument) (documentId : string) :
  find (fun d => String.eqb (ad_id d) documentId)
       (filter (fun d => negb (String.eqb (ad_id d) documentId)) l) = None.
Proof.
  induction l as [|d l IH]; cbn; [reflexivity|].
  destruct (String.eqb (ad_id d) documentId) eqn:E; cbn; [exact IH|rewrite E; exact IH].
Qed.

(** X13: [deleteDocument] only deletes a document of the caller.  A missing
    document fails with "Document not found" and another user's with
    "Unauthorized to delete this document", both leaving the database
    unchanged, as does every other failure.  A success removes exactly the
    document and its chunks: afterwards no document has that id and no
    chunk points to it. *)
Theorem delete_document_ownership (findOk deleteOk : M unit) (documentId userId : string) (db : DB) :
  match deleteDocument findOk deleteOk documentId userId db with
  | (inr b, db') =>
      b = true /\
      (exists d, findUnique db documentId = Some d /\ ad_uploadedBy d = userId) /\
      db' = {| db_documents := filter (fun d => negb (String.eqb (ad_id d) documentId)) (db_documents db);
               db_chunks := filter (fun c => negb (String.eqb (cr_documentId c) documentId)) (db_chunks db) |} /\
      findUnique db' documentId = None /\
      (forall c, In c (db_chunks db') -> cr_documentId c <> documentId)
  | (inl _, db') => db' = db
  end /\
  (findOk = inr tt -> findUnique db documentId = None ->
   deleteDocument findOk deleteOk documentId userId db = (inl (JSError "Document not found"), db)) /\
  (forall d, findOk = inr tt -> findUnique db documentId = Some d -> ad_uploadedBy d <> userId ->
   deleteDocument findOk deleteOk documentId userId db =
     (inl (JSError "Unauthorized to delete this document"), db)).
Proof.
  unfold deleteDocument, dtry, dbind, lift, get, put, dret, dthrow, ret, throw.
  split; [|split].
  - destruct findOk as [e|[]]; [reflexivity|]. cbv beta iota.
    destruct (findUnique db documentId) as [d|] eqn:Ef; [|reflexivity].
    destruct (String.eqb (ad_uploadedBy d) userId) eqn:Eu; cbn; [|reflexivity].
    destruct deleteOk as [e|[]]; [reflexivity|].
    split; [reflexivity|]. split; [exists d; split; [reflexivity|apply String.eqb_eq; exact Eu]|].
    split; [reflexivity|]. split; [apply findUnique_none_filter|].
    intros c Hc. cbn in Hc. apply filter_In in Hc as [_ Hc].
    intro E. rewrite E, String.eqb_refl in Hc. discriminate.
  - intros -> Ef. cbv beta iota. rewrite Ef. reflexivity.
  - intros d -> Ef Hu. cbv beta iota. rewrite Ef.
    apply String.eqb_neq in Hu. rewrite Hu. reflexivity.
Qed.

(** X14: [updateDocumentMetadata] only updates a document of the caller
    (another user's fails with "Unauthorized to update this document" and
    every failure leaves the database unchanged).  A success returns the
    updated document, which keeps its id, owner, class and creation date;
    the chunks are untouched, and the documents keep their ids and order,
    every document with another id being left as it was. *)
Theorem update_document_ownership (findOk updateOk : M unit) (documentId userId : string)
    (updates : DocumentUpdates) (db : DB) :
  match updateDocumentMetadata findOk updateOk documentId userId updates db with
  | (inr d', db') =>
      exists d, findUnique db documentId = Some d /\ ad_uploadedBy d = userId /\
        d' = apply_doc_updates updates d /\
        ad_id d' = ad_id d /\ ad_uploadedBy d' = ad_uploadedBy d /\
        ad_classId d' = ad_classId d /\ ad_createdAt d' = ad_createdAt d /\
        db_chunks db' = db_chunks db /\
        map ad_id (db_documents db') = map ad_id (db_documents db) /\
        (forall x, In x (db_documents db) -> ad_id x <> documentId -> In x (db_documents db')) /\
        In d' (db_documents db')
  | (inl _, db') => db' = db
  end /\
  (forall d, findOk = inr tt -> findUnique db documentId = Some d -> ad_uploadedBy d <> userId ->
   updateDocumentMetadata findOk updateOk documentId userId updates db =
     (inl (JSError "Unauthorized to update this document"), db)).
Proof.
  unfold updateDocumentMetadata, dtry, dbind, lift, get, put, dret, dthrow, ret, throw.
  split.
  - destruct findOk as [e|[]]; [reflexivity|]. cbv beta iota.
    destruct (findUnique db documentId) as [d|] eqn:Ef; [|reflexivity].
    destruct (String.eqb (ad_uploadedBy d) userId) eqn:Eu; cbn; [|reflexivity].
    destruct updateOk as [e|[]]; [reflexivity|]. cbn [db_documents db_chunks].
    destruct (findUnique_some _ _ _ Ef) as [Hin Hid].
    exists d. split; [reflexivity|]. split; [apply String.eqb_eq; exact Eu|].
    do 5 (split; [reflexivity|]). split; [reflexivity|]. split; [|split].
    + rewrite map_map. apply map_ext. intro x.
      destruct (String.eqb (ad_id x) documentId); reflexivity.
    + intros x Hx Hne. apply in_map_iff. exists x. split; [|exact Hx].
      apply String.eqb_neq in Hne. rewrite Hne. reflexivity.
    + apply in_map_iff. exists d. split; [|exact Hin]. rewrite Hid, String.eqb_refl. reflexivity.
  - intros d -> Ef Hu. cbv beta iota. rewrite Ef.
    apply String.eqb_neq in Hu. rewrite Hu. reflexivity.
Qed.

Lemma sort_created_props (l : list AIDocument) :
  Permutation (sort_created l) l /\
  StronglySorted (fun x y => ad_createdAt y <= ad_createdAt x) (sort_created l).
Proof.
  apply (ListFacts.sort_props (fun y x => ad_createdAt y <? ad_createdAt x)
           (fun x y => ad_createdAt y <= ad_createdAt x) insert_created).
  - reflexivity.
  - reflexivity.
  - intros x y H. apply Nat.ltb_lt in H. lia.
  - intros x y H. apply Nat.ltb_ge in H. lia.
  - intros x y z. lia.
Qed.

(** X15: when the query succeeds, [getUserDocuments] returns exactly the
    documents its filter admits (a teacher or admin sees only their own
    uploads, a student only public documents, and the optional subject,
    grade and class filters apply), newest first, each with its number of
    chunks; when the query fails it returns an empty list instead of
    throwing. *)
Theorem user_documents_visibility (findOk : M unit) (db : DB) (userId : string) (userRole : UserRole)
    (filters : option DocFilters) :
  match findOk with
  | inl _ => getUserDocuments findOk db userId userRole filters = inr []
  | inr _ =>
      exists res, getUserDocuments findOk db userId userRole filters = inr res /\
        Permutation (map fst res) (filter (user_docs_where userId userRole filters) (db_documents db)) /\
        StronglySorted (fun x y => ad_createdAt y <= ad_createdAt x) (map fst res) /\
        Forall (fun p => snd p = chunk_count db (fst p)) res /\
        Forall (fun p => match userRole with
                         | URStudent => ad_isPublic (fst p) = true
                         | _ => ad_uploadedBy (fst p) = userId
                         end) res
  end.
Proof.
  unfold getUserDocuments, try_catch, bind, ret.
  destruct findOk as [e|[]]; [reflexivity|].
  set (docs := sort_created (filter (user_docs_where userId userRole filters) (db_documents db))).
  destruct (sort_created_props (filter (user_docs_where userId userRole filters) (db_documents db)))
    as [Hp Hs]. fold docs in Hp, Hs.
  eexists. split; [reflexivity|].
  rewrite map_map. cbn. rewrite map_id.
  split; [exact Hp|]. split; [exact Hs|]. split.
  - apply Forall_forall. intros p Hp'. apply in_map_iff in Hp' as [d [<- _]]. reflexivity.
  - apply Forall_forall. intros p Hp'. apply in_map_iff in Hp' as [d [<- Hd]]. cbn.
    apply (Permutation_in _ Hp), filter_In in Hd as [_ Hw].
    unfold user_docs_where in Hw. apply andb_prop in Hw as [Hw _].
    destruct userRole; [apply String.eqb_eq; exact Hw|exact Hw|apply String.eqb_eq; exact Hw].
Qed.

End DocumentFacts.

(* ======================================================================== *)
(** * Properties of the rest of answer-generation.ts *)

Module AnswerFacts.
Import RAGWorkflow AnswerGeneration AnswerGenerationExtra.

Lemma dedup_fold (l acc : list string) :
  NoDup acc ->
  NoDup (fold_left (fun acc x => if existsb (String.eqb x) acc then acc else acc ++ [x]) l acc) /\
  (forall y, In y (fold_left (fun acc x => if existsb (String.eqb x) acc then acc else acc ++ [x]) l acc) ->
   In y acc \/ In y l).
Proof.
  revert acc; induction l as [|x l IH]; intros acc Hn; cbn; [split; [exact Hn|auto]|].
  destruct (existsb (String.eqb x) acc) eqn:Ex.
  - destruct (IH acc Hn) as [H1 H2]. split; [exact H1|].
    intros y Hy. destruct (H2 y Hy) as [H|H]; auto.
  - assert (Hn' : NoDup (acc ++ [x])).
    { apply (Permutation_NoDup (Permutation_cons_append acc x)).
      constructor; [|exact Hn]. intro Hin.
      assert (existsb (String.eqb x) acc = true) by (apply existsb_exists; exists x; split; [exact Hin|apply String.eqb_refl]).
      congruence. }
    destruct (IH (acc ++ [x]) Hn') as [H1 H2]. split; [exact H1|].
    intros y Hy. destruct (H2 y Hy) as [H|H]; [|auto].
    apply in_app_or in H as [H|[<-|[]]]; auto.
Qed.

(** X16: the [sources] of an answer hold at most five titles, without
    repetition, each the title (or "Unknown") of a retrieved document whose
    score is above 0.5. *)
Theorem sources_bounded (docs : list Doc) :
  (length (sources_of docs) <= 5)%nat /\ NoDup (sources_of docs) /\
  (forall s, In s (sources_of docs) ->
   exists d, In d docs /\ (1 # 2 < doc_score d)%Q /\ s = or_str (doc_title d) "Unknown").
Proof.
  unfold sources_of, dedup_first.
  set (titles := map (fun d => or_str (doc_title d) "Unknown")
                   (filter (fun d => Qltb (1 # 2) (doc_score d)) docs)).
  destruct (dedup_fold titles [] (NoDup_nil _)) as [Hn Hin].
  split; [apply ListFacts.length_firstn_le|]. split; [apply ListFacts.NoDup_firstn'; exact Hn|].
  intros s Hs. apply RetrievalFacts.in_firstn in Hs.
  destruct (Hin s Hs) as [[]|Ht].
  apply in_map_iff in Ht as [d [<- Hd]]. apply filter_In in Hd as [Hd Hq].
  exists d. split; [exact Hd|]. split; [apply WorkflowFacts.Qltb_spec; exact Hq|reflexivity].
Qed.

Lemma list_ascii_append (a b : string) :
  list_ascii_of_string (String.append a b) = list_ascii_of_string a ++ list_ascii_of_string b.
Proof. induction a as [|c a IH]; cbn; [reflexivity|rewrite IH; reflexivity]. Qed.

Lemma stream_loop_eq (chunks : list string) (fullAnswer : string) (calls : list string) :
  stream_loop chunks fullAnswer calls =
  (string_of_list_ascii (list_ascii_of_string fullAnswer ++ flat_map list_ascii_of_string chunks),
   calls ++ chunks).
Proof.
  revert fullAnswer calls; induction chunks as [|c chunks IH]; intros fullAnswer calls; cbn.
  - rewrite !app_nil_r, string_of_list_ascii_of_string. reflexivity.
  - rewrite IH, list_ascii_append, <- !app_assoc. reflexivity.
Qed.

(** X17: [generateAnswerStream] passes every streamed piece to [onChunk],
    in order, and answers with their plain concatenation, not trimmed; the
    confidence, sources and token estimate are those [generateAnswer] gives
    for the same text, whose answer is the trimmed concatenation.  Errors
    (from the call or from the stream) are rethrown unchanged, after the
    pieces already received were passed on. *)
Theorem stream_matches_generate (stream : M LLMStream) (docs : list Doc) :
  match stream with
  | inl e => generateAnswerStream stream docs = (inl e, [])
  | inr s =>
      snd (generateAnswerStream stream docs) = stream_chunks s /\
      match stream_error s with
      | Some e => fst (generateAnswerStream stream docs) = inl e
      | None =>
          exists r, fst (generateAnswerStream stream docs) = inr r /\
            gr_answer r = string_of_list_ascii (flat_map list_ascii_of_string (stream_chunks s)) /\
            generateAnswer (ret (gr_answer r)) docs =
              inr {| gr_answer := Str.trim (gr_answer r); gr_confidence := gr_confidence r;
                     gr_sources := gr_sources r; gr_tokenUsage := gr_tokenUsage r |}
      end
  end.
Proof.
  unfold generateAnswerStream. destruct stream as [e|s]; [reflexivity|].
  rewrite stream_loop_eq. cbn [app list_ascii_of_string].
  destruct (stream_error s) as [e|].
  - split; reflexivity.
  - split; [reflexivity|]. eexists. split; [reflexivity|]. split; reflexivity.
Qed.

End AnswerFacts.

(* ======================================================================== *)
(** * Properties of the rest of self-evaluation.ts *)

Module EvaluationExtraFacts.
Import RAGWorkflow SelfEvaluation SelfEvaluationExtra.

Lemma clamp01_range (x : Q) : (0 <= clamp01 x <= 1)%Q.
Proof.
  unfold clamp01. split; [apply Q.le_max_l|].
  apply Q.max_lub; [discriminate|apply Q.le_min_l].
Qed.

Lemma js_mul_pos (x : JSNum) (c : Q) :
  (0 < c)%Q -> js_mul x (Fin c) = NaN <-> x = NaN.
Proof.
  intro Hc. assert (Hg : (c ?= 0)%Q = Gt) by (apply Qgt_alt; exact Hc).
  destruct x; cbn; try rewrite Hg; split; intro H; try discriminate H; reflexivity.
Qed.

Lemma js_clamp (y : JSNum) :
  (js_max (Fin 0) (js_min (Fin 1) y) = NaN <-> y = NaN) /\
  (y <> NaN -> exists q, js_max (Fin 0) (js_min (Fin 1) y) = Fin q /\ (0 <= q <= 1)%Q).
Proof.
  destruct y as [q| | |]; cbn.
  - split; [split; discriminate|]. intros _. exists (Qmax 0 (Qmin 1 q)).
    split; [reflexivity|]. apply clamp01_range.
  - split; [split; discriminate|]. intros _. exists (Qmax 0 1). split; [reflexivity|].
    split; [apply Q.le_max_l|]. apply Q.max_lub; discriminate.
  - split; [split; discriminate|]. intros _. exists 0%Q. split; [reflexivity|]. split; discriminate.
  - split; [split; reflexivity|]. intro H; congruence.
Qed.

(** X18: [evaluateAnswer] never throws.  Its score is NaN exactly when the
    model's JSON was read and its [score] converts to NaN (missing, not a
    number, an object, ...); every other score is a number in [0, 1], from
    the model's judgement or from the heuristic fallback. *)
Theorem evaluate_answer_in_unit (llm : M string) (parse : string -> M (JVal * JVal * JVal * JVal))
    (Number : string -> JSNum) (query answer : string) (docs : list Doc) (conf : Q) :
  exists r, evaluateAnswer llm parse Number query answer docs conf = inr r /\
    (eo_score r = NaN <->
     exists out j sc fb st im, llm = inr out /\ json_match out = Some j /\
       parse j = inr (sc, fb, st, im) /\ to_number Number sc = NaN) /\
    (eo_score r <> NaN -> exists q, eo_score r = Fin q /\ (0 <= q <= 1)%Q).
Proof.
  assert (Hh : (0 <= er_score (heuristicEvaluation query answer docs conf) <= 1)%Q).
  { rewrite EvaluationFacts.heuristic_score_closed. unfold Statements.fallback_score.
    apply clamp01_range. }
  assert (Hfb : forall (H : Prop), ~ H ->
            exists r, inr (of_heuristic (heuristicEvaluation query answer docs conf)) = @inr thrown _ r /\
              (eo_score r = NaN <-> H) /\
              (eo_score r <> NaN -> exists q, eo_score r = Fin q /\ (0 <= q <= 1)%Q)).
  { intros H Hn. eexists. split; [reflexivity|]. cbn. split; [split; [discriminate|contradiction]|].
    intros _. eexists; split; [reflexivity|exact Hh]. }
  unfold evaluateAnswer, try_catch, bind, ret, throw.
  destruct llm as [e|out].
  { apply Hfb. intros (out & j & sc & fb & st & im & E & _). discriminate E. }
  destruct (json_match out) as [j|] eqn:Ej.
  2:{ apply Hfb. intros (out' & j & sc & fb & st & im & E & Ej' & _). injection E as <-. congruence. }
  destruct (parse j) as [e|[[[sc fb] st] im]] eqn:Ep.
  { apply Hfb. intros (out' & j' & sc & fb & st & im & E & Ej' & Ep' & _). injection E as <-.
    rewrite Ej in Ej'. injection Ej' as <-. congruence. }
  cbv beta iota zeta.
  set (y := if Qltb conf (1 # 2) then _ else _).
  assert (Hy : y = NaN <-> to_number Number sc = NaN).
  { unfold y. destruct (Qltb (AnswerGeneration.avgRelevance docs) (1 # 2));
      destruct (Qltb conf (1 # 2));
      repeat (rewrite js_mul_pos; [|reflexivity]); reflexivity. }
  destruct (js_clamp y) as [Hc1 Hc2].
  eexists. split; [reflexivity|]. cbn [eo_score]. split; [|exact (fun H => Hc2 (fun E => H (proj2 Hc1 E)))].
  rewrite Hc1, Hy. split.
  - intro H. exists out, j, sc, fb, st, im. auto.
  - intros (out' & j' & sc' & fb' & st' & im' & E & Ej' & Ep' & Hn). injection E as <-.
    rewrite Ej in Ej'. injection Ej' as <-. rewrite Ep in Ep'. injection Ep' as <- <- <- <-.
    exact Hn.
Qed.

(** X19: [evaluateAspect] never throws and always yields a finite number in
    [0, 1]: a parsed value already in [0, 1] is kept, a larger one or
    [Infinity] becomes 1, a smaller one or [-Infinity] becomes 0, and
    [NaN] or a failed call gives 0.5. *)
Theorem evaluate_aspect_unit (llm : M string) (parseFloat : string -> JSNum) :
  exists r, evaluateAspect llm parseFloat = inr (Fin r) /\ (0 <= r <= 1)%Q /\
    (forall s q, llm = inr s -> parseFloat (Str.trim s) = Fin q ->
       ((0 <= q <= 1)%Q -> (r == q)%Q) /\ ((1 < q)%Q -> (r == 1)%Q) /\ ((q < 0)%Q -> (r == 0)%Q)) /\
    (forall s, llm = inr s -> parseFloat (Str.trim s) = PosInf -> (r == 1)%Q) /\
    (forall s, llm = inr s -> parseFloat (Str.trim s) = NegInf -> (r == 0)%Q) /\
    ((exists e, llm = inl e) \/ (exists s, llm = inr s /\ parseFloat (Str.trim s) = NaN) ->
     (r == 1 # 2)%Q).
Proof.
  unfold evaluateAspect, try_catch, bind, ret.
  destruct llm as [e|s].
  - exists (1 # 2)%Q. split; [reflexivity|]. split; [split; discriminate|].
    split; [intros s q E; discriminate|]. split; [intros s E; discriminate|].
    split; [intros s E; discriminate|]. intros _. reflexivity.
  - destruct (parseFloat (Str.trim s)) as [q| | |] eqn:Ep; cbn.
    + exists (Qmax 0 (Qmin 1 q)). split; [reflexivity|]. split; [apply clamp01_range|].
      split; [|split; [intros s' E E'; injection E as <-; congruence|
               split; [intros s' E E'; injection E as <-; congruence|
                       intros [[e' E]|[s' [E E']]]; [discriminate|injection E as <-; congruence]]]].
      intros s' q' E E'. injection E as <-. rewrite Ep in E'. injection E' as <-.
      split; [|split].
      * intros [H0 H1]. rewrite (Q.min_r 1 q H1). apply Q.max_r; exact H0.
      * intro H. rewrite (Q.min_l 1 q (Qlt_le_weak _ _ H)). apply Q.max_r. discriminate.
      * intro H. rewrite (Q.min_r 1 q). { apply Q.max_l. apply Qlt_le_weak; exact H. }
        apply Qle_trans with 0%Q; [apply Qlt_le_weak; exact H|discriminate].
    + exists 1%Q. split; [reflexivity|]. split; [split; discriminate|].
      split; [intros s' q E E'; injection E as <-; congruence|].
      split; [intros; reflexivity|].
      split; [intros s' E E'; injection E as <-; congruence|].
      intros [[e' E]|[s' [E E']]]; [discriminate|injection E as <-; congruence].
    + exists 0%Q. split; [reflexivity|]. split; [split; discriminate|].
      split; [intros s' q E E'; injection E as <-; congruence|].
      split; [intros s' E E'; injection E as <-; congruence|].
      split; [intros; reflexivity|].
      intros [[e' E]|[s' [E E']]]; [discriminate|injection E as <-; congruence].
    + exists (1 # 2)%Q. split; [reflexivity|]. split; [split; discriminate|].
      split; [intros s' q E E'; injection E as <-; congruence|].
      split; [intros s' E E'; injection E as <-; congruence|].
      split; [intros s' E E'; injection E as <-; congruence|].
      intros _; reflexivity.
Qed.

(** X20: [detectHallucinations] never throws.  With no document it returns
    [hasHallucination: false, confidence: 0] and "No context to verify
    against" without consulting the model.  With documents, a failed call,
    an output with no [{...}] block or a failed parse give the error record
    ([false], [0], "Error in hallucination detection"); otherwise each field
    is the parsed one, or its default when that is falsy: [hasHallucination]
    [false], [confidence] 0.5, [details] "". *)
Theorem detect_hallucinations_outcome (llm : M string) (parse : string -> M (JVal * JVal * JVal))
    (answer : string) (retrievedDocuments : list string) :
  exists d, detectHallucinations llm parse answer retrievedDocuments = inr d /\
    (retrievedDocuments = [] ->
     d = {| hd_hasHallucination := JBool false; hd_confidence := JNum (Fin 0);
            hd_details := JStr "No context to verify against" |}) /\
    (retrievedDocuments <> [] ->
     ((exists e, llm = inl e) \/
      (exists out, llm = inr out /\ json_match out = None) \/
      (exists out j e, llm = inr out /\ json_match out = Some j /\ parse j = inl e)) ->
     d = {| hd_hasHallucination := JBool false; hd_confidence := JNum (Fin 0);
            hd_details := JStr "Error in hallucination detection" |}) /\
    (forall out j h c dd, retrievedDocuments <> [] -> llm = inr out -> json_match out = Some j ->
     parse j = inr (h, c, dd) ->
     d = {| hd_hasHallucination := js_or h (JBool false);
            hd_confidence := js_or c (JNum (Fin (1 # 2)));
            hd_details := js_or dd (JStr "") |} /\
     (truthy h = true -> hd_hasHallucination d = h) /\
     (truthy h = false -> hd_hasHallucination d = JBool false) /\
     (truthy c = true -> hd_confidence d = c) /\
     (truthy c = false -> hd_confidence d = JNum (Fin (1 # 2)))).
Proof.
  assert (Hor : forall a b, (truthy a = true -> js_or a b = a) /\ (truthy a = false -> js_or a b = b)).
  { intros a b. unfold js_or. split; intro H; rewrite H; reflexivity. }
  unfold detectHallucinations, try_catch, bind, ret, throw.
  destruct retrievedDocuments as [|doc docs]; cbn.
  - eexists. split; [reflexivity|]. split; [reflexivity|].
    split; intros until 1; exfalso; congruence.
  - destruct llm as [e|out].
    + eexists. split; [reflexivity|]. split; [discriminate|]. split; [intros; reflexivity|].
      intros out j h c dd _ E. discriminate E.
    + destruct (json_match out) as [j|] eqn:Ej.
      2:{ eexists. split; [reflexivity|]. split; [discriminate|]. split; [intros; reflexivity|].
          intros out' j h c dd _ E Ej'. injection E as <-. congruence. }
      destruct (parse j) as [e|[[h c] dd]] eqn:Ep.
      * eexists. split; [reflexivity|]. split; [discriminate|]. split; [intros; reflexivity|].
        intros out' j' h c dd _ E Ej' Ep'. injection E as <-. rewrite Ej in Ej'.
        injection Ej' as <-. congruence.
      * eexists. split; [reflexivity|]. split; [discriminate|]. split.
        -- intros _ [[e E]|[(out' & E & Ej')|(out' & j' & e & E & Ej' & Ep')]]; try discriminate E;
             injection E as <-; [congruence|]. rewrite Ej in Ej'. injection Ej' as <-. congruence.
        -- intros out' j' h' c' dd' _ E Ej' Ep'. injection E as <-. rewrite Ej in Ej'.
           injection Ej' as <-. rewrite Ep in Ep'. injection Ep' as <- <- <-. cbn.
           split; [reflexivity|].
           destruct (Hor h (JBool false)) as [Hh1 Hh2]. destruct (Hor c (JNum (Fin (1 # 2)))) as [Hc1 Hc2].
           auto.
Qed.

Lemma skipn_cons_nth {A} (l : list A) (n : nat) (x : A) (r : list A) :
  skipn n l = x :: r -> nth_error l n = Some x /\ skipn (S n) l = r.
Proof.
  revert n; induction l as [|y l IH]; intros [|n]; cbn; try discriminate.
  - intro E. injection E as -> ->. split; [reflexivity|]. destruct r; reflexivity.
  - intro E. apply IH in E as [E1 E2]. split; [exact E1|]. exact E2.
Qed.

Lemma reduce_max_spec (answers : list Candidate) :
  forall rest idx maxIdx b,
  skipn idx answers = rest ->
  (maxIdx <= idx)%nat ->
  nth_error answers maxIdx = Some b ->
  (forall j a, (j < idx)%nat -> nth_error answers j = Some a -> (cand_confidence a <= cand_confidence b)%Q) ->
  (forall j a, (j < maxIdx)%nat -> nth_error answers j = Some a -> (cand_confidence a < cand_confidence b)%Q) ->
  exists i b', reduce_max answers rest idx maxIdx = inr i /\ nth_error answers i = Some b' /\
    (forall j a, nth_error answers j = Some a -> (cand_confidence a <= cand_confidence b')%Q) /\
    (forall j a, (j < i)%nat -> nth_error answers j = Some a -> (cand_confidence a < cand_confidence b')%Q).
Proof.
  induction rest as [|ans rest IH]; intros idx maxIdx b Hs Hle Hb Hall Hstrict; cbn.
  - exists maxIdx, b. split; [reflexivity|]. split; [exact Hb|]. split; [|exact Hstrict].
    intros j a Ha. apply Hall with j; [|exact Ha].
    assert (Hj : (j < length answers)%nat) by (apply nth_error_Some; congruence).
    assert (Hl : length (skipn idx answers) = 0%nat) by (rewrite Hs; reflexivity).
    rewrite length_skipn in Hl. lia.
  - apply skipn_cons_nth in Hs as [Hans Hs].
    unfold conf_at, bind, ret. rewrite Hb.
    destruct (Qltb (cand_confidence b) (cand_confidence ans)) eqn:Eq.
    + apply WorkflowFacts.Qltb_spec in Eq.
      apply (IH (S idx) idx ans Hs (Nat.le_succ_diag_r idx) Hans).
      * intros j a Hj Ha. destruct (Nat.eq_dec j idx) as [->|Hne].
        -- rewrite Hans in Ha. injection Ha as <-. apply Qle_refl.
        -- apply Qle_trans with (cand_confidence b); [apply Hall with j; [lia|exact Ha]|].
           apply Qlt_le_weak; exact Eq.
      * intros j a Hj Ha. apply Qle_lt_trans with (cand_confidence b); [apply Hall with j; [lia|exact Ha]|exact Eq].
    + assert (Hge : (cand_confidence ans <= cand_confidence b)%Q).
      { apply Qnot_lt_le. intro H. apply WorkflowFacts.Qltb_spec in H. congruence. }
      apply (IH (S idx) maxIdx b Hs ltac:(lia) Hb); [|exact Hstrict].
      intros j a Hj Ha. destruct (Nat.eq_dec j idx) as [->|Hne].
      * rewrite Hans in Ha. injection Ha as <-. exact Hge.
      * apply Hall with j; [lia|exact Ha].
Qed.

Lemma highest_confidence_spec (answers : list Candidate) :
  answers <> [] ->
  exists i b, highest_confidence answers = inr i /\ nth_error answers i = Some b /\
    (forall j a, nth_error answers j = Some a -> (cand_confidence a <= cand_confidence b)%Q) /\
    (forall j a, (j < i)%nat -> nth_error answers j = Some a -> (cand_confidence a < cand_confidence b)%Q).
Proof.
  intro Hne. destruct answers as [|a0 rest]; [congruence|].
  apply (reduce_max_spec (a0 :: rest) (a0 :: rest) 0 0 a0 eq_refl (le_n 0) eq_refl).
  - intros j a Hj. lia.
  - intros j a Hj. lia.
Qed.

(** X21: [selectBestAnswer] never throws.  For a non-empty list it returns
    a valid index: [k - 1] when the model answers a number [k] between 1 and
    the number of answers, and otherwise (failed call, no number, number out
    of range) the first answer of highest confidence.  For an empty list it
    returns 0, which is not an index of the list. *)
Theorem select_best_answer_index (llm : M string) (parseInt : string -> option Z)
    (answers : list Candidate) :
  selectBestAnswer llm parseInt [] = inr 0%nat /\
  (answers <> [] ->
   exists i, selectBestAnswer llm parseInt answers = inr i /\ (i < length answers)%nat /\
     (forall s k, llm = inr s -> parseInt (Str.trim s) = Some k ->
        (1 <= k <= Z.of_nat (length answers))%Z -> i = Z.to_nat (k - 1)) /\
     ((exists e, llm = inl e) \/
      (exists s, llm = inr s /\
         (parseInt (Str.trim s) = None \/
          exists k, parseInt (Str.trim s) = Some k /\ (k < 1 \/ Z.of_nat (length answers) < k)%Z)) ->
      exists b, nth_error answers i = Some b /\
        (forall j a, nth_error answers j = Some a -> (cand_confidence a <= cand_confidence b)%Q) /\
        (forall j a, (j < i)%nat -> nth_error answers j = Some a ->
           (cand_confidence a < cand_confidence b)%Q))).
Proof.
  split.
  - unfold selectBestAnswer, try_catch, bind.
    destruct llm as [e|s]; [reflexivity|].
    destruct (parseInt (Str.trim s)) as [k|]; [|reflexivity].
    destruct (Z.ltb (k - 1) 0) eqn:E; [reflexivity|].
    apply Z.ltb_ge in E. cbn [length Z.of_nat]. rewrite (proj2 (Z.leb_le 0 (k - 1)) E). reflexivity.
  - intro Hne.
    destruct (highest_confidence_spec answers Hne) as (i & b & Hh & Hb & Hall & Hstrict).
    assert (Hi : (i < length answers)%nat) by (apply nth_error_Some; congruence).
    unfold selectBestAnswer, try_catch, bind.
    destruct llm as [e|s].
    + exists i. rewrite Hh. split; [reflexivity|]. split; [exact Hi|].
      split; [intros s k E; discriminate|]. intros _. exists b. auto.
    + destruct (parseInt (Str.trim s)) as [k|] eqn:Ek.
      * destruct (Z.ltb (k - 1) 0 || Z.leb (Z.of_nat (length answers)) (k - 1)) eqn:Er.
        -- exists i. rewrite Hh. split; [reflexivity|]. split; [exact Hi|]. split.
           ++ intros s' k' E E' Hk. injection E as <-. rewrite Ek in E'. injection E' as <-.
              exfalso. apply orb_true_iff in Er as [Er|Er]; [apply Z.ltb_lt in Er|apply Z.leb_le in Er]; lia.
           ++ intros _. exists b. auto.
        -- apply orb_false_iff in Er as [E1 E2]. apply Z.ltb_ge in E1. apply Z.leb_gt in E2.
           exists (Z.to_nat (k - 1)). split; [reflexivity|]. split; [lia|]. split.
           ++ intros s' k' E E' Hk. injection E as <-. rewrite Ek in E'. injection E' as <-. reflexivity.
           ++ intros [[e E]|[s' [E [E'|(k' & E' & Hk)]]]]; [discriminate| |];
                injection E as <-; rewrite Ek in E'; [discriminate|].
              injection E' as <-. lia.
      * exists i. rewrite Hh. split; [reflexivity|]. split; [exact Hi|]. split.
        -- intros s' k' E E'. injection E as <-. congruence.
        -- intros _. exists b. auto.
Qed.

End EvaluationExtraFacts.

(* ======================================================================== *)
(** * Properties of the rest of query-refinement.ts *)

Module RefinementExtraFacts.
Import QueryRefinement QueryRefinementExtra.

Lemma Qnat_nonneg (n : nat) : (0 <= Qnat n)%Q.
Proof. unfold Qnat, Qle. cbn. lia. Qed.

Lemma running_mean_in_unit (c s : Q) (u : nat) :
  (0 <= c <= 1)%Q -> (0 <= s <= 1)%Q -> (0 <= (c * Qnat u + s) / (Qnat u + 1) <= 1)%Q.
Proof.
  intros [Hc0 Hc1] [Hs0 Hs1]. pose proof (Qnat_nonneg u) as Hu.
  assert (Hpos : (0 < Qnat u + 1)%Q) by Lqa.lra.
  split.
  - apply Qle_shift_div_l; [exact Hpos|]. Lqa.nra.
  - apply Qle_shift_div_r; [exact Hpos|]. Lqa.nra.
Qed.

(** X22: rating refinements keeps every improvement score in [0, 1]: the
    new score is the running mean [(current * usageCount + s) /
    (usageCount + 1)] of scores in [0, 1]; the call never throws. *)
Theorem update_score_in_unit (db : M unit) (st : Store) (originalQuery refinedQuery mode : string)
    (improvementScore : Q) :
  Forall (fun r => match rr_improvementScore r with Some q => (0 <= q <= 1)%Q | None => True end) st ->
  (0 <= improvementScore <= 1)%Q ->
  exists st', updateRefinementScore db st originalQuery refinedQuery mode improvementScore = inr st' /\
    Forall (fun r => match rr_improvementScore r with Some q => (0 <= q <= 1)%Q | None => True end) st'.
Proof.
  intros Hst Hs. unfold updateRefinementScore, try_catch, bind, ret.
  destruct db as [e|[]]; [exists st; split; [reflexivity|exact Hst]|].
  destruct (find (matches_update_key originalQuery refinedQuery mode) st) as [x|] eqn:Ef;
    [|exists st; split; [reflexivity|exact Hst]].
  eexists. split; [reflexivity|].
  apply find_some in Ef as [Hx _].
  assert (Hc : (0 <= score_or_0 (rr_improvementScore x) <= 1)%Q).
  { rewrite Forall_forall in Hst. specialize (Hst x Hx). unfold score_or_0.
    destruct (rr_improvementScore x); [exact Hst|split; discriminate]. }
  apply Forall_map. eapply Forall_impl; [|exact Hst]. intros r Hr.
  unfold set_score. destruct (rr_id r =? rr_id x); [cbn|exact Hr].
  apply running_mean_in_unit; assumption.
Qed.

Lemma update_score_in_unit_witness :
  let st := [{| rr_id := 1; rr_originalQuery := "photosynthesis"; rr_refinedQuery := "how do plants make food";
                rr_mode := "teacher"; rr_subject := Some "science"%string;
                rr_improvementScore := Some (1 # 2)%Q; rr_usageCount := 3; rr_lastUsed := 0 |}] in
  Forall (fun r => match rr_improvementScore r with Some q => (0 <= q <= 1)%Q | None => True end) st /\
  (0 <= 9 # 10 <= 1)%Q /\
  exists st', updateRefinementScore (ret tt) st "Photosynthesis" "how do plants make food" "teacher" (9 # 10)
                = inr st' /\
    Forall (fun r => match rr_improvementScore r with Some q => (0 <= q <= 1)%Q | None => True end) st'.
Proof.
  intro st.
  assert (H1 : Forall (fun r => match rr_improvementScore r with Some q => (0 <= q <= 1)%Q | None => True end) st).
  { constructor; [cbn; split; discriminate|constructor]. }
  assert (H2 : (0 <= 9 # 10 <= 1)%Q) by (split; discriminate).
  split; [exact H1|]. split; [exact H2|].
  exact (update_score_in_unit _ _ _ _ _ _ H1 H2).
Defined.

Lemma forall2_map_self {A} (P : A -> A -> Prop) (f : A -> A) (l : list A) :
  (forall x, In x l -> P x (f x)) -> Forall2 P l (map f l).
Proof.
  induction l as [|x l IH]; intro H; cbn; constructor; [apply H; left; reflexivity|].
  apply IH. intros y Hy. apply H. right; exact Hy.
Qed.

(** X23: rating a refinement changes nothing but improvement scores: the
    table keeps its length and order, and every record keeps its id,
    queries, mode, subject, usage count and last-use date.  When the lookup
    or the update fails, or no record has the same original query, refined
    query (both case-insensitively) and mode, the table is unchanged; the
    call never throws. *)
Theorem update_score_only_score (db : M unit) (st : Store) (originalQuery refinedQuery mode : string)
    (improvementScore : Q) :
  exists st', updateRefinementScore db st originalQuery refinedQuery mode improvementScore = inr st' /\
    Forall2 (fun r r' => rr_id r' = rr_id r /\ rr_originalQuery r' = rr_originalQuery r /\
                         rr_refinedQuery r' = rr_refinedQuery r /\ rr_mode r' = rr_mode r /\
                         rr_subject r' = rr_subject r /\ rr_usageCount r' = rr_usageCount r /\
                         rr_lastUsed r' = rr_lastUsed r) st st' /\
    ((exists e, db = inl e) \/ find (matches_update_key originalQuery refinedQuery mode) st = None ->
     st' = st).
Proof.
  assert (Hrefl : Forall2 (fun r r' => rr_id r' = rr_id r /\ rr_originalQuery r' = rr_originalQuery r /\
                         rr_refinedQuery r' = rr_refinedQuery r /\ rr_mode r' = rr_mode r /\
                         rr_subject r' = rr_subject r /\ rr_usageCount r' = rr_usageCount r /\
                         rr_lastUsed r' = rr_lastUsed r) st st).
  { induction st as [|x st IH]; constructor; [repeat split|exact IH]. }
  unfold updateRefinementScore, try_catch, bind, ret.
  destruct db as [e|[]]; [exists st; split; [reflexivity|]; split; [exact Hrefl|intros _; reflexivity]|].
  destruct (find (matches_update_key originalQuery refinedQuery mode) st) as [x|] eqn:Ef;
    [|exists st; split; [reflexivity|]; split; [exact Hrefl|intros _; reflexivity]].
  eexists. split; [reflexivity|]. split.
  - apply forall2_map_self. intros r _. unfold set_score.
    destruct (rr_id r =? rr_id x); repeat split.
  - intros [[e E]|E]; discriminate.
Qed.

Lemma find_none_all {A} (f : A -> bool) (l : list A) :
  find f l = None -> forall x, In x l -> f x = false.
Proof.
  induction l as [|y l IH]; cbn; [intros _ x []|].
  destruct (f y) eqn:E; [discriminate|]. intros H x [<-|Hx]; [exact E|exact (IH H x Hx)].
Qed.

Lemma find_all_none {A} (f : A -> bool) (l : list A) :
  (forall x, In x l -> f x = false) -> find f l = None.
Proof.
  induction l as [|y l IH]; cbn; intro H; [reflexivity|].
  rewrite (H y (or_introl eq_refl)). apply IH. intros x Hx. apply H. right; exact Hx.
Qed.

Lemma find_app_none {A} (f : A -> bool) (l1 l2 : list A) :
  find f l1 = None -> find f (l1 ++ l2) = find f l2.
Proof.
  induction l1 as [|y l1 IH]; cbn; [reflexivity|]. destruct (f y); [discriminate|exact IH].
Qed.

Lemma insensitive_eq_refl (a : string) : insensitive_eq a a = true.
Proof. unfold insensitive_eq. apply String.eqb_refl. Qed.

(** X24: a refinement stored for the first time and then rated [s] gets
    the improvement score [s / 2], not [s]: storing it records one use, and
    the rating averages [s] with the missing score counted as 0 over that
    use.  Here "for the first time" means no record has the same original
    query, refined query and mode, whatever its subject. *)
Theorem store_then_rate_halves (env : RefineEnv) (st : Store)
    (originalQuery refinedQuery mode : string) (subject : option string) (s : Q) :
  re_db_write env = inr tt ->
  find (matches_update_key originalQuery refinedQuery mode) st = None ->
  exists st1 st2,
    storeRefinementAttempt env st originalQuery refinedQuery mode subject = inr st1 /\
    updateRefinementScore (ret tt) st1 originalQuery refinedQuery mode s = inr st2 /\
    exists x q, In x st2 /\ rr_originalQuery x = originalQuery /\ rr_refinedQuery x = refinedQuery /\
      rr_usageCount x = 1%nat /\ rr_improvementScore x = Some q /\ (q == s / 2)%Q.
Proof.
  intros Hw Hf.
  assert (Hk : find (matches_key originalQuery refinedQuery mode subject) st = None).
  { apply find_all_none. intros x Hx. pose proof (find_none_all _ _ Hf x Hx) as Hu.
    unfold matches_key. unfold matches_update_key in Hu. rewrite Hu. reflexivity. }
  set (fresh := {| rr_id := next_id st; rr_originalQuery := originalQuery;
                   rr_refinedQuery := refinedQuery; rr_mode := mode; rr_subject := subject;
                   rr_improvementScore := None; rr_usageCount := 1; rr_lastUsed := re_now env |}).
  assert (Hs : storeRefinementAttempt env st originalQuery refinedQuery mode subject = inr (st ++ [fresh])).
  { unfold storeRefinementAttempt, try_catch, bind, ret. rewrite Hw. unfold upsert. rewrite Hk. reflexivity. }
  assert (Hm : find (matches_update_key originalQuery refinedQuery mode) (st ++ [fresh]) = Some fresh).
  { rewrite (find_app_none _ _ _ Hf). cbn.
    unfold matches_update_key, insensitive_eq. cbn. rewrite !String.eqb_refl. reflexivity. }
  eexists. eexists. split; [exact Hs|]. split.
  - unfold updateRefinementScore, try_catch, bind, ret. rewrite Hm. reflexivity.
  - eexists. eexists. split.
    + apply in_map. apply in_or_app. right. left. reflexivity.
    + unfold set_score. cbn. rewrite Nat.eqb_refl. cbn.
      do 4 (split; [reflexivity|]).
      setoid_replace (Qnat 1) with 1%Q by reflexivity. field.
Qed.

Lemma store_then_rate_halves_witness :
  let env := {| re_findMany := ret tt; re_llm := ret "how do plants make food"%string;
                re_db_write := ret tt; re_now := 5 |} in
  re_db_write env = inr tt /\
  find (matches_update_key "photosynthesis" "how do plants make food" "teacher") [] = None /\
  exists st1 st2,
    storeRefinementAttempt env [] "photosynthesis" "how do plants make food" "teacher" None = inr st1 /\
    updateRefinementScore (ret tt) st1 "photosynthesis" "how do plants make food" "teacher" (9 # 10) = inr st2 /\
    exists x q, In x st2 /\ rr_originalQuery x = "photosynthesis"%string /\
      rr_refinedQuery x = "how do plants make food"%string /\
      rr_usageCount x = 1%nat /\ rr_improvementScore x = Some q /\ (q == (9 # 10) / 2)%Q.
Proof.
  intro env.
  assert (H1 : re_db_write env = inr tt) by reflexivity.
  assert (H2 : find (matches_update_key "photosynthesis" "how do plants make food" "teacher") [] = None)
    by reflexivity.
  split; [exact H1|]. split; [exact H2|].
  exact (store_then_rate_halves env [] _ _ _ None _ H1 H2).
Defined.

Lemma fold_max_bound (st : Store) :
  forall acc, (acc <= fold_left (fun m r => Nat.max m (rr_id r)) st acc)%nat /\
  forall x, In x st -> (rr_id x <= fold_left (fun m r => Nat.max m (rr_id r)) st acc)%nat.
Proof.
  induction st as [|y st IH]; intro acc; cbn; [split; [lia|intros x []]|].
  destruct (IH (Nat.max acc (rr_id y))) as [H1 H2]. split; [lia|].
  intros x [<-|Hx]; [lia|exact (H2 x Hx)].
Qed.

Lemma next_id_fresh (st : Store) : ~ In (next_id st) (map rr_id st).
Proof.
  intro H. apply in_map_iff in H as [x [Hx Hin]].
  destruct (fold_max_bound st 0) as [_ H]. specialize (H x Hin). unfold next_id in Hx. lia.
Qed.

Lemma map_bump_ids (id now : nat) (st : Store) : map rr_id (map (bump id now) st) = map rr_id st.
Proof.
  rewrite map_map. apply map_ext. intro r. unfold bump. destruct (rr_id r =? id); reflexivity.
Qed.

Lemma sum_bump (id now : nat) (st : Store) :
  list_sum (map rr_usageCount (map (bump id now) st)) =
  (list_sum (map rr_usageCount st) + length (filter (fun r => rr_id r =? id) st))%nat.
Proof.
  assert (Hc : forall a l, list_sum (a :: l) = (a + list_sum l)%nat) by reflexivity.
  induction st as [|r st IH]; [reflexivity|]. cbn [map filter]. rewrite !Hc, IH.
  unfold bump at 1. destruct (rr_id r =? id); cbn [length rr_usageCount]; lia.
Qed.

Lemma filter_all_false {A} (f : A -> bool) (l : list A) :
  (forall z, In z l -> f z = false) -> filter f l = [].
Proof.
  induction l as [|y l IH]; cbn; intro H; [reflexivity|].
  rewrite (H y (or_introl eq_refl)). apply IH. intros z Hz. apply H. right; exact Hz.
Qed.

Lemma unique_id_count (st : Store) (x : RefinementRecord) :
  NoDup (map rr_id st) -> In x st -> length (filter (fun r => rr_id r =? rr_id x) st) = 1%nat.
Proof.
  induction st as [|y st IH]; cbn; [intros _ []|]. intros Hn Hin.
  inversion Hn as [|? ? Hy Hd]; subst.
  destruct Hin as [<-|Hin].
  - rewrite Nat.eqb_refl. cbn. f_equal.
    assert (Hz : filter (fun r => rr_id r =? rr_id y) st = []).
    { apply filter_all_false. intros z Hz'. apply Nat.eqb_neq. intro E.
      apply Hy. rewrite <- E. apply in_map; exact Hz'. }
    rewrite Hz. reflexivity.
  - assert (Hne : rr_id y <> rr_id x) by (intro E; apply Hy; rewrite E; apply in_map; exact Hin).
    apply Nat.eqb_neq in Hne. rewrite Hne. exact (IH Hd Hin).
Qed.

(** X25: [storeRefinementAttempt] never throws and keeps record ids
    distinct.  When its database calls succeed, it adds exactly 1 to the
    total usage count of the table (an existing matching record is bumped,
    or a new record with count 1 is appended); when they fail, the table is
    unchanged. *)
Theorem store_attempt_ids_usage (env : RefineEnv) (st : Store)
    (originalQuery refinedQuery mode : string) (subject : option string) :
  NoDup (map rr_id st) ->
  exists st', storeRefinementAttempt env st originalQuery refinedQuery mode subject = inr st' /\
    NoDup (map rr_id st') /\
    match re_db_write env with
    | inl _ => st' = st
    | inr _ => list_sum (map rr_usageCount st') = S (list_sum (map rr_usageCount st))
    end.
Proof.
  intro Hn. unfold storeRefinementAttempt, try_catch, bind, ret.
  destruct (re_db_write env) as [e|[]]; [exists st; auto|].
  eexists. split; [reflexivity|]. unfold upsert.
  destruct (find (matches_key originalQuery refinedQuery mode subject) st) as [x|] eqn:Ef.
  - apply find_some in Ef as [Hx _]. split; [rewrite map_bump_ids; exact Hn|].
    rewrite sum_bump, (unique_id_count st x Hn Hx). lia.
  - split.
    + rewrite map_app. cbn.
      apply (Permutation_NoDup (Permutation_cons_append _ _)). constructor; [apply next_id_fresh|exact Hn].
    + rewrite map_app, list_sum_app. cbn. lia.
Qed.

Lemma store_attempt_ids_usage_witness :
  let env := {| re_findMany := ret tt; re_llm := ret "how do plants make food"%string;
                re_db_write := ret tt; re_now := 5 |} in
  let st := [{| rr_id := 1; rr_originalQuery := "photosynthesis"; rr_refinedQuery := "how do plants make food";
                rr_mode := "teacher"; rr_subject := None;
                rr_improvementScore := None; rr_usageCount := 3; rr_lastUsed := 0 |}] in
  NoDup (map rr_id st) /\
  exists st', storeRefinementAttempt env st "Photosynthesis" "how do plants make food" "teacher" None = inr st' /\
    NoDup (map rr_id st') /\
    match re_db_write env with
    | inl _ => st' = st
    | inr _ => list_sum (map rr_usageCount st') = S (list_sum (map rr_usageCount st))
    end.
Proof.
  intros env st.
  assert (H : NoDup (map rr_id st)) by (constructor; [intros []|constructor]).
  split; [exact H|]. exact (store_attempt_ids_usage env st _ _ _ _ H).
Defined.

End RefinementExtraFacts.

(* ======================================================================== *)
(** * Analytics: dictionaries, counters, rates *)

Module AnalyticsFacts.
Import Analytics.

(** ** The JS object used as a dictionary *)

Lemma obj_own_set_same {V} (k : string) (v : V) (m : list (string * V)) :
  obj_own k (obj_set k v m) = Some v.
Proof.
  induction m as [|[k' v'] m IH]; cbn; [rewrite String.eqb_refl; reflexivity|].
  destruct (String.eqb k' k) eqn:E; cbn; rewrite ?E; [reflexivity | exact IH].
Qed.

Lemma obj_own_set_other {V} (k k' : string) (v : V) (m : list (string * V)) :
  k' <> k -> obj_own k' (obj_set k v m) = obj_own k' m.
Proof.
  intro Hne. induction m as [|[k0 v0] m IH]; cbn.
  - destruct (String.eqb k k') eqn:E; [apply String.eqb_eq in E; congruence | reflexivity].
  - destruct (String.eqb k0 k) eqn:E; cbn.
    + apply String.eqb_eq in E; subst k0.
      destruct (String.eqb k k') eqn:E'; [apply String.eqb_eq in E'; congruence | reflexivity].
    + destruct (String.eqb k0 k'); [reflexivity | exact IH].
Qed.

Lemma obj_set_keys {V} (k : string) (v : V) (m : list (string * V)) :
  map fst (obj_set k v m) = map fst m \/
  (map fst (obj_set k v m) = map fst m ++ [k] /\ ~ In k (map fst m)).
Proof.
  induction m as [|[k0 v0] m IH]; cbn; [right; split; [reflexivity | tauto]|].
  destruct (String.eqb k0 k) eqn:E; cbn; [left; reflexivity|].
  destruct IH as [IH|[IH Hn]]; [left; rewrite IH; reflexivity|].
  right. rewrite IH. split; [reflexivity|].
  intros [Hk|Hk]; [apply String.eqb_neq in E; congruence | exact (Hn Hk)].
Qed.

Lemma obj_set_nodup {V} (k : string) (v : V) (m : list (string * V)) :
  NoDup (map fst m) -> NoDup (map fst (obj_set k v m)).
Proof.
  intro H. destruct (obj_set_keys k v m) as [E|[E Hn]]; rewrite E; [exact H|].
  apply NoDup_app; [exact H | constructor; [tauto | constructor] |].
  intros x Hx [<-|[]]. exact (Hn Hx).
Qed.

Lemma obj_own_in {V} (k : string) (v : V) (m : list (string * V)) :
  NoDup (map fst m) -> In (k, v) m -> obj_own k m = Some v.
Proof.
  induction m as [|[k0 v0] m IH]; cbn; [tauto|].
  intros Hd Hin. inversion Hd as [|? ? Hn Hd']; subst.
  destruct Hin as [Heq|Hin].
  - injection Heq as -> ->. rewrite String.eqb_refl. reflexivity.
  - destruct (String.eqb k0 k) eqn:E.
    + apply String.eqb_eq in E; subst k0. exfalso. apply Hn.
      apply (in_map fst) in Hin. exact Hin.
    + apply IH; assumption.
Qed.

(** Away from the members of [Object.prototype], [obj[k]] is the own
    property or [undefined], and an assignment sets the own property. *)
Lemma obj_get_plain {V} (k : string) (m : list (string * V)) :
  is_proto_key k = false ->
  obj_get k m = match obj_own k m with Some v => Own v | None => Missing end.
Proof. intro H. unfold obj_get. rewrite H. reflexivity. Qed.

Lemma obj_assign_plain {V} (k : string) (v : V) (m : list (string * V)) :
  is_proto_key k = false -> obj_assign_prim k v m = obj_set k v m.
Proof.
  intro H. unfold obj_assign_prim.
  destruct (String.eqb k "__proto__"%string) eqn:E; [|reflexivity].
  apply String.eqb_eq in E; subst k. discriminate H.
Qed.

(** [Object.entries] lists every entry of the object once. *)
Lemma indexed_snd {V} (m : list (string * V)) :
  map snd (fold_right (fun kv acc =>
             match array_index (fst kv) with Some i => (i, kv) :: acc | None => acc end) [] m) =
  filter (fun kv => match array_index (fst kv) with Some _ => true | None => false end) m.
Proof.
  induction m as [|kv m IH]; cbn; [reflexivity|].
  destruct (array_index (fst kv)); cbn; rewrite IH; reflexivity.
Qed.

Lemma filter_split_perm {A} (p : A -> bool) (l : list A) :
  Permutation (filter p l ++ filter (fun x => negb (p x)) l) l.
Proof.
  induction l as [|x l IH]; cbn; [reflexivity|].
  destruct (p x); cbn.
  - apply perm_skip, IH.
  - rewrite <- Permutation_middle. apply perm_skip, IH.
Qed.

Lemma object_entries_perm {V} (m : list (string * V)) :
  Permutation (object_entries m) m.
Proof.
  unfold object_entries.
  set (indexed := fold_right _ [] m).
  destruct (ListFacts.sort_props
              (fun y x : Z * (string * V) => Z.ltb (fst x) (fst y))
              (fun x y => (fst x <= fst y)%Z) (@insert_index V)
              (fun x => eq_refl) (fun x y l => eq_refl)
              ltac:(intros x y H; cbv beta in *; apply Z.ltb_lt in H; lia)
              ltac:(intros x y H; cbv beta in *; apply Z.ltb_ge in H; lia)
              ltac:(intros x y z; cbv beta; lia) indexed) as [Hp _].
  rewrite (Permutation_map snd Hp). unfold indexed. rewrite indexed_snd.
  etransitivity; [|apply (filter_split_perm
    (fun kv : string * V => match array_index (fst kv) with Some _ => true | None => false end))].
  apply Permutation_app_head.
  erewrite filter_ext; [reflexivity|]. intros [k v]; cbn. destruct (array_index k); reflexivity.
Qed.

Lemma object_entries_in {V} (k : string) (v : V) (m : list (string * V)) :
  NoDup (map fst m) -> In (k, v) (object_entries m) -> obj_own k m = Some v.
Proof.
  intros Hd Hin. apply obj_own_in; [exact Hd|].
  exact (Permutation_in _ (object_entries_perm m) Hin).
Qed.

(** ** Counters *)

Definition count_key (f : AnalyticsRow -> option string) (k : string) (a : AnalyticsRow) : bool :=
  match f a with Some s => String.eqb s k | None => false end.

(** A key that is not a member of [Object.prototype]. *)
Definition plain_key (o : option string) : bool :=
  match o with Some s => negb (is_proto_key s) | None => true end.

Definition count_nat (c : CountVal) : nat := match c with CNum n => n | CStr _ => O end.

Lemma count_by_inv (f : AnalyticsRow -> option string) (rows : list AnalyticsRow) :
  forallb (fun a => plain_key (f a)) rows = true ->
  NoDup (map fst (count_by f rows)) /\
  forall k, obj_own k (count_by f rows) =
    if String.eqb k ""%string then None
    else match length (filter (count_key f k) rows) with O => None | n => Some (CNum n) end.
Proof.
  unfold count_by. induction rows as [|a rows IH] using rev_ind; intro Hp.
  - cbn. split; [constructor|]. intro k. destruct (String.eqb k ""%string); reflexivity.
  - rewrite forallb_app in Hp. apply andb_prop in Hp as [Hp Ha]. cbn in Ha.
    rewrite andb_true_r in Ha.
    rewrite fold_left_app. cbn [fold_left].
    destruct (IH Hp) as [Hd Hg].
    set (acc := fold_left _ rows []) in *.
    assert (Hl : forall k, length (filter (count_key f k) (rows ++ [a])) =
                  (length (filter (count_key f k) rows) + if count_key f k a then 1 else 0)%nat).
    { intro k. rewrite filter_app, length_app. cbn. destruct (count_key f k a); reflexivity. }
    unfold count_into, count_key in *. destruct (f a) as [s|] eqn:Ef.
    + destruct (String.eqb s ""%string) eqn:Es.
      * split; [exact Hd|]. intro k. rewrite Hl, Hg.
        destruct (String.eqb k ""%string) eqn:Ek; [reflexivity|].
        apply String.eqb_eq in Es; subst s.
        destruct (String.eqb ""%string k) eqn:E'; [apply String.eqb_eq in E'; subst k; rewrite String.eqb_refl in Ek; discriminate|].
        rewrite Nat.add_0_r. reflexivity.
      * cbn in Ha. apply negb_true_iff in Ha.
        rewrite (obj_get_plain s acc Ha), (obj_assign_plain s _ acc Ha).
        split; [apply obj_set_nodup; exact Hd|]. intro k.
        rewrite Hl. destruct (String.eqb s k) eqn:Esk.
        -- apply String.eqb_eq in Esk; subst k. rewrite obj_own_set_same, Es, Hg, Es.
           rewrite Nat.add_1_r.
           destruct (length (filter _ rows)); reflexivity.
        -- rewrite obj_own_set_other by (apply String.eqb_neq in Esk; congruence).
           rewrite Hg, Nat.add_0_r. reflexivity.
    + split; [exact Hd|]. intro k. rewrite Hl, Hg, Nat.add_0_r. reflexivity.
Qed.

Lemma count_by_entries (f : AnalyticsRow -> option string) (rows : list AnalyticsRow) k c :
  forallb (fun a => plain_key (f a)) rows = true ->
  In (k, c) (object_entries (count_by f rows)) ->
  k <> ""%string /\ exists n, c = CNum n /\ n = length (filter (count_key f k) rows) /\ (0 < n)%nat.
Proof.
  intro Hp. destruct (count_by_inv f rows Hp) as [Hd Hg]. intro Hin.
  pose proof (object_entries_in _ _ _ Hd Hin) as Hk. rewrite Hg in Hk.
  destruct (String.eqb k ""%string) eqn:E; [discriminate|].
  apply String.eqb_neq in E. split; [exact E|].
  destruct (length (filter (count_key f k) rows)) as [|m]; [discriminate|].
  injection Hk as <-. exists (S m). split; [reflexivity|]. split; [reflexivity | lia].
Qed.

(** On numbers only, [sort_counts] is the insertion sort of the counts. *)
Definition of_nat_entry (kv : string * nat) : string * CountVal := (fst kv, CNum (snd kv)).

Fixpoint insert_nat (x : string * nat) (l : list (string * nat)) : list (string * nat) :=
  match l with
  | [] => [x]
  | y :: l' => if snd y <? snd x then x :: l else y :: insert_nat x l'
  end.

Definition sort_nat (l : list (string * nat)) : list (string * nat) :=
  fold_left (fun acc x => insert_nat x acc) l [].

Lemma insert_count_nat (x : string * nat) (l : list (string * nat)) :
  insert_count (of_nat_entry x) (map of_nat_entry l) = map of_nat_entry (insert_nat x l).
Proof.
  induction l as [|y l IH]; [reflexivity|].
  cbn [map insert_count insert_nat].
  assert (Hc : (0 <? count_compare (of_nat_entry y) (of_nat_entry x))%Z = (snd y <? snd x)).
  { unfold count_compare, of_nat_entry, count_number; cbn [fst snd].
    destruct (snd y <? snd x) eqn:E;
      [apply Nat.ltb_lt in E; apply Z.ltb_lt | apply Nat.ltb_ge in E; apply Z.ltb_ge]; lia. }
  rewrite Hc. destruct (snd y <? snd x); [reflexivity|]. cbn [map]. rewrite IH. reflexivity.
Qed.

Lemma sort_counts_nat (l : list (string * nat)) :
  sort_counts (map of_nat_entry l) = map of_nat_entry (sort_nat l).
Proof.
  unfold sort_counts, sort_nat.
  change (@nil (string * CountVal)) with (map of_nat_entry (@nil (string * nat))).
  generalize (@nil (string * nat)) as acc.
  induction l as [|x l IH]; intro acc; cbn; [reflexivity|].
  rewrite insert_count_nat. apply IH.
Qed.

Lemma insert_count_perm (x : string * CountVal) (l : list (string * CountVal)) :
  Permutation (insert_count x l) (x :: l).
Proof.
  induction l as [|y l IH]; cbn; [reflexivity|].
  destruct (0 <? count_compare y x)%Z; [reflexivity|].
  etransitivity; [apply perm_skip, IH | apply perm_swap].
Qed.

Lemma sort_counts_perm (l : list (string * CountVal)) : Permutation (sort_counts l) l.
Proof.
  unfold sort_counts.
  enough (H : forall acc, Permutation (fold_left (fun acc x => insert_count x acc) l acc) (l ++ acc))
    by (rewrite H, app_nil_r; reflexivity).
  induction l as [|x l IH]; intro acc; cbn; [reflexivity|].
  rewrite IH, insert_count_perm. symmetry. apply Permutation_middle.
Qed.

Lemma ssorted_map {A B} (R : B -> B -> Prop) (f : A -> B) (l : list A) :
  StronglySorted (fun x y => R (f x) (f y)) l -> StronglySorted R (map f l).
Proof.
  induction 1 as [|x l Hs IH Hf]; cbn; constructor; [exact IH|].
  apply Forall_map. exact Hf.
Qed.

Lemma popular_counts (f : AnalyticsRow -> option string) (rows : list AnalyticsRow) :
  let top := firstn 5 (sort_counts (object_entries (count_by f rows))) in
  (length top <= 5)%nat /\
  (forallb (fun a => plain_key (f a)) rows = true ->
   StronglySorted (fun x y => (count_nat (snd y) <= count_nat (snd x))%nat) top /\
   forall k c, In (k, c) top ->
     k <> ""%string /\
     exists n, c = CNum n /\ n = length (filter (count_key f k) rows) /\ (0 < n)%nat).
Proof.
  cbv zeta. split; [apply ListFacts.length_firstn_le|]. intro Hp.
  set (L := object_entries (count_by f rows)).
  assert (HL : forall k c, In (k, c) L ->
            k <> ""%string /\
            exists n, c = CNum n /\ n = length (filter (count_key f k) rows) /\ (0 < n)%nat)
    by (intros k c; apply count_by_entries; exact Hp).
  assert (HLn : L = map of_nat_entry (map (fun kv => (fst kv, count_nat (snd kv))) L)).
  { rewrite map_map. rewrite <- (map_id L) at 1. apply map_ext_in.
    intros [k c] Hin. destruct (HL k c Hin) as (_ & n & -> & _). reflexivity. }
  split.
  - rewrite HLn, sort_counts_nat, firstn_map. apply ssorted_map.
    destruct (ListFacts.sort_props (fun y x : string * nat => snd y <? snd x)
                (fun x y => (snd y <= snd x)%nat) insert_nat
                (fun x => eq_refl) (fun x y l => eq_refl)
                ltac:(intros x y H; cbv beta in *; apply Nat.ltb_lt in H; lia)
                ltac:(intros x y H; cbv beta in *; apply Nat.ltb_ge in H; lia)
                ltac:(intros x y z; cbv beta; lia)
                (map (fun kv => (fst kv, count_nat (snd kv))) L)) as [_ Hs].
    apply ListFacts.firstn_ssorted. exact Hs.
  - intros k c Hin. apply RetrievalFacts.in_firstn in Hin.
    apply (Permutation_in _ (sort_counts_perm L)) in Hin. exact (HL k c Hin).
Qed.

(** ** Rates *)

Lemma Qnat_le (a b : nat) : (a <= b)%nat -> (Qnat a <= Qnat b)%Q.
Proof. intro H. unfold Qnat, Qle; cbn. lia. Qed.

Lemma Qnat_add (a b : nat) : (Qnat (a + b) == Qnat a + Qnat b)%Q.
Proof. unfold Qnat. rewrite Nat2Z.inj_add, inject_Z_plus. reflexivity. Qed.

Lemma Qnat_pos (b : nat) : (0 < b)%nat -> (0 < Qnat b)%Q.
Proof. intro H. unfold Qnat, Qlt; cbn. lia. Qed.

Lemma ratio_in_unit (a b : nat) :
  (a <= b)%nat -> (0 < b)%nat -> (0 <= Qnat a / Qnat b <= 1)%Q.
Proof.
  intros Hab Hb. pose proof (Qnat_pos b Hb) as Hp.
  split.
  - apply Qle_shift_div_l; [exact Hp|]. setoid_replace (0 * Qnat b)%Q with 0%Q by ring.
    apply (Qnat_le 0). lia.
  - apply Qle_shift_div_r; [exact Hp|]. setoid_replace (1 * Qnat b)%Q with (Qnat b) by ring.
    apply Qnat_le; exact Hab.
Qed.

Lemma filter_and_le {A} (f g : A -> bool) (l : list A) :
  (length (filter (fun x => f x && g x) l) <= length (filter f l))%nat.
Proof.
  induction l as [|x l IH]; cbn; [lia|].
  destruct (f x); cbn; [destruct (g x); cbn; lia | exact IH].
Qed.

Lemma filter_length_le {A} (f : A -> bool) (l : list A) :
  (length (filter f l) <= length l)%nat.
Proof. induction l as [|x l IH]; cbn; [lia|]. destruct (f x); cbn; lia. Qed.

(** ** Per-subject metrics *)

Definition subject_rows (s : string) (rows : list AnalyticsRow) : list AnalyticsRow :=
  filter (count_key an_subject s) rows.

Definition perf_inv (rows : list AnalyticsRow) (s : string) (o : option Metrics) : Prop :=
  match o with
  | None => s = ""%string \/ is_proto_key s = true \/ subject_rows s rows = []
  | Some m =>
      s <> ""%string /\ is_proto_key s = false /\
      m_count m = length (subject_rows s rows) /\ (0 < m_count m)%nat /\
      (m_successRate m * Qnat (m_count m) ==
         Qnat (length (filter an_success (subject_rows s rows))))%Q /\
      (forallb (fun a => truthy_num (an_responseTime a)) (subject_rows s rows) = true ->
       (m_avgResponseTime m * Qnat (m_count m) == sum_of an_responseTime (subject_rows s rows))%Q)
  end.

Lemma sum_of_snoc (f : AnalyticsRow -> option Q) (l : list AnalyticsRow) (a : AnalyticsRow) :
  sum_of f (l ++ [a]) = (sum_of f l + num_or_0 (f a))%Q.
Proof. unfold sum_of. rewrite fold_left_app. reflexivity. Qed.

Lemma div_mul_cancel (x : Q) (n : nat) : (0 < n)%nat -> (x / Qnat n * Qnat n == x)%Q.
Proof.
  intro H. pose proof (Qnat_pos n H) as Hp. rewrite Qmult_comm. apply Qmult_div_r.
  intro E. rewrite E in Hp. discriminate.
Qed.

Definition zero_metrics : Metrics :=
  {| m_count := 0; m_avgResponseTime := 0; m_successRate := 0 |}.

(** The update [perf_step] makes from the metrics [metrics] it read. *)
Definition perf_update (s : string) (metrics : Metrics) (event : AnalyticsRow)
    (subjectMetrics : list (string * Metrics)) : list (string * Metrics) :=
  let count := S (m_count metrics) in
  let avg :=
    if truthy_num (an_responseTime event) then
      ((m_avgResponseTime metrics * Qnat (count - 1) + num_or_0 (an_responseTime event))
       / Qnat count)%Q
    else m_avgResponseTime metrics in
  let prevSuccesses := (m_successRate metrics * Qnat (count - 1))%Q in
  let rate := ((prevSuccesses + (if an_success event then 1 else 0)) / Qnat count)%Q in
  obj_set s {| m_count := count; m_avgResponseTime := avg; m_successRate := rate |} subjectMetrics.

Lemma perf_step_plain (acc : list (string * Metrics)) (a : AnalyticsRow) (t : string) :
  an_subject a = Some t -> String.eqb t ""%string = false -> is_proto_key t = false ->
  perf_step acc a =
    perf_update t (match obj_own t acc with Some m => m | None => zero_metrics end) a acc.
Proof.
  intros Et Ete Etp. unfold perf_step. rewrite Et, Ete, (obj_get_plain t acc Etp).
  destruct (obj_own t acc); reflexivity.
Qed.

Lemma perf_fold_inv (rows : list AnalyticsRow) :
  NoDup (map fst (getPerformanceBySubject rows)) /\
  forall s, perf_inv rows s (obj_own s (getPerformanceBySubject rows)).
Proof.
  unfold getPerformanceBySubject. induction rows as [|a rows IH] using rev_ind.
  - cbn. split; [constructor|]. intro s. right. right. reflexivity.
  - rewrite fold_left_app. cbn [fold_left]. destruct IH as [Hd Hi].
    set (acc := fold_left perf_step rows []) in *.
    assert (Hr : forall s, subject_rows s (rows ++ [a]) =
              subject_rows s rows ++ (if count_key an_subject s a then [a] else [])).
    { intro s. unfold subject_rows. rewrite filter_app. cbn. destruct (count_key an_subject s a); reflexivity. }
    assert (Hsame : forall s, count_key an_subject s a = false ->
              perf_inv (rows ++ [a]) s (obj_own s acc)).
    { intros s Hf. specialize (Hi s). unfold perf_inv in *. rewrite Hr, Hf, app_nil_r. exact Hi. }
    destruct (an_subject a) as [t|] eqn:Et.
    2:{ unfold perf_step. rewrite Et. split; [exact Hd|]. intro s. apply Hsame.
        unfold count_key. rewrite Et. reflexivity. }
    destruct (String.eqb t ""%string) eqn:Ete.
    { unfold perf_step. rewrite Et, Ete. split; [exact Hd|]. intro s.
      destruct (String.eqb s ""%string) eqn:Es.
      - apply String.eqb_eq in Es; subst s. specialize (Hi ""%string).
        destruct (obj_own ""%string acc).
        + destruct Hi as [Hne _]. congruence.
        + left. reflexivity.
      - apply Hsame. unfold count_key. rewrite Et. apply String.eqb_eq in Ete; subst t.
        destruct (String.eqb ""%string s) eqn:E; [apply String.eqb_eq in E; subst s; rewrite String.eqb_refl in Es; discriminate | reflexivity]. }
    destruct (is_proto_key t) eqn:Etp.
    { (* an inherited member: no own property changes *)
      assert (Hn : obj_own t acc = None).
      { specialize (Hi t). destruct (obj_own t acc); [|reflexivity].
        destruct Hi as (_ & Hf & _). congruence. }
      assert (Hst : perf_step acc a = acc)
        by (unfold perf_step, obj_get; rewrite Et, Ete, Hn, Etp; reflexivity).
      rewrite Hst. split; [exact Hd|]. intro s.
      destruct (String.eqb t s) eqn:Ets.
      - apply String.eqb_eq in Ets; subst s. rewrite Hn. right. left. exact Etp.
      - apply Hsame. unfold count_key. rewrite Et. exact Ets. }
    rewrite (perf_step_plain acc a t Et Ete Etp). unfold perf_update.
    split; [apply obj_set_nodup; exact Hd|]. intro s.
    destruct (String.eqb t s) eqn:Ets.
    2:{ rewrite obj_own_set_other by (apply String.eqb_neq in Ets; congruence).
        apply Hsame. unfold count_key. rewrite Et. exact Ets. }
    apply String.eqb_eq in Ets; subst s. rewrite obj_own_set_same.
    assert (Hk : count_key an_subject t a = true) by (unfold count_key; rewrite Et; apply String.eqb_refl).
    unfold perf_inv. rewrite Hr, Hk. specialize (Hi t). unfold perf_inv in Hi.
    (* the metrics read before the update *)
    assert (Hm : exists m0, (match obj_own t acc with Some m => m | None => zero_metrics end) = m0 /\
               m_count m0 = length (subject_rows t rows) /\
               (m_successRate m0 * Qnat (m_count m0) ==
                  Qnat (length (filter an_success (subject_rows t rows))))%Q /\
               (forallb (fun a => truthy_num (an_responseTime a)) (subject_rows t rows) = true ->
                (m_avgResponseTime m0 * Qnat (m_count m0) ==
                   sum_of an_responseTime (subject_rows t rows))%Q)).
    { destruct (obj_own t acc) as [m|].
      - exists m. destruct Hi as (_ & _ & H1 & H2 & H3). auto.
      - eexists; split; [reflexivity|]. destruct Hi as [Ht|[Htp|Hnil]];
          [subst t; rewrite String.eqb_refl in Ete; discriminate | congruence |].
        rewrite Hnil. cbn. split; [reflexivity|]. split; [reflexivity|]. intros _. reflexivity. }
    destruct Hm as (m0 & -> & Hc & Hs & Ha).
    cbn [m_count m_successRate m_avgResponseTime].
    replace (S (m_count m0) - 1)%nat with (m_count m0) by lia.
    split; [apply String.eqb_neq in Ete; exact Ete|].
    split; [exact Etp|].
    split; [rewrite length_app, Hc; cbn; lia|].
    split; [lia|].
    split.
    + rewrite div_mul_cancel by lia. rewrite Hs, filter_app, length_app.
      cbn. destruct (an_success a); cbn.
      * rewrite Qnat_add. reflexivity.
      * rewrite Nat.add_0_r. ring.
    + rewrite forallb_app. cbn. intro Hall.
      apply andb_prop in Hall as [Hall Hta]. rewrite andb_true_r in Hta. rewrite Hta.
      rewrite div_mul_cancel by lia. rewrite (Ha Hall), sum_of_snoc. reflexivity.
Qed.

(** ** Popular queries *)

Definition query_key (a : AnalyticsRow) (key : string) : bool :=
  match an_queryText a with
  | Some text => negb (String.eqb text ""%string) && String.eqb (Str.trim (Str.toLowerCase text)) key
  | None => false
  end.

(** The entry [popular_step] writes from the entry it read. *)
Definition bump_entry (e : QueryFreq) : QueryFreq :=
  {| qf_count := S (qf_count e); qf_query := qf_query e;
     qf_subject := qf_subject e; qf_mode := qf_mode e |}.

Lemma popular_step_plain (acc : list (string * QueryFreq)) (a : AnalyticsRow) (text : string) :
  an_queryText a = Some text -> String.eqb text ""%string = false ->
  is_proto_key (Str.trim (Str.toLowerCase text)) = false ->
  popular_step acc a =
    obj_set (Str.trim (Str.toLowerCase text))
      (bump_entry (match obj_own (Str.trim (Str.toLowerCase text)) acc with
                   | Some e => e
                   | None => {| qf_count := 0; qf_query := text;
                                qf_subject := undef_if_falsy (an_subject a);
                                qf_mode := undef_if_falsy (an_mode a) |}
                   end)) acc.
Proof.
  intros Eq Ete Ep. unfold popular_step. rewrite Eq, Ete, (obj_get_plain _ acc Ep).
  destruct (obj_own _ acc); reflexivity.
Qed.

Lemma popular_fold_inv (rows : list AnalyticsRow) :
  NoDup (map fst (fold_left popular_step rows [])) /\
  forall key, match obj_own key (fold_left popular_step rows []) with
              | None => is_proto_key key = true \/
                        length (filter (fun a => query_key a key) rows) = O
              | Some e => qf_count e = length (filter (fun a => query_key a key) rows) /\
                          (0 < qf_count e)%nat /\
                          Str.trim (Str.toLowerCase (qf_query e)) = key /\
                          is_proto_key key = false
              end.
Proof.
  induction rows as [|a rows IH] using rev_ind.
  - cbn. split; [constructor|]. intro key. right. reflexivity.
  - rewrite fold_left_app. cbn [fold_left]. destruct IH as [Hd Hi].
    set (acc := fold_left popular_step rows []) in *.
    assert (Hl : forall key, length (filter (fun a => query_key a key) (rows ++ [a])) =
              (length (filter (fun a => query_key a key) rows) + if query_key a key then 1 else 0)%nat).
    { intro key. rewrite filter_app, length_app. cbn. destruct (query_key a key); reflexivity. }
    assert (Hsame : forall key, query_key a key = false ->
              match obj_own key acc with
              | None => is_proto_key key = true \/
                        length (filter (fun a0 => query_key a0 key) (rows ++ [a])) = O
              | Some e => qf_count e = length (filter (fun a0 => query_key a0 key) (rows ++ [a])) /\
                          (0 < qf_count e)%nat /\
                          Str.trim (Str.toLowerCase (qf_query e)) = key /\
                          is_proto_key key = false
              end).
    { intros key Hq. rewrite Hl, Hq, Nat.add_0_r. apply Hi. }
    destruct (an_queryText a) as [text|] eqn:Eq.
    2:{ unfold popular_step. rewrite Eq. split; [exact Hd|]. intro key.
        apply Hsame. unfold query_key. rewrite Eq. reflexivity. }
    destruct (String.eqb text ""%string) eqn:Ete.
    { unfold popular_step. rewrite Eq, Ete. split; [exact Hd|]. intro key.
      apply Hsame. unfold query_key. rewrite Eq, Ete. reflexivity. }
    set (k0 := Str.trim (Str.toLowerCase text)).
    assert (Hq : forall key, query_key a key = String.eqb k0 key)
      by (intro key; unfold query_key; rewrite Eq, Ete; reflexivity).
    destruct (is_proto_key k0) eqn:Ep.
    { (* an inherited member takes the update: no own property changes *)
      assert (Hn : obj_own k0 acc = None).
      { specialize (Hi k0). destruct (obj_own k0 acc); [|reflexivity].
        destruct Hi as (_ & _ & _ & Hf). congruence. }
      assert (Hst : popular_step acc a = acc)
        by (unfold popular_step, obj_get; rewrite Eq, Ete; fold k0; rewrite Hn, Ep; reflexivity).
      rewrite Hst. split; [exact Hd|]. intro key.
      destruct (String.eqb k0 key) eqn:Ek.
      - apply String.eqb_eq in Ek. rewrite <- Ek, Hn. left. exact Ep.
      - apply Hsame. rewrite Hq. exact Ek. }
    rewrite (popular_step_plain acc a text Eq Ete Ep). fold k0.
    split; [apply obj_set_nodup; exact Hd|]. intro key.
    destruct (String.eqb k0 key) eqn:Ek.
    2:{ rewrite obj_own_set_other by (apply String.eqb_neq in Ek; congruence).
        apply Hsame. rewrite Hq. exact Ek. }
    apply String.eqb_eq in Ek. rewrite <- Ek. rewrite obj_own_set_same. cbn [bump_entry qf_count qf_query].
    rewrite Hl, Hq, String.eqb_refl.
    specialize (Hi k0).
    destruct (obj_own k0 acc) as [e|]; cbn [qf_count qf_query].
    + destruct Hi as (-> & _ & Hk & _). split; [lia|]. split; [lia|]. split; [exact Hk | exact Ep].
    + destruct Hi as [Hp | ->]; [congruence|]. split; [reflexivity|]. split; [lia|].
      split; [reflexivity | exact Ep].
Qed.

(** ** A table with subjects named after members of [Object.prototype] *)

Definition subject_row (s : string) : AnalyticsRow :=
  {| an_userId := None; an_eventType := "query"; an_subject := Some s; an_mode := None;
     an_queryText := None; an_documentsRetrieved := None; an_responseTime := None;
     an_tokenUsage := None; an_success := true; an_errorMessage := None; an_createdAt := 0 |}.

Definition proto_table : list AnalyticsRow :=
  map subject_row ["constructor"; "constructor"; "__proto__"; "math"]%string.

(** ** Properties of the exported functions *)

(** X26: [getSystemAnalytics]: a failed query gives [null]; otherwise the success
    rate and the error rate lie in [0, 1] and at most five subjects and five
    modes are reported.  When no subject (mode) of a row in the time range
    names a member of [Object.prototype], the subjects (modes) come in
    descending order of their counts, each a number: the number of rows in
    the time range that carry it.  A subject such as [constructor] is
    counted as a string instead ("function Object() { [native code] }" then
    one 1 per row) and [__proto__] is not counted. *)
Theorem system_analytics_outcome (findOk : M unit) (table : list AnalyticsRow)
    (timeRange : option (nat * nat)) :
  match findOk with
  | inl _ => getSystemAnalytics findOk table timeRange = inr None
  | inr _ =>
      let analytics := filter (in_range timeRange) table in
      exists sa, getSystemAnalytics findOk table timeRange = inr (Some sa) /\
      (0 <= sa_successRate sa <= 1)%Q /\ (0 <= sa_errorRate sa <= 1)%Q /\
      (sa_totalWorkflows sa <= length analytics)%nat /\
      (length (sa_popularSubjects sa) <= 5)%nat /\
      (length (sa_popularModes sa) <= 5)%nat /\
      (forallb (fun a => plain_key (an_subject a)) analytics = true ->
       StronglySorted (fun x y => (count_nat (snd y) <= count_nat (snd x))%nat)
         (sa_popularSubjects sa) /\
       forall k c, In (k, c) (sa_popularSubjects sa) ->
         k <> ""%string /\
         exists n, c = CNum n /\
           n = length (filter (fun a => match an_subject a with
                                        | Some s => String.eqb s k | None => false end)
                              analytics) /\ (0 < n)%nat) /\
      (forallb (fun a => plain_key (an_mode a)) analytics = true ->
       StronglySorted (fun x y => (count_nat (snd y) <= count_nat (snd x))%nat)
         (sa_popularModes sa) /\
       forall k c, In (k, c) (sa_popularModes sa) ->
         k <> ""%string /\
         exists n, c = CNum n /\
           n = length (filter (fun a => match an_mode a with
                                        | Some s => String.eqb s k | None => false end)
                              analytics) /\ (0 < n)%nat)
  end /\
  exists sa, getSystemAnalytics (ret tt) proto_table None = inr (Some sa) /\
    sa_popularSubjects sa =
      [("constructor", CStr "function Object() { [native code] }11"); ("math", CNum 1)]%string.
Proof.
  split; [|eexists; split; [reflexivity | vm_compute; reflexivity]].
  destruct findOk as [e|[]]; [reflexivity|]. cbv zeta.
  eexists; split; [reflexivity|]. cbn [sa_successRate sa_errorRate sa_totalWorkflows
    sa_popularSubjects sa_popularModes].
  set (analytics := filter (in_range timeRange) table).
  destruct (popular_counts an_subject analytics) as (Hs1 & Hs2).
  destruct (popular_counts an_mode analytics) as (Hm1 & Hm2).
  split.
  { destruct (0 <? length (filter is_workflow_complete analytics)) eqn:E.
    - apply Nat.ltb_lt in E. apply ratio_in_unit; [apply filter_and_le | exact E].
    - split; apply Qle_refl || discriminate. }
  split.
  { unfold AnswerGeneration.len_or_1.
    pose proof (filter_length_le (fun a => negb (an_success a)) analytics).
    destruct (length analytics) eqn:El.
    - apply ratio_in_unit; lia.
    - apply ratio_in_unit; lia. }
  split; [apply filter_length_le|].
  split; [exact Hs1|]. split; [exact Hm1|].
  split; [exact Hs2 | exact Hm2].
Qed.

(** X27: [getPerformanceBySubject]: a subject has an own entry exactly when it
    is not empty, does not name a member of [Object.prototype] and some row
    carries it; the entry counts those rows, its success rate lies in
    [0, 1] and times the count gives the number of successful rows, and
    when every such row has a response time its average times the count
    gives their sum. *)
Theorem performance_by_subject_metrics (analytics : list AnalyticsRow) (s : string) :
  let rows := filter (fun a => match an_subject a with
                               | Some s' => String.eqb s' s | None => false end) analytics in
  match obj_own s (getPerformanceBySubject analytics) with
  | None => s = ""%string \/ is_proto_key s = true \/ rows = []
  | Some m =>
      s <> ""%string /\ is_proto_key s = false /\
      m_count m = length rows /\ (0 < m_count m)%nat /\
      (0 <= m_successRate m <= 1)%Q /\
      (m_successRate m * Qnat (m_count m) == Qnat (length (filter an_success rows)))%Q /\
      (forallb (fun a => truthy_num (an_responseTime a)) rows = true ->
       (m_avgResponseTime m * Qnat (m_count m) == sum_of an_responseTime rows)%Q)
  end.
Proof.
  cbv zeta. destruct (perf_fold_inv analytics) as [_ Hi]. specialize (Hi s).
  unfold perf_inv, subject_rows, count_key in Hi.
  destruct (obj_own s (getPerformanceBySubject analytics)) as [m|]; [|exact Hi].
  destruct Hi as (Hne & Hp & Hc & Hpos & Hs & Ha).
  split; [exact Hne|]. split; [exact Hp|]. split; [exact Hc|]. split; [exact Hpos|].
  split; [|split; assumption].
  assert (Hr : (m_successRate m == Qnat (length (filter an_success (filter (fun a =>
       match an_subject a with Some s' => String.eqb s' s | None => false end) analytics)))
       / Qnat (m_count m))%Q).
  { rewrite <- Hs. rewrite Qdiv_mult_l; [reflexivity|].
    pose proof (Qnat_pos _ Hpos) as Hq. intro E. rewrite E in Hq. discriminate. }
  rewrite Hr. apply ratio_in_unit; [|exact Hpos].
  rewrite Hc. apply filter_length_le.
Qed.

(** X28: [getPopularQueries]: a failed query gives no result; otherwise at most
    [limit] entries, in descending order of their counts.  An entry's key
    is the trimmed lower-case form of its [query], which names no member of
    [Object.prototype], and its count is the number of matching rows whose
    non-empty query text has that form. *)
Theorem popular_queries_outcome (findOk : M unit) (table : list AnalyticsRow)
    (subject mode : option string) (limit : nat) :
  match findOk with
  | inl _ => getPopularQueries findOk table subject mode limit = inr []
  | inr _ =>
      exists res, getPopularQueries findOk table subject mode limit = inr res /\
      (length res <= limit)%nat /\
      StronglySorted (fun x y => (qf_count y <= qf_count x)%nat) res /\
      forall q, In q res ->
        is_proto_key (Str.trim (Str.toLowerCase (qf_query q))) = false /\
        qf_count q = length (filter (fun a => query_key a (Str.trim (Str.toLowerCase (qf_query q))))
                                    (filter (popular_where subject mode) table)) /\
        (0 < qf_count q)%nat
  end.
Proof.
  destruct findOk as [e|[]]; [reflexivity|]. cbv zeta.
  eexists; split; [reflexivity|].
  set (queries := filter (popular_where subject mode) table).
  destruct (popular_fold_inv queries) as [Hd Hi].
  set (qfm := fold_left popular_step queries []) in *.
  destruct (ListFacts.sort_props (fun y x : QueryFreq => qf_count y <? qf_count x)
              (fun x y => (qf_count y <= qf_count x)%nat) insert_freq
              (fun x => eq_refl) (fun x y l => eq_refl)
              ltac:(intros x y H; cbv beta in *; apply Nat.ltb_lt in H; lia)
              ltac:(intros x y H; cbv beta in *; apply Nat.ltb_ge in H; lia)
              ltac:(intros x y z; cbv beta; lia) (map snd (object_entries qfm))) as [Hp Hs].
  split; [apply ListFacts.length_firstn_le|].
  split; [apply ListFacts.firstn_ssorted; exact Hs|].
  intros q Hin. apply RetrievalFacts.in_firstn in Hin.
  apply (Permutation_in _ Hp) in Hin. apply in_map_iff in Hin as [[key e] [He Hin]].
  cbn in He; subst e.
  pose proof (object_entries_in _ _ _ Hd Hin) as Hg. specialize (Hi key). rewrite Hg in Hi.
  destruct Hi as (Hc & Hpos & Hk & Hpk). rewrite Hk.
  split; [exact Hpk|]. split; [exact Hc | exact Hpos].
Qed.

End AnalyticsFacts.
